(** * clawctl: the provisioning state machine, its actions and the pairing automation

    A shallow embedding of the TypeScript sources of clawctl
    (lib/types.ts, lib/ssh-client.ts, lib/state.ts, lib/image-builder.ts,
    lib/interactive.ts, lib/auto-connect.ts, lib/config.ts and
    commands/deploy.ts) together with the properties of the deployment
    pipeline that follow from the code.

    Asynchronous functions become computations in a state-and-exception
    monad over a [World]: the SSH client's connection flag, the content of
    the remote state file, the wall clock, and the log of every call that
    left the process.
    The replies of the remote host (and of the local collaborators) come
    from an environment [Env], which may answer differently depending on
    everything that happened before. *)

From Stdlib Require Import ZArith String Ascii List Bool Lia.
From Stdlib Require Import DecimalString DecimalPos DecimalZ.
From stdpp Require Import base option list gmap strings pretty sorting.

Open Scope Z_scope.
Open Scope string_scope.

(** ** lib/types.ts *)

Inductive PhaseStatus := pending | complete | failed.

#[global] Instance PhaseStatus_eq_dec : EqDecision PhaseStatus.
Proof. solve_decision. Defined.

Record DeploymentMetadata := mkMetadata {
  deployUser : string;
  deployUid : Z;
  deployGid : Z;
  deployHome : string;
  image : string;
  branch : string
}.

Record DeploymentState := mkState {
  instanceName : string;
  deploymentId : string;
  startedAt : string;
  lastPhase : Z;
  phases : gmap Z PhaseStatus;
  metadata : DeploymentMetadata
}.

Record SSHConfig := mkSSHConfig {
  host : string;
  port : Z;
  ssh_username : string;
  privateKeyPath : string
}.

Record DeploymentConfig := mkConfig {
  ip : string;
  cfg_instanceName : string;
  ssh : SSHConfig;
  cfg_branch : string;
  skipOnboard : bool;
  noAutoConnect : bool;
  global : bool;
  force : bool;
  clean : bool;
  verbose : bool;
  instancesDir : string
}.

(** The options of the [deploy] command that the orchestrator reads
    itself; the others reach it through [loadConfig]. *)
Record Flags := mkFlags {
  flag_ip : string;
  flag_key : string;
  flag_name : option string
}.

Record UserInfo := mkUserInfo {
  username : string;
  uid : Z;
  gid : Z;
  home : string;
  inDockerGroup : bool
}.

Record ExecResult := mkExecResult {
  exitCode : Z;
  stdout : string;
  stderr : string
}.

(** ** Outcomes, events and the environment *)

(** How an awaited call of the program ends: it returns, it throws (the
    message of the [Error]), or the process is gone through
    [process.exit(code)], which no [catch] or [finally] intercepts. *)
Inductive Outcome (A : Type) :=
| Returned (a : A)
| Thrown (e : string)
| Exited (code : Z).
Arguments Returned {A} a.
Arguments Thrown {A} e.
Arguments Exited {A} code.

(** How a promise handed out by a collaborator settles. *)
Inductive Reply (A : Type) :=
| Resolved (a : A)
| Rejected (e : string).
Arguments Resolved {A} a.
Arguments Rejected {A} e.

(** The functions [deployCommand] awaits, with their arguments. Those
    whose bodies are embedded below ([buildImage], [runOnboarding]) run
    that body; the others are answered by the environment. *)
Inductive Action :=
| LoadConfig (flags : Flags)
| ValidateSSHKey (keyPath : string)
| ReadFile (path : string)
| Connect
| InstallBasePackages
| InstallDocker
| CreateDeploymentUser
| CreateDirectories (userInfo : UserInfo)
| BuildImage (userInfo : UserInfo) (br : string)
| UploadComposeFiles (userInfo : UserInfo) (imageName : string)
| RunOnboarding (userInfo : UserInfo) (skip : bool)
| ExtractGatewayToken (userInfo : UserInfo)
| UpdateEnvToken (userInfo : UserInfo) (token : string)
| StartGateway (userInfo : UserInfo)
| CreateInstanceArtifact (config : DeploymentConfig) (userInfo : UserInfo) (imageName : string)
| AutoConnect (sshConfig : SSHConfig) (userInfo : UserInfo) (p : Z).

Inductive Event :=
| EvExec (cmd : string) (r : Reply ExecResult)
| EvExecStream (cmd : string) (r : Reply Z)
| EvExecInteractive (cmd : string) (r : Reply unit)
| EvUpload (content path : string) (r : Reply unit)
| EvCall (a : Action) (persisted : option string)
| EvDone (a : Action) (ok : bool)
| EvConnectAttempt (attempt : Z) (r : Reply unit)
| EvDisconnect
| EvPrompt (answer : string)
| EvSpawnTunnel (sshConfig : SSHConfig) (p : Z)
| EvKillTunnel
| EvOpenBrowser (url : string)
| EvSleep (ms : Z)
| EvInterrupt.

(** The environment: every reply may depend on the events so far. *)
Record Env := mkEnv {
  exec_reply : list Event -> string -> Reply ExecResult;
  execStream_reply : list Event -> string -> Reply Z;
  execInteractive_reply : list Event -> string -> Reply unit;
  uploadContent_reply : list Event -> string -> string -> Reply unit;
  connect_reply : list Event -> Reply unit;
  action_reply : list Event -> Action -> Reply unit;
  loadConfig_reply : list Event -> Flags -> Reply DeploymentConfig;
  createDeploymentUser_reply : list Event -> Reply UserInfo;
  extractGatewayToken_reply : list Event -> UserInfo -> Reply (option string);
  generateUUID_reply : list Event -> string;
  toISOString_reply : list Event -> string;
  now_reply : list Event -> Z;
  prompt_reply : list Event -> string;
  tunnelExited_reply : list Event -> bool
}.

(** The state file of lib/state.ts. *)
Definition STATE_FILE : string := "/home/roboclaw/.clawctl-deploy-state.json".

Record World := mkWorld {
  connected : bool;
  stateFile : option string;
  clock : Z;
  log : list Event
}.

Definition record (ev : Event) (w : World) : World :=
  mkWorld (connected w) (stateFile w) (clock w) (log w ++ [ev]).

Definition M (A : Type) : Type := World -> Outcome A * World.

Definition ret {A} (a : A) : M A := fun w => (Returned a, w).
Definition throw {A} (e : string) : M A := fun w => (Thrown e, w).
Definition process_exit {A} (code : Z) : M A := fun w => (Exited code, w).

Definition bind {A B} (m : M A) (k : A -> M B) : M B := fun w =>
  match m w with
  | (Returned a, w') => k a w'
  | (Thrown e, w') => (Thrown e, w')
  | (Exited c, w') => (Exited c, w')
  end.

Declare Scope prog_scope.
Delimit Scope prog_scope with prog.
Notation "'let!' x ':=' m 'in' k" := (bind m (fun x => k))
  (at level 10, x name, m at level 100, k at level 200) : prog_scope.
Notation "m ';;;' k" := (bind m (fun _ => k))
  (at level 100, k at level 200, right associativity) : prog_scope.
Open Scope prog_scope.

(** [try { body } catch (error) { handler }] *)
Definition try_catch {A} (body : M A) (handler : string -> M A) : M A := fun w =>
  match body w with
  | (Thrown e, w') => handler e w'
  | r => r
  end.

(** [try { body } finally { fin }]: the block runs on return and on throw,
    not when the process has exited. *)
Definition try_finally {A} (body : M A) (fin : M unit) : M A := fun w =>
  match body w with
  | (Exited c, w') => (Exited c, w')
  | (r, w') =>
      match fin w' with
      | (Returned _, w'') => (r, w'')
      | (Thrown e, w'') => (Thrown e, w'')
      | (Exited c, w'') => (Exited c, w'')
      end
  end.

(** ** JavaScript string helpers *)

Definition nl : string := String "010" EmptyString.

(** The double quote. *)
Definition dq : string := String "034" EmptyString.

(** White space as [String.prototype.trim] and [parseInt] skip it, on the
    bytes of the text: space, tab, line feed, vertical tab, form feed and
    carriage return. *)
Definition isWhite (c : ascii) : bool :=
  let n := nat_of_ascii c in
  orb (Nat.eqb n 32) (andb (Nat.leb 9 n) (Nat.leb n 13)).

Fixpoint trimStart (s : string) : string :=
  match s with
  | String c s' => if isWhite c then trimStart s' else s
  | EmptyString => EmptyString
  end.

Definition trimEnd (s : string) : string := String.rev (trimStart (String.rev s)).

Definition trim (s : string) : string := trimEnd (trimStart s).

Definition digitValue (c : ascii) : option Z :=
  let n := nat_of_ascii c in
  if andb (Nat.leb 48 n) (Nat.leb n 57) then Some (Z.of_nat n - 48) else None.

(** The longest run of decimal digits at the head of [s], read as a number
    on top of [acc]; [seen] tells whether a digit was read. *)
Fixpoint readDigits (s : string) (acc : Z) (seen : bool) : option Z :=
  match s with
  | String c s' =>
      match digitValue c with
      | Some d => readDigits s' (10 * acc + d) true
      | None => if seen then Some acc else None
      end
  | EmptyString => if seen then Some acc else None
  end.

(** [parseInt(s, 10)], [None] for [NaN]. *)
Definition parseInt (s : string) : option Z :=
  match trimStart s with
  | String "-" s' => Z.opp <$> readDigits s' 0 false
  | String "+" s' => readDigits s' 0 false
  | s' => readDigits s' 0 false
  end.

(** ** lib/ssh-client.ts *)

(** What the remote host does with the state file: [cat] prints it,
    [rm -f] removes it, an SFTP write replaces it. Every other effect of a
    command stays with the environment. *)
Definition CLEAN_STATE_CMD : string :=
  "rm -f /root/.clawctl-deploy-state.json /home/roboclaw/.clawctl-deploy-state.json 2>/dev/null || true".

Definition reads_state_file (command : string) : bool :=
  bool_decide (command = "cat " +:+ STATE_FILE).

Definition removes_state_file (command : string) : bool :=
  bool_decide (command = "rm -f " +:+ STATE_FILE) || bool_decide (command = CLEAN_STATE_CMD).

Definition cat_result (file : option string) : ExecResult :=
  match file with
  | Some content => mkExecResult 0 content ""
  | None => mkExecResult 1 "" "cat: No such file or directory"
  end.

Definition host_exec (command : string) (r : ExecResult) (w : World) : ExecResult * World :=
  if reads_state_file command then
    let r' := cat_result (stateFile w) in
    (r', record (EvExec command (Resolved r')) w)
  else if removes_state_file command && bool_decide (exitCode r = 0) then
    (r, mkWorld (connected w) None (clock w) (log w ++ [EvExec command (Resolved r)]))
  else (r, record (EvExec command (Resolved r)) w).

Definition host_upload (content path : string) (w : World) : World :=
  mkWorld (connected w)
          (if bool_decide (path = STATE_FILE) then Some content else stateFile w)
          (clock w)
          (log w ++ [EvUpload content path (Resolved tt)]).

Section Program.

Variable env : Env.

Definition NOT_CONNECTED : string := "Not connected to SSH server".

(** [sleep(ms)]: at least [ms] milliseconds pass. *)
Definition sleep (ms : Z) : M unit := fun w =>
  (Returned tt, mkWorld (connected w) (stateFile w) (clock w + ms) (log w ++ [EvSleep ms])).

(** The retry loop of [SSHClient.connect], from [attempt] on. *)
Fixpoint connectLoop (remaining : nat) (attempt maxRetries : Z) : M unit :=
  match remaining with
  | O => ret tt
  | S k => fun w =>
      match connect_reply env (log w) with
      | Resolved _ =>
          (Returned tt,
           mkWorld true (stateFile w) (clock w) (log w ++ [EvConnectAttempt attempt (Resolved tt)]))
      | Rejected e =>
          let w' := record (EvConnectAttempt attempt (Rejected e)) w in
          if bool_decide (attempt = maxRetries)
          then (Thrown ("SSH connection failed after " +:+ pretty maxRetries +:+
                        " attempts: " +:+ e), w')
          else bind (sleep (Z.min (1000 * 2 ^ (attempt - 1)) 5000))
                    (fun _ => connectLoop k (attempt + 1) maxRetries) w'
      end
  end.

(** [SSHClient.connect]: connect to the SSH server with retry logic. *)
Definition ssh_connect (maxRetries : Z) : M unit := fun w =>
  if connected w then (Returned tt, w)
  else connectLoop (Z.to_nat maxRetries) 1 maxRetries w.

(** [SSHClient.exec]: a nonzero exit code is a result, not a failure. *)
Definition ssh_exec (command : string) : M ExecResult := fun w =>
  if negb (connected w) then (Thrown NOT_CONNECTED, w)
  else match exec_reply env (log w) command with
       | Rejected e => (Thrown e, record (EvExec command (Rejected e)) w)
       | Resolved r => let (r', w') := host_exec command r w in (Returned r', w')
       end.

(** [SSHClient.execStream]: the exit code only. *)
Definition ssh_execStream (command : string) : M Z := fun w =>
  if negb (connected w) then (Thrown NOT_CONNECTED, w)
  else match execStream_reply env (log w) command with
       | Rejected e => (Thrown e, record (EvExecStream command (Rejected e)) w)
       | Resolved c => (Returned c, record (EvExecStream command (Resolved c)) w)
       end.

(** [SSHClient.uploadContent] *)
Definition ssh_uploadContent (content remotePath : string) : M unit := fun w =>
  if negb (connected w) then (Thrown NOT_CONNECTED, w)
  else match uploadContent_reply env (log w) content remotePath with
       | Rejected e => (Thrown e, record (EvUpload content remotePath (Rejected e)) w)
       | Resolved _ => (Returned tt, host_upload content remotePath w)
       end.

(** [SSHClient.execInteractive] *)
Definition ssh_execInteractive (command : string) : M unit := fun w =>
  if negb (connected w) then (Thrown NOT_CONNECTED, w)
  else match execInteractive_reply env (log w) command with
       | Rejected e => (Thrown e, record (EvExecInteractive command (Rejected e)) w)
       | Resolved _ => (Returned tt, record (EvExecInteractive command (Resolved tt)) w)
       end.

(** [SSHClient.disconnect] and [SSHClient.isConnected] *)
Definition ssh_disconnect : M unit := fun w =>
  if connected w then (Returned tt, mkWorld false (stateFile w) (clock w) (log w ++ [EvDisconnect]))
  else (Returned tt, w).

Definition ssh_isConnected : M bool := fun w => (Returned (connected w), w).

(** [Date.now()]: the reading of the environment, never behind the time
    the process has already seen pass. *)
Definition Date_now : M Z := fun w =>
  let t := Z.max (clock w) (now_reply env (log w)) in
  (Returned t, mkWorld (connected w) (stateFile w) t (log w)).

(** A local effect of the auto-connect, logged where the code starts
    it: the spawn of the tunnel or of the browser, the kill of the
    tunnel, the interrupt of the operator. Only the order of these
    effects among the remote commands is modelled. The source listens to
    no error of the processes it spawns, so a spawn that fails ends the
    process with an uncaught exception; that ending is not an outcome of
    [M]. *)
Definition emit (ev : Event) : M unit := fun w => (Returned tt, record ev w).

(** An awaited call of one of the functions of [Action]: entering and
    leaving it are logged around its body. The entry is stamped with what
    the state file holds at that moment, a ghost value for the proofs. *)
Definition call {A} (a : Action) (body : M A) : M A := fun w =>
  match body (record (EvCall a (stateFile w)) w) with
  | (Returned x, w') => (Returned x, record (EvDone a true) w')
  | (Thrown e, w') => (Thrown e, record (EvDone a false) w')
  | (Exited c, w') => (Exited c, w')
  end.

(** A promise of the environment, awaited. *)
Definition await {A} (reply : list Event -> Reply A) : M A := fun w =>
  match reply (log w) with
  | Resolved a => (Returned a, w)
  | Rejected e => (Thrown e, w)
  end.

(** The body of an action that this development leaves to the environment. *)
Definition extern (a : Action) : M unit :=
  await (fun events => action_reply env events a).

(** Helper function to verify SSH user is root. *)
Definition verifyRootAccess : M bool :=
  let! result := ssh_exec "id -u" in
  ret (bool_decide (exitCode result = 0) && bool_decide (trim (stdout result) = "0")).

End Program.

(** ** lib/state.ts *)

Module State.
Section Defs.

Variable env : Env.

(** [JSON.stringify(state, null, 2)] and [JSON.parse(text) as
    DeploymentState], the latter [None] when [JSON.parse] throws. The
    embedding follows the declared types: a text that parses is taken to
    have the shape of a [DeploymentState], as the unchecked cast of the
    source does. *)
Variable JSON_stringify : DeploymentState -> string.
Variable JSON_parse : string -> option DeploymentState.

Definition initialPhases : gmap Z PhaseStatus :=
  <[1:=pending]> (<[2:=pending]> (<[3:=pending]> (<[4:=pending]> (<[5:=pending]>
  (<[6:=pending]> (<[7:=pending]> (<[8:=pending]> (<[9:=pending]> (<[10:=pending]> ∅))))))))).

(** Create a new deployment state file on the remote server. *)
Definition createState (name : string) (meta : DeploymentMetadata) : M unit := fun w =>
  let state := mkState name (generateUUID_reply env (log w)) (toISOString_reply env (log w))
                       0 initialPhases meta in
  ssh_uploadContent env (JSON_stringify state) STATE_FILE w.

(** Load the deployment state from the remote server. *)
Definition loadState : M (option DeploymentState) :=
  try_catch
    (let! result := ssh_exec env ("cat " +:+ STATE_FILE) in
     if negb (bool_decide (exitCode result = 0)) then ret None
     else match JSON_parse (stdout result) with
          | Some state => ret (Some state)
          | None => throw "SyntaxError: not valid JSON"
          end)
    (fun _ => ret None).

(** [state.phases[phaseNumber] = status; state.lastPhase = phaseNumber] *)
Definition setPhase (state : DeploymentState) (phaseNumber : Z) (status : PhaseStatus)
  : DeploymentState :=
  mkState (instanceName state) (deploymentId state) (startedAt state)
          phaseNumber (<[phaseNumber:=status]> (phases state)) (metadata state).

(** Update phase status in the state file. *)
Definition updateState (phaseNumber : Z) (status : PhaseStatus) : M unit :=
  let! state := loadState in
  match state with
  | None => ret tt
  | Some state =>
      ssh_uploadContent env (JSON_stringify (setPhase state phaseNumber status)) STATE_FILE
  end.

(** Delete the deployment state file. *)
Definition deleteState : M unit :=
  let! result := ssh_exec env ("rm -f " +:+ STATE_FILE) in
  ret tt.

(** [Object.values(state.phases).some(status => status === s)] *)
Definition somePhase (s : PhaseStatus) (state : DeploymentState) : bool :=
  existsb (fun status => bool_decide (status = s)) (map snd (map_to_list (phases state))).

(** Check if there's a partial deployment on the server. *)
Definition detectPartialDeployment : M (option DeploymentState) :=
  let! state := loadState in
  match state with
  | None => ret None
  | Some state =>
      let hasFailedPhases := somePhase failed state in
      let hasPendingPhases := somePhase pending state in
      if hasFailedPhases || hasPendingPhases then ret (Some state) else ret None
  end.

(** Check if a specific phase is complete. *)
Definition isPhaseComplete (state : DeploymentState) (phaseNumber : Z) : bool :=
  bool_decide (phases state !! phaseNumber = Some complete).

(** Get the next phase to execute: the loop over phases 1 to 10. *)
Fixpoint nextPhaseFrom (state : DeploymentState) (phase : Z) (remaining : nat) : Z :=
  match remaining with
  | O => 11
  | S n =>
      if bool_decide (phases state !! phase = Some pending)
         || bool_decide (phases state !! phase = Some failed)
      then phase
      else nextPhaseFrom state (phase + 1) n
  end.

Definition getNextPhase (state : DeploymentState) : Z := nextPhaseFrom state 1 10.

End Defs.
End State.

(** ** lib/image-builder.ts *)

Module ImageBuilder.
Section Defs.

Variable env : Env.

Definition IMAGE_NAME : string := "roboclaw/openclaw:local".

Definition imagesCmd (imageName : string) : string := "docker images -q " +:+ imageName.

(** The test [checkImageExists] applies to the result of its command. *)
Definition imagePresent (result : ExecResult) : bool :=
  bool_decide (exitCode result = 0) && Nat.ltb 0 (String.length (trim (stdout result))).

(** Check if Docker image exists. *)
Definition checkImageExists (imageName : string) : M bool :=
  let! result := ssh_exec env (imagesCmd imageName) in
  ret (imagePresent result).

(** Check if git repository exists. *)
Definition checkRepoExists (repoPath : string) : M bool :=
  let! result := ssh_exec env ("test -d " +:+ repoPath +:+ "/.git") in
  ret (bool_decide (exitCode result = 0)).

Definition verifyCmd (imageName : string) (uid gid : Z) : string :=
  "docker run --rm --user " +:+ pretty uid +:+ ":" +:+ pretty gid +:+ " " +:+ imageName +:+ " id -u".

(** The test [verifyImage] applies to the result of its command. *)
Definition runsAs (uid : Z) (result : ExecResult) : bool :=
  if negb (bool_decide (exitCode result = 0)) then false
  else bool_decide (parseInt (trim (stdout result)) = Some uid).

(** Verify image can run as the specified user. *)
Definition verifyImage (imageName : string) (uid gid : Z) : M bool :=
  let! result := ssh_exec env (verifyCmd imageName uid gid) in
  ret (runsAs uid result).

Definition rmiCmd (imageName : string) : string := "docker rmi " +:+ imageName.

Definition updateCmd (repoPath username br : string) : string :=
  nl +:+ "      cd " +:+ repoPath +:+ nl +:+
  "      sudo -u " +:+ username +:+ " git fetch origin" +:+ nl +:+
  "      sudo -u " +:+ username +:+ " git checkout " +:+ br +:+ nl +:+
  "      sudo -u " +:+ username +:+ " git pull" +:+ nl +:+ "    ".

Definition cloneCmd (repoPath username br : string) : string :=
  nl +:+ "      sudo -u " +:+ username +:+
  " git clone https://github.com/openclaw/openclaw.git " +:+ repoPath +:+ nl +:+
  "      cd " +:+ repoPath +:+ nl +:+
  "      sudo -u " +:+ username +:+ " git checkout " +:+ br +:+ nl +:+ "    ".

Definition buildCmd (repoPath imageName : string) : string :=
  nl +:+ "    cd " +:+ repoPath +:+ nl +:+
  "    docker build -t " +:+ imageName +:+ " ." +:+ nl +:+ "  ".

(** The part of [buildImage] after the test of an existing image. *)
Definition rebuild (userInfo : UserInfo) (br : string) : M string :=
  let imageName := IMAGE_NAME in
  let repoPath := home userInfo +:+ "/openclaw-src" in
  let! repoExists := checkRepoExists repoPath in
  (if repoExists
   then ssh_execStream env (trim (updateCmd repoPath (username userInfo) br))
   else ssh_execStream env (trim (cloneCmd repoPath (username userInfo) br))) ;;;
  let! buildResult := ssh_execStream env (trim (buildCmd repoPath imageName)) in
  if negb (bool_decide (buildResult = 0)) then throw "Docker image build failed" else
  let! built := checkImageExists imageName in
  if negb built then throw "Image build completed but image not found" else
  let! isUsable := verifyImage imageName (uid userInfo) (gid userInfo) in
  if negb isUsable then throw "Built image failed verification" else
  ret imageName.

(** Build OpenClaw Docker image from GitHub. *)
Definition buildImage (userInfo : UserInfo) (br : string) : M string :=
  let imageName := IMAGE_NAME in
  let! imageExists := checkImageExists imageName in
  if imageExists then
    let! isUsable := verifyImage imageName (uid userInfo) (gid userInfo) in
    if isUsable then ret imageName
    else (ssh_exec env (rmiCmd imageName) ;;; rebuild userInfo br)
  else rebuild userInfo br.

End Defs.
End ImageBuilder.

(** ** lib/interactive.ts *)

Module Interactive.
Section Defs.

Variable env : Env.

Definition markerCmd (home : string) : string :=
  "test -f " +:+ home +:+ "/.openclaw/openclaw.json".

(** Check if onboarding is complete. *)
Definition checkOnboardingComplete (home : string) : M bool :=
  let! result := ssh_exec env (markerCmd home) in
  ret (bool_decide (exitCode result = 0)).

Definition onboardCmd (composeDir username : string) : string :=
  "cd " +:+ composeDir +:+ " && sudo -u " +:+ username +:+
  " docker compose run --rm -it openclaw-cli onboard --no-install-daemon".

(** Run the onboarding wizard interactively. *)
Definition runOnboarding (userInfo : UserInfo) (skipOnboard : bool) : M unit :=
  let composeDir := home userInfo +:+ "/docker" in
  let! configExists := checkOnboardingComplete (home userInfo) in
  if configExists then ret tt else
  if skipOnboard then ret tt else
  try_catch (ssh_execInteractive env (onboardCmd composeDir (username userInfo)))
            (fun _ => ret tt) ;;;
  let! onboardingComplete := checkOnboardingComplete (home userInfo) in
  if negb onboardingComplete then throw "Onboarding failed - config file not found"
  else ret tt.

End Defs.
End Interactive.

(** ** lib/auto-connect.ts *)

Record PairingRequest := mkPairingRequest {
  requestId : string;
  deviceId : string;
  req_ip : string;
  age : string
}.

(** [s.includes(sub)] *)
Fixpoint includes (sub s : string) : bool :=
  String.prefix sub s ||
  match s with
  | String _ s' => includes sub s'
  | EmptyString => false
  end.

(** [s.split(sep)] for a separator that is not empty: [cur] is the piece
    being read, backwards, and [skip] the bytes of a separator still to
    pass. *)
Fixpoint splitGo (sep : string) (skip : nat) (cur s : string) : list string :=
  match s with
  | EmptyString => [String.rev cur]
  | String c s' =>
      match skip with
      | S k => splitGo sep k cur s'
      | O =>
          if String.prefix sep s
          then String.rev cur :: splitGo sep (String.length sep - 1) "" s'
          else splitGo sep O (String c cur) s'
      end
  end.

Definition split (sep s : string) : list string := splitGo sep 0 "" s.

Definition isHexOrDash (c : ascii) : bool :=
  let n := nat_of_ascii c in
  (Nat.leb 48 n && Nat.leb n 57) || (Nat.leb 97 n && Nat.leb n 102) || Nat.eqb n 45.

(** [/^[0-9a-f-]{36}$/] *)
Definition isRequestId (s : string) : bool :=
  Nat.eqb (String.length s) 36 && forallb isHexOrDash (list_ascii_of_string s).

Definition nonEmpty (s : string) : bool := negb (bool_decide (s = "")).

(** The loop of [getPendingRequests] over the lines of the devices table. *)
Fixpoint parsePendingLines (lines : list string) (inPending : bool) : list PairingRequest :=
  match lines with
  | [] => []
  | line :: rest =>
      if includes "Pending (" line then parsePendingLines rest true
      else if includes "Paired (" line then parsePendingLines rest false
      else if inPending && String.prefix "│" line && negb (includes "Request" line) then
        let parts := List.filter nonEmpty (map trim (split "│" line)) in
        if Nat.leb 4 (length parts) && isRequestId (nth 0 parts "")
        then mkPairingRequest (nth 0 parts "") (nth 1 parts "") (nth 3 parts "") (nth 4 parts "")
             :: parsePendingLines rest inPending
        else parsePendingLines rest inPending
      else parsePendingLines rest inPending
  end.

Definition parsePending (out : string) : list PairingRequest :=
  parsePendingLines (split nl out) false.

Module AutoConnect.
Section Defs.

Variable env : Env.

(** Prompt user to auto-connect (Y/n): [answer.toLowerCase() !== 'n']. *)
Definition promptAutoConnect : M bool := fun w =>
  let answer := prompt_reply env (log w) in
  (Returned (negb (bool_decide (answer = "n") || bool_decide (answer = "N"))),
   record (EvPrompt answer) w).

Definition gatewayCmd (userInfo : UserInfo) : string :=
  "cd " +:+ home userInfo +:+ "/docker && sudo -u " +:+ username userInfo +:+
  " docker compose exec -T openclaw-gateway node dist/index.js devices ".

Definition listCmd (userInfo : UserInfo) : string :=
  gatewayCmd userInfo +:+ "list 2>/dev/null".

Definition approveCmd (userInfo : UserInfo) (requestId : string) : string :=
  gatewayCmd userInfo +:+ "approve " +:+ requestId.

(** Get pending pairing requests from gateway. *)
Definition getPendingRequests (userInfo : UserInfo) : M (list PairingRequest) :=
  try_catch
    (let! result := ssh_exec env (listCmd userInfo) in
     if negb (bool_decide (exitCode result = 0)) then ret []
     else ret (parsePending (stdout result)))
    (fun _ => ret []).

Definition pollInterval : Z := 2000.

(** [for (const req of requests) if (!existingIds.has(req.requestId)) return req] *)
Definition firstNew (existingIds : gset string) (requests : list PairingRequest)
  : option PairingRequest :=
  List.find (fun req => negb (bool_decide (requestId req ∈ existingIds))) requests.

(** The [while] loop of [waitForNewPairingRequest], for at most [fuel]
    rounds; the outer [None] says that the rounds ran out. *)
Fixpoint waitLoop (fuel : nat) (userInfo : UserInfo) (existingIds : gset string)
  (startTime timeoutMs : Z) : M (option (option PairingRequest)) :=
  match fuel with
  | O => ret None
  | S fuel' =>
      let! now := Date_now env in
      if negb (Z.ltb (now - startTime) timeoutMs) then ret (Some None) else
      let! requests := getPendingRequests userInfo in
      match firstNew existingIds requests with
      | Some req => ret (Some (Some req))
      | None =>
          sleep pollInterval ;;;
          waitLoop fuel' userInfo existingIds startTime timeoutMs
      end
  end.

(** Rounds that the loop cannot exceed: each one sleeps [pollInterval]. *)
Definition rounds (timeoutMs : Z) : nat := Z.to_nat (timeoutMs / pollInterval) + 2.

(** Wait for a new pairing request to appear. *)
Definition waitForNewPairingRequest (userInfo : UserInfo) (existingIds : gset string)
  (timeoutMs : Z) : M (option PairingRequest) :=
  let! startTime := Date_now env in
  let! found := waitLoop (rounds timeoutMs) userInfo existingIds startTime timeoutMs in
  ret (default None found).

(** Approve a device pairing request. *)
Definition approveDevice (userInfo : UserInfo) (requestId : string) : M bool :=
  try_catch
    (let! result := ssh_exec env (approveCmd userInfo requestId) in
     ret (bool_decide (exitCode result = 0)))
    (fun _ => ret false).

(** [tunnel.killed || tunnel.exitCode !== null], read after the wait. *)
Definition tunnelExited : M bool := fun w => (Returned (tunnelExited_reply env (log w)), w).

(** Wait for Ctrl+C, then cleanup: the interrupt that the handler
    installed here receives, and the kill of the tunnel that it makes.
    An interrupt that arrives earlier, while the requests are polled and
    no handler is installed yet, ends the process by the signal; such an
    ending is not an outcome of [M]. *)
Definition waitForExit : M unit :=
  emit EvInterrupt ;;; emit EvKillTunnel.

(** Main auto-connect orchestrator. *)
Definition autoConnect (sshConfig : SSHConfig) (userInfo : UserInfo) (p : Z) : M unit :=
  let! shouldConnect := promptAutoConnect in
  if negb shouldConnect then ret tt else
  let! existingRequests := getPendingRequests userInfo in
  let existingIds : gset string := list_to_set (map requestId existingRequests) in
  emit (EvSpawnTunnel sshConfig p) ;;;
  sleep 2000 ;;;
  let! exited := tunnelExited in
  if exited then ret tt else
  emit (EvOpenBrowser ("http://localhost:" +:+ pretty p)) ;;;
  let! newRequest := waitForNewPairingRequest userInfo existingIds 60000 in
  match newRequest with
  | None => emit EvKillTunnel
  | Some newRequest =>
      let! approved := approveDevice userInfo (requestId newRequest) in
      waitForExit
  end.

End Defs.
End AutoConnect.

(** ** lib/config.ts *)

Definition isDigit (c : ascii) : bool :=
  match digitValue c with Some _ => true | None => false end.

(** One group [(\d{1,3})] of the address pattern. *)
Definition isOctetText (s : string) : bool :=
  Nat.leb 1 (String.length s) && Nat.leb (String.length s) 3
  && forallb isDigit (list_ascii_of_string s).

Definition octetInRange (s : string) : bool :=
  match parseInt s with
  | Some octet => negb (Z.ltb octet 0 || Z.ltb 255 octet)
  | None => true
  end.

(** Validate IP address format. *)
Definition validateIP (ip : string) : bool :=
  match split "." ip with
  | [a; b; c; d] =>
      forallb isOctetText [a; b; c; d] && forallb octetInRange [a; b; c; d]
  | _ => false
  end.

(** ** commands/deploy.ts *)

Module Deploy.
Section Defs.

Variable env : Env.
Variable JSON_stringify : DeploymentState -> string.
Variable JSON_parse : string -> option DeploymentState.

Abbreviation updateState := (State.updateState env JSON_stringify JSON_parse).
Abbreviation createState := (State.createState env JSON_stringify).
Abbreviation detectPartialDeployment := (State.detectPartialDeployment env JSON_parse).
Abbreviation deleteState := (State.deleteState env).

(** [!existingState || !state.isPhaseComplete(existingState, n)] *)
Definition mustRun (existingState : option DeploymentState) (n : Z) : bool :=
  match existingState with
  | None => true
  | Some st => negb (State.isPhaseComplete st n)
  end.

Definition isSome {A} (o : option A) : bool :=
  match o with Some _ => true | None => false end.

(** Clean Deployment (if requested). *)
Definition cleanDeployment : M unit :=
  ssh_exec env "docker ps -aq | xargs -r docker stop 2>/dev/null || true" ;;;
  ssh_exec env "docker ps -aq | xargs -r docker rm 2>/dev/null || true" ;;;
  ssh_exec env ("docker images -q " +:+ dq +:+ "roboclaw/openclaw:local" +:+ dq +:+ " " +:+
                dq +:+ "openclaw:local" +:+ dq +:+
                " | xargs -r docker rmi 2>/dev/null || true") ;;;
  ssh_exec env "userdel -r roboclaw 2>/dev/null || true" ;;;
  ssh_exec env "rm -rf /root/docker /root/openclaw-build 2>/dev/null || true" ;;;
  ssh_exec env CLEAN_STATE_CMD ;;;
  ret tt.

(** Check for partial deployment: the state the run resumes from, if any. *)
Definition resolveExistingState (config : DeploymentConfig) : M (option DeploymentState) :=
  let! existingState := detectPartialDeployment in
  if isSome existingState && force config then (deleteState ;;; ret None)
  else ret existingState.

(** Phase 2: Install Base Packages *)
Definition phase2 (existingState : option DeploymentState) : M unit :=
  if mustRun existingState 2 then
    call InstallBasePackages (extern env InstallBasePackages) ;;;
    if isSome existingState then updateState 2 complete else ret tt
  else ret tt.

(** Phase 3: Install Docker *)
Definition phase3 (existingState : option DeploymentState) : M unit :=
  if mustRun existingState 3 then
    call InstallDocker (extern env InstallDocker) ;;;
    if isSome existingState then updateState 3 complete else ret tt
  else ret tt.

Definition userOfMetadata (m : DeploymentMetadata) : UserInfo :=
  mkUserInfo (deployUser m) (deployUid m) (deployGid m) (deployHome m) true.

(** Phase 4: Setup Deployment User *)
Definition phase4 (config : DeploymentConfig) (existingState : option DeploymentState)
  : M UserInfo :=
  if mustRun existingState 4 then
    let! deployUser := call CreateDeploymentUser (await (createDeploymentUser_reply env)) in
    (if negb (isSome existingState) then
       createState (cfg_instanceName config)
         (mkMetadata (username deployUser) (uid deployUser) (gid deployUser) (home deployUser)
                     "roboclaw/openclaw:local" (cfg_branch config))
     else ret tt) ;;;
    updateState 4 complete ;;;
    ret deployUser
  else
    match existingState with
    | Some st => ret (userOfMetadata (metadata st))
    | None => throw "unreachable"
    end.

(** Phase 5: Create Directories *)
Definition phase5 (existingState : option DeploymentState) (deployUser : UserInfo) : M unit :=
  if mustRun existingState 5 then
    call (CreateDirectories deployUser) (extern env (CreateDirectories deployUser)) ;;;
    updateState 5 complete
  else ret tt.

(** Phase 6: Build OpenClaw Image *)
Definition phase6 (config : DeploymentConfig) (existingState : option DeploymentState)
  (deployUser : UserInfo) : M string :=
  if mustRun existingState 6 then
    let! imageName := call (BuildImage deployUser (cfg_branch config))
                           (ImageBuilder.buildImage env deployUser (cfg_branch config)) in
    updateState 6 complete ;;;
    ret imageName
  else
    match existingState with
    | Some st => ret (image (metadata st))
    | None => throw "unreachable"
    end.

(** Phase 7: Upload Docker Compose *)
Definition phase7 (existingState : option DeploymentState) (deployUser : UserInfo)
  (imageName : string) : M unit :=
  if mustRun existingState 7 then
    call (UploadComposeFiles deployUser imageName)
         (extern env (UploadComposeFiles deployUser imageName)) ;;;
    updateState 7 complete
  else ret tt.

Definition extractGatewayToken (deployUser : UserInfo) : M (option string) :=
  call (ExtractGatewayToken deployUser)
       (await (fun events => extractGatewayToken_reply env events deployUser)).

Definition stopGatewayCmd (deployUser : UserInfo) : string :=
  "cd " +:+ home deployUser +:+ "/docker && sudo -u " +:+ username deployUser +:+
  " docker compose stop openclaw-gateway 2>/dev/null || true".

(** [if (gatewayToken)]: neither [null] nor the empty string. *)
Definition truthy (token : option string) : option string :=
  match token with
  | Some t => if nonEmpty t then Some t else None
  | None => None
  end.

(** Phase 8: Onboarding & Gateway Startup *)
Definition phase8 (config : DeploymentConfig) (existingState : option DeploymentState)
  (deployUser : UserInfo) : M (option string) :=
  if mustRun existingState 8 then
    call (RunOnboarding deployUser (skipOnboard config))
         (Interactive.runOnboarding env deployUser (skipOnboard config)) ;;;
    let! gatewayToken := extractGatewayToken deployUser in
    match truthy gatewayToken with
    | Some token =>
        ssh_exec env (stopGatewayCmd deployUser) ;;;
        call (UpdateEnvToken deployUser token) (extern env (UpdateEnvToken deployUser token)) ;;;
        call (StartGateway deployUser) (extern env (StartGateway deployUser))
    | None => ret tt
    end ;;;
    updateState 8 complete ;;;
    ret gatewayToken
  else extractGatewayToken deployUser.

(** Phase 9: Create Instance Artifact *)
Definition phase9 (config : DeploymentConfig) (deployUser : UserInfo) (imageName : string)
  : M unit :=
  call (CreateInstanceArtifact config deployUser imageName)
       (extern env (CreateInstanceArtifact config deployUser imageName)).

(** Phase 10: Cleanup & Success, then the optional auto-connect *)
Definition phase10 (config : DeploymentConfig) (deployUser : UserInfo) : M unit :=
  deleteState ;;;
  if negb (noAutoConnect config) then
    call (AutoConnect (ssh config) deployUser 18789)
         (AutoConnect.autoConnect env (ssh config) deployUser 18789)
  else ret tt.

(** Phases 2 to 10, from the state the run resumes from. *)
Definition runPhases (config : DeploymentConfig) (existingState : option DeploymentState)
  : M unit :=
  phase2 existingState ;;;
  phase3 existingState ;;;
  let! deployUser := phase4 config existingState in
  phase5 existingState deployUser ;;;
  let! imageName := phase6 config existingState deployUser in
  phase7 existingState deployUser imageName ;;;
  let! gatewayToken := phase8 config existingState deployUser in
  phase9 config deployUser imageName ;;;
  phase10 config deployUser.

(** Phase 0: Validation & Configuration *)
Definition phase0 (flags : Flags) : M DeploymentConfig :=
  if negb (validateIP (flag_ip flags)) then process_exit 1 else
  let! config := call (LoadConfig flags)
                      (await (fun events => loadConfig_reply env events flags)) in
  try_catch (call (ValidateSSHKey (privateKeyPath (ssh config)))
                  (extern env (ValidateSSHKey (privateKeyPath (ssh config)))))
            (fun _ => process_exit 1) ;;;
  call (ReadFile (privateKeyPath (ssh config)))
       (extern env (ReadFile (privateKeyPath (ssh config)))) ;;;
  ret config.

(** Phase 1: SSH Connection *)
Definition phase1 : M unit :=
  call Connect (ssh_connect env 3) ;;;
  let! isRoot := verifyRootAccess env in
  if negb isRoot then process_exit 2 else ret tt.

(** The [try] block of [deployCommand]. *)
Definition deployBody (flags : Flags) : M unit :=
  let! config := phase0 flags in
  phase1 ;;;
  (if clean config then cleanDeployment else ret tt) ;;;
  let! existingState := resolveExistingState config in
  runPhases config existingState.

(** Main deployment command. *)
Definition deployCommand (flags : Flags) : M unit :=
  try_finally
    (try_catch (deployBody flags) (fun _ => process_exit 1))
    (let! isConnected := ssh_isConnected in
     if isConnected then ssh_disconnect else ret tt).

End Defs.
End Deploy.

(** ** Vocabulary of the statements *)

(** [post m w Q]: running [m] from [w] ends in an outcome and a world
    that satisfy [Q]. Every computation is total, so this is a statement
    about what the run does, not only about runs that return. *)
Definition post {A} (m : M A) (w : World) (Q : Outcome A -> World -> Prop) : Prop :=
  Q (fst (m w)) (snd (m w)).

(** What is left to show of a continuation once its first part has ended. *)
Definition andThen {A B} (k : A -> M B) (Q : Outcome B -> World -> Prop)
  : Outcome A -> World -> Prop :=
  fun out w =>
    match out with
    | Returned a => post (k a) w Q
    | Thrown e => Q (Thrown e) w
    | Exited c => Q (Exited c) w
    end.

(** Commands that neither read nor remove the state file. *)
Definition plain (command : string) : Prop :=
  reads_state_file command = false /\ removes_state_file command = false.

(** What a reply to the marker test says about the completion marker. *)
Definition markerPresent (reply : Reply ExecResult) : bool :=
  match reply with
  | Resolved r => bool_decide (exitCode r = 0)
  | Rejected _ => false
  end.


(** The pairing requests that a remote call of the log reported: those
    of the devices table when the call is a listing that resolved with
    exit code 0, none otherwise (as [getPendingRequests] reads it). *)
Definition observed (userInfo : UserInfo) (ev : Event) : list PairingRequest :=
  match ev with
  | EvExec cmd (Resolved r) =>
      if bool_decide (cmd = AutoConnect.listCmd userInfo) && bool_decide (exitCode r = 0)
      then parsePending (stdout r)
      else []
  | _ => []
  end.

Definition observedAll (userInfo : UserInfo) (evs : list Event) : list PairingRequest :=
  flat_map (observed userInfo) evs.

(** The events up to the launch of the browser, and those after it: the
    polling window. *)
Fixpoint beforeBrowser (evs : list Event) : list Event :=
  match evs with
  | [] => []
  | EvOpenBrowser _ :: _ => []
  | ev :: rest => ev :: beforeBrowser rest
  end.

Fixpoint afterBrowser (evs : list Event) : list Event :=
  match evs with
  | [] => []
  | EvOpenBrowser _ :: rest => rest
  | _ :: rest => afterBrowser rest
  end.

(** The ids of the snapshot taken before the tunnel is opened. *)
Definition baselineIds (userInfo : UserInfo) (evs : list Event) : gset string :=
  list_to_set (map requestId (observedAll userInfo (beforeBrowser evs))).

(** The approval calls of a log. *)
Definition isApproval (userInfo : UserInfo) (ev : Event) : bool :=
  match ev with
  | EvExec cmd _ => String.prefix (AutoConnect.gatewayCmd userInfo +:+ "approve ") cmd
  | _ => false
  end.

Definition approvals (userInfo : UserInfo) (evs : list Event) : list Event :=
  List.filter (isApproval userInfo) evs.

(** The events of the polling loop: listings and sleeps. *)
Definition pollingEvent (userInfo : UserInfo) (ev : Event) : Prop :=
  (exists r, ev = EvExec (AutoConnect.listCmd userInfo) r) \/ (exists ms, ev = EvSleep ms).

(** The command that reads the state file. *)
Definition CAT_STATE : string := "cat " +:+ STATE_FILE.

(** The state file cannot be used: the read is rejected, the file is
    absent (the read exits with 1), or its text is not valid JSON. *)
Definition unreadable (env : Env) (JSON_parse : string -> option DeploymentState) (w : World)
  : Prop :=
  (exists e, exec_reply env (log w) CAT_STATE = Rejected e) \/
  stateFile w = None \/
  (exists text, stateFile w = Some text /\ JSON_parse text = None).

(** What [loadState] returns, in terms of the world it runs in. *)
Definition loaded (env : Env) (JSON_parse : string -> option DeploymentState) (w : World)
  : option DeploymentState :=
  if connected w then
    match exec_reply env (log w) CAT_STATE with
    | Resolved _ => stateFile w ≫= JSON_parse
    | Rejected _ => None
    end
  else None.

(** The events of [loadState], [updateState], [createState] and
    [deleteState]: reads, writes and removals of the state file. *)
Definition stateEvent (ev : Event) : Prop :=
  match ev with
  | EvExec cmd _ => cmd = CAT_STATE \/ cmd = "rm -f " +:+ STATE_FILE
  | EvUpload _ path _ => path = STATE_FILE
  | _ => False
  end.

(** The phase an awaited action belongs to, by the banners of
    [deployCommand]. Reading the configuration and the key comes before
    the phases; the token extraction runs whether phase 8 is due or not;
    the auto-connect follows phase 10. *)
Definition phaseOf (a : Action) : option Z :=
  match a with
  | Connect => Some 1
  | InstallBasePackages => Some 2
  | InstallDocker => Some 3
  | CreateDeploymentUser => Some 4
  | CreateDirectories _ => Some 5
  | BuildImage _ _ => Some 6
  | UploadComposeFiles _ _ => Some 7
  | RunOnboarding _ _ | UpdateEnvToken _ _ | StartGateway _ => Some 8
  | CreateInstanceArtifact _ _ _ => Some 9
  | LoadConfig _ | ValidateSSHKey _ | ReadFile _ | ExtractGatewayToken _
  | AutoConnect _ _ _ => None
  end.

(** The principal identity an action is given, if it takes one. *)
Definition actionUser (a : Action) : option UserInfo :=
  match a with
  | CreateDirectories u | BuildImage u _ | UploadComposeFiles u _ | RunOnboarding u _
  | ExtractGatewayToken u | UpdateEnvToken u _ | StartGateway u
  | CreateInstanceArtifact _ u _ | AutoConnect _ u _ => Some u
  | _ => None
  end.

(** The state file holds a state in which phase [n] is complete. *)
Definition recorded (JSON_parse : string -> option DeploymentState) (n : Z)
  (file : option string) : Prop :=
  exists text st, file = Some text /\ JSON_parse text = Some st /\
                  phases st !! n = Some complete.

(** The state file holds a state. *)
Definition loadableFile (JSON_parse : string -> option DeploymentState)
  (file : option string) : Prop :=
  exists text st, file = Some text /\ JSON_parse text = Some st.

(** The phases whose completion a run writes to the state file: 4 to 8,
    and 2 and 3 when the run resumes from an existing state. *)
Definition recordable (existingState : option DeploymentState) (n : Z) : Prop :=
  4 <= n <= 8 \/ (Deploy.isSome existingState = true /\ 2 <= n <= 3).

(** The phases guarded by the status of the existing state. *)
Definition guardedPhase (n : Z) : Prop := 2 <= n <= 8.

(** The identity that a run resuming past phase 4 must use. *)
Definition expectedUser (existingState : option DeploymentState) : option UserInfo :=
  match existingState with
  | Some st =>
      if State.isPhaseComplete st 4 then Some (Deploy.userOfMetadata (metadata st)) else None
  | None => None
  end.

(** Events that are neither the entry nor the exit of an action. *)
Definition ioEvent (ev : Event) : Prop :=
  match ev with
  | EvCall _ _ | EvDone _ _ => False
  | _ => True
  end.

(** The events of one phase block that started with [file] in the state
    file: its calls belong to phase [m] or to no phase; a call of phase
    [m] was made with the state file still as at the start, and only
    because the phase was due; every identity passed is the expected one. *)
Definition segmentEvent (existingState : option DeploymentState) (m : Z)
  (file : option string) (ev : Event) : Prop :=
  match ev with
  | EvCall a snap =>
      (forall u eu, actionUser a = Some u -> expectedUser existingState = Some eu -> u = eu) /\
      (phaseOf a = None \/
       (phaseOf a = Some m /\ snap = file /\
        (guardedPhase m -> Deploy.mustRun existingState m = true)))
  | EvDone a _ => phaseOf a = None \/ phaseOf a = Some m
  | _ => True
  end.

(** What the rest of the block of phase [m] has left in the state file
    when it returned: the phases recorded before stay recorded, phase [m]
    is recorded if its completion is to be written, and the file holds a
    state from phase 4 on (or from the start when resuming). Nothing is
    asked of phase 10, which removes the file. *)
Definition fileStep (JSON_parse : string -> option DeploymentState)
  (existingState : option DeploymentState) (m : Z) (file file' : option string) : Prop :=
  m <= 9 ->
  (forall n, n < m -> recordable existingState n ->
             recorded JSON_parse n file -> recorded JSON_parse n file') /\
  (recordable existingState m -> recorded JSON_parse m file') /\
  (Deploy.isSome existingState = true \/ 4 <= m -> loadableFile JSON_parse file').

(** The contract of a part of the block of phase [m] that runs to the end
    of the block, from a world [w] of that block in which the state file
    is still [file], as it was when the block started; [evs] are the
    events it adds. *)
Definition segmentOK (JSON_parse : string -> option DeploymentState)
  (existingState : option DeploymentState) (m : Z) (file : option string) (w : World)
  {A} (out : Outcome A) (w' : World) (evs : list Event) : Prop :=
  connected w' = connected w /\
  (forall c, out <> Exited c) /\
  log w' = (log w ++ evs)%list /\
  Forall (segmentEvent existingState m file) evs /\
  (forall b, In (EvDone b false) evs -> (exists e, out = Thrown e) /\ stateFile w' = file) /\
  ((exists x, out = Returned x) ->
     (forall b, ~ In (EvDone b false) evs) /\
     fileStep JSON_parse existingState m file (stateFile w')).

Definition tailOK (JSON_parse : string -> option DeploymentState)
  (existingState : option DeploymentState) (m : Z) (file : option string) (w : World)
  {A} (out : Outcome A) (w' : World) : Prop :=
  exists evs, segmentOK JSON_parse existingState m file w out w' evs.

(** The contract of the whole block of phase [m], which may have skipped
    the phase: phase [m] is recorded when its action completed in the
    block, and the action of the phase was called, unless it is a guarded
    phase that is not due. *)
Definition blockStep (JSON_parse : string -> option DeploymentState)
  (existingState : option DeploymentState) (m : Z) (evs : list Event)
  (file file' : option string) : Prop :=
  (forall n, n < m -> recordable existingState n ->
             recorded JSON_parse n file -> recorded JSON_parse n file') /\
  (forall b, In (EvDone b true) evs -> phaseOf b = Some m -> recordable existingState m ->
             recorded JSON_parse m file') /\
  (Deploy.isSome existingState = true \/ 4 <= m -> loadableFile JSON_parse file') /\
  ((guardedPhase m -> Deploy.mustRun existingState m = true) ->
   exists a snap, In (EvCall a snap) evs /\ phaseOf a = Some m).

(** What the block of phase [m] needs: a connected client and, from phase
    5 on or when resuming, a state file that holds a state. *)
Definition ready (JSON_parse : string -> option DeploymentState)
  (existingState : option DeploymentState) (m : Z) (w : World) : Prop :=
  connected w = true /\
  (Deploy.isSome existingState = true \/ 5 <= m -> loadableFile JSON_parse (stateFile w)).

Definition blockOK (JSON_parse : string -> option DeploymentState)
  (existingState : option DeploymentState) (m : Z) (w : World)
  {A} (out : Outcome A) (w' : World) : Prop :=
  exists evs,
    connected w' = connected w /\
    (forall c, out <> Exited c) /\
    log w' = (log w ++ evs)%list /\
    Forall (segmentEvent existingState m (stateFile w)) evs /\
    (forall b, In (EvDone b false) evs ->
       (exists e, out = Thrown e) /\ stateFile w' = stateFile w) /\
    ((exists x, out = Returned x) ->
       (forall b, ~ In (EvDone b false) evs) /\
       blockStep JSON_parse existingState m evs (stateFile w) (stateFile w')).

(** A computation that leaves the connection and the state file alone,
    does not exit, and logs no action. *)
Definition inertPost {A} (w : World) (out : Outcome A) (w' : World) : Prop :=
  connected w' = connected w /\ stateFile w' = stateFile w /\
  (forall c, out <> Exited c) /\
  exists evs, log w' = (log w ++ evs)%list /\ Forall ioEvent evs.

Definition inert {A} (m : M A) : Prop := forall w, post m w (inertPost w).

(** Phase [n] is to run: it is not guarded, or its guard lets it run. *)
Definition due (existingState : option DeploymentState) (n : Z) : Prop :=
  guardedPhase n -> Deploy.mustRun existingState n = true.

(** An action of phase [n] was entered. *)
Definition called (n : Z) (evs : list Event) : Prop :=
  exists a snap, In (EvCall a snap) evs /\ phaseOf a = Some n.

(** The events [evs] of the blocks of the phases below [m]. Every action
    was given the expected identity. An action of phase [n] was entered
    only because the phase was due, with every recordable phase that had
    completed before it recorded in the state file as the action found
    it, and after an action of every due phase before it. *)
Definition traceOK (JSON_parse : string -> option DeploymentState)
  (existingState : option DeploymentState) (m : Z) (evs : list Event) : Prop :=
  (forall a snap, In (EvCall a snap) evs ->
     (forall u eu, actionUser a = Some u -> expectedUser existingState = Some eu -> u = eu) /\
     forall n, phaseOf a = Some n ->
       2 <= n < m /\ due existingState n /\
       (forall b k, In (EvDone b true) evs -> phaseOf b = Some k -> k < n ->
                    recordable existingState k -> recorded JSON_parse k snap) /\
       (forall k, 2 <= k < n -> due existingState k -> called k evs)) /\
  (forall b ok n, In (EvDone b ok) evs -> phaseOf b = Some n -> n < m).

(** The run has come to the block of phase [m] with the events [evs]
    since [w0]: no action failed, the completed recordable phases are
    recorded in the state file, and every due phase below [m] was run. *)
Definition progress (JSON_parse : string -> option DeploymentState)
  (existingState : option DeploymentState) (m : Z) (w0 w : World) (evs : list Event) : Prop :=
  log w = (log w0 ++ evs)%list /\
  ready JSON_parse existingState m w /\
  traceOK JSON_parse existingState m evs /\
  (forall b, ~ In (EvDone b false) evs) /\
  (forall b n, In (EvDone b true) evs -> phaseOf b = Some n -> recordable existingState n ->
               recorded JSON_parse n (stateFile w)) /\
  (forall k, 2 <= k < m -> due existingState k -> called k evs).

(** The contract of [runPhases] from [w0]. The run does not exit the
    process. When an action of phase [n] failed, the run threw, no action
    of a later phase was entered, and the state file is left as the
    actions of phase [n] found it. When the run returned, an action of
    every due phase was entered. *)
Definition runOK (JSON_parse : string -> option DeploymentState)
  (existingState : option DeploymentState) (w0 : World)
  {A} (out : Outcome A) (w' : World) : Prop :=
  exists evs,
    log w' = (log w0 ++ evs)%list /\
    (forall c, out <> Exited c) /\
    traceOK JSON_parse existingState 10 evs /\
    (forall b, In (EvDone b false) evs ->
       (exists e, out = Thrown e) /\
       forall n, phaseOf b = Some n ->
         forall a snap k, In (EvCall a snap) evs -> phaseOf a = Some k ->
                          k <= n /\ (k = n -> stateFile w' = snap)) /\
    ((exists x, out = Returned x) ->
       forall k, 2 <= k <= 9 -> due existingState k -> called k evs).

(** Every phase selected by [P] that completed before an action of a
    later phase was entered is recorded as complete in the state file as
    that action found it. *)
Definition persistedBefore (JSON_parse : string -> option DeploymentState)
  (P : Z -> Prop) (evs : list Event) : Prop :=
  forall b n a snap m,
    In (EvDone b true) evs -> phaseOf b = Some n ->
    In (EvCall a snap) evs -> phaseOf a = Some m ->
    n < m -> P n -> recorded JSON_parse n snap.

(** Every action entered in [evs] satisfies [P]. *)
Definition callsOnly (P : Action -> Prop) (evs : list Event) : Prop :=
  forall a snap, In (EvCall a snap) evs -> P a.

(** [m] enters only actions that satisfy [P], and returns only values
    that satisfy [R]. *)
Definition traces {A} (P : Action -> Prop) (R : A -> Prop) (m : M A) : Prop :=
  forall w, post m w (fun out w' =>
    (forall x, out = Returned x -> R x) /\
    exists evs, log w' = (log w ++ evs)%list /\ callsOnly P evs).

(** The action does not create the principal, and the identity it is
    given, if any, is [U]. *)
Definition usesIdentity (U : UserInfo) (a : Action) : Prop :=
  a <> CreateDeploymentUser /\ forall u, actionUser a = Some u -> u = U.

(** * The JSON text of the state file

    An instance of the codec of lib/state.ts: the object that
    [JSON.stringify] writes for a [DeploymentState], in the compact
    layout, and the reader of that layout. *)
Module Json.

Definition quote : ascii := "034".
Definition backslash : ascii := "092".

(** String literals: a quote and a backslash are escaped. *)
Fixpoint escape (s : string) : string :=
  match s with
  | EmptyString => EmptyString
  | String c rest =>
      if Ascii.eqb c quote || Ascii.eqb c backslash
      then String backslash (String c (escape rest))
      else String c (escape rest)
  end.

Definition writeString (s : string) : string :=
  String quote (escape s +:+ String quote EmptyString).

Definition consFst (c : ascii) (p : string * string) : string * string :=
  (String c (fst p), snd p).

(** The characters of a literal up to its closing quote, and what
    follows it. *)
Fixpoint readChars (s : string) : option (string * string) :=
  match s with
  | EmptyString => None
  | String c rest =>
      if Ascii.eqb c quote then Some (EmptyString, rest)
      else if Ascii.eqb c backslash then
        match rest with
        | String d rest' => option_map (consFst d) (readChars rest')
        | EmptyString => None
        end
      else option_map (consFst c) (readChars rest)
  end.

Definition readString (s : string) : option (string * string) :=
  match s with
  | String c rest => if Ascii.eqb c quote then readChars rest else None
  | EmptyString => None
  end.

(** A fixed piece of the layout. *)
Fixpoint expect (lit s : string) : option string :=
  match lit with
  | EmptyString => Some s
  | String c lit' =>
      match s with
      | String d s' => if Ascii.eqb c d then expect lit' s' else None
      | EmptyString => None
      end
  end.

(** Numbers, in decimal. *)
Definition writeZ (z : Z) : string := NilZero.string_of_int (Z.to_int z).

Definition textToZ (t : string) : option Z :=
  option_map Z.of_int (NilZero.int_of_string t).

Definition isNumChar (c : ascii) : bool := Ascii.eqb c "-" || isDigit c.

Fixpoint spanNum (s : string) : string * string :=
  match s with
  | String c rest => if isNumChar c then consFst c (spanNum rest) else (EmptyString, s)
  | EmptyString => (EmptyString, EmptyString)
  end.

Definition readZ (s : string) : option (Z * string) :=
  z ← textToZ (fst (spanNum s)); Some (z, snd (spanNum s)).

(** The status of a phase is one of three string literals. *)
Definition statusText (s : PhaseStatus) : string :=
  match s with
  | pending => "pending"
  | complete => "complete"
  | failed => "failed"
  end.

Definition textToStatus (t : string) : option PhaseStatus :=
  if bool_decide (t = "pending") then Some pending
  else if bool_decide (t = "complete") then Some complete
  else if bool_decide (t = "failed") then Some failed
  else None.

Definition writeEntry (e : Z * PhaseStatus) : string :=
  writeString (writeZ (fst e)) +:+ ":" +:+ writeString (statusText (snd e)).

Definition readEntry (s : string) : option ((Z * PhaseStatus) * string) :=
  '(keyText, s1) ← readString s;
  k ← textToZ keyText;
  s2 ← expect ":" s1;
  '(valueText, s3) ← readString s2;
  v ← textToStatus valueText;
  Some ((k, v), s3).

(** The members of the [phases] object, up to its closing brace. *)
Fixpoint writeEntries (l : list (Z * PhaseStatus)) : string :=
  match l with
  | [] => "}"
  | [e] => writeEntry e +:+ "}"
  | e :: rest => writeEntry e +:+ "," +:+ writeEntries rest
  end.

Fixpoint readEntries (fuel : nat) (s : string)
  : option (list (Z * PhaseStatus) * string) :=
  match fuel with
  | O => None
  | S fuel' =>
      '(e, s1) ← readEntry s;
      match s1 with
      | String c s2 =>
          if Ascii.eqb c "}" then Some ([e], s2)
          else if Ascii.eqb c "," then
            '(rest, s3) ← readEntries fuel' s2; Some (e :: rest, s3)
          else None
      | EmptyString => None
      end
  end.

(** The members are written by ascending phase number. *)
Definition keyLe (a b : Z * PhaseStatus) : Prop := fst a <= fst b.

#[global] Instance keyLe_dec a b : Decision (keyLe a b) := Z_le_dec (fst a) (fst b).

Definition writePhases (m : gmap Z PhaseStatus) : string :=
  "{" +:+ writeEntries (merge_sort keyLe (map_to_list m)).

Definition readPhases (s : string) : option (gmap Z PhaseStatus * string) :=
  s1 ← expect "{" s;
  match s1 with
  | String c s2 =>
      if Ascii.eqb c "}" then Some (∅, s2)
      else '(l, s3) ← readEntries (String.length s1) s1; Some (list_to_map l, s3)
  | EmptyString => None
  end.

(** [{"name":] and [,"name":] *)
Definition first (name : string) : string := "{" +:+ dq +:+ name +:+ dq +:+ ":".
Definition next (name : string) : string := "," +:+ dq +:+ name +:+ dq +:+ ":".

Definition writeMetadata (m : DeploymentMetadata) : string :=
  first "deployUser" +:+ writeString (deployUser m) +:+
  next "deployUid" +:+ writeZ (deployUid m) +:+
  next "deployGid" +:+ writeZ (deployGid m) +:+
  next "deployHome" +:+ writeString (deployHome m) +:+
  next "image" +:+ writeString (image m) +:+
  next "branch" +:+ writeString (branch m) +:+ "}".

Definition stringify (st : DeploymentState) : string :=
  first "instanceName" +:+ writeString (instanceName st) +:+
  next "deploymentId" +:+ writeString (deploymentId st) +:+
  next "startedAt" +:+ writeString (startedAt st) +:+
  next "lastPhase" +:+ writeZ (lastPhase st) +:+
  next "phases" +:+ writePhases (phases st) +:+
  next "metadata" +:+ writeMetadata (metadata st) +:+ "}".

Definition readMetadata (s : string) : option (DeploymentMetadata * string) :=
  s ← expect (first "deployUser") s; '(user, s) ← readString s;
  s ← expect (next "deployUid") s; '(userId, s) ← readZ s;
  s ← expect (next "deployGid") s; '(groupId, s) ← readZ s;
  s ← expect (next "deployHome") s; '(homeDir, s) ← readString s;
  s ← expect (next "image") s; '(imageName, s) ← readString s;
  s ← expect (next "branch") s; '(branchName, s) ← readString s;
  s ← expect "}" s;
  Some (mkMetadata user userId groupId homeDir imageName branchName, s).

Definition parse (text : string) : option DeploymentState :=
  s ← expect (first "instanceName") text; '(name, s) ← readString s;
  s ← expect (next "deploymentId") s; '(id, s) ← readString s;
  s ← expect (next "startedAt") s; '(started, s) ← readString s;
  s ← expect (next "lastPhase") s; '(last, s) ← readZ s;
  s ← expect (next "phases") s; '(statuses, s) ← readPhases s;
  s ← expect (next "metadata") s; '(meta, s) ← readMetadata s;
  s ← expect "}" s;
  if bool_decide (s = EmptyString) then Some (mkState name id started last statuses meta)
  else None.

End Json.

(** * Scenarios: hosts, and the runs against them *)
Module Scenario.

Definition principal : UserInfo := mkUserInfo "roboclaw" 1000 1000 "/home/roboclaw" true.

Definition sshOf (f : Flags) : SSHConfig := mkSSHConfig (flag_ip f) 22 "root" (flag_key f).

(** The configuration that [loadConfig] makes of the flags: no
    auto-connect, nothing forced or cleaned. *)
Definition configOf (f : Flags) : DeploymentConfig :=
  mkConfig (flag_ip f) "instance-192-168-1-100" (sshOf f) "main"
           false true false false false false "/instances".

Definition flags : Flags := mkFlags "192.168.1.100" "/keys/id_ed25519" None.
Definition badFlags : Flags := mkFlags "192.168.1.256" "/keys/id_ed25519" None.
Definition config : DeploymentConfig := configOf flags.

Definition success (text : string) : ExecResult := mkExecResult 0 text "".
Definition failure (code : Z) : ExecResult := mkExecResult code "" "".

(** A host is described by: whether it accepts the connection, the uid
    of the SSH user, the actions that fail on it, what the tagged image
    answers to [id -u] before any build, the exit code of a build,
    whether the completion marker is there before and after an
    interactive session, whether that session closes cleanly, the answer
    to the auto-connect prompt, and the devices table once the browser
    is open. *)
Record Host := mkHost {
  accepts : bool;
  whoami : string;
  failing : Action -> bool;
  imageAnswer : string;
  buildExit : Z;
  markerAtStart : bool;
  markerAfterSession : bool;
  sessionCloses : bool;
  promptAnswer : string;
  devicesTable : string
}.

Definition isBuild (ev : Event) : bool :=
  match ev with
  | EvExecStream cmd _ => String.prefix "cd /home/roboclaw/openclaw-src" cmd
  | _ => false
  end.

Definition isSession (ev : Event) : bool :=
  match ev with EvExecInteractive _ _ => true | _ => false end.

Definition isBrowser (ev : Event) : bool :=
  match ev with EvOpenBrowser _ => true | _ => false end.

Definition exitOf (b : bool) : ExecResult := if b then success "" else failure 1.

(** The replies of the host to remote commands. *)
Definition hostExec (h : Host) (events : list Event) (command : string) : Reply ExecResult :=
  if bool_decide (command = "id -u") then Resolved (success (whoami h))
  else if bool_decide (command = ImageBuilder.imagesCmd ImageBuilder.IMAGE_NAME)
  then Resolved (success "3f2a9c41d7e0")
  else if bool_decide (command = ImageBuilder.verifyCmd ImageBuilder.IMAGE_NAME 1000 1000)
  then Resolved (success (if existsb isBuild events then "1000" else imageAnswer h))
  else if bool_decide (command = Interactive.markerCmd (home principal))
  then Resolved (exitOf (if existsb isSession events then markerAfterSession h
                         else markerAtStart h))
  else if bool_decide (command = AutoConnect.listCmd principal)
  then Resolved (success (if existsb isBrowser events then devicesTable h else ""))
  else Resolved (success "").

Definition rejectIf {A} (b : bool) (a : A) : Reply A :=
  if b then Rejected "command failed" else Resolved a.

Definition envOf (h : Host) : Env :=
  mkEnv (hostExec h)
        (fun _ command => Resolved (if isBuild (EvExecStream command (Resolved 0))
                                    then buildExit h else 0))
        (fun _ _ => if sessionCloses h then Resolved tt else Rejected "PTY closed with code 1")
        (fun _ _ _ => Resolved tt)
        (fun _ => if accepts h then Resolved tt else Rejected "ECONNREFUSED")
        (fun _ a => rejectIf (failing h a) tt)
        (fun _ f => Resolved (configOf f))
        (fun _ => rejectIf (failing h CreateDeploymentUser) principal)
        (fun _ _ => Resolved (Some "9d1c7fb2"))
        (fun _ => "0b1f6c1e-5f0a-4a51-9a56-1f3f1f6f2a10")
        (fun _ => "2026-01-01T00:00:00.000Z")
        (fun _ => 0)
        (fun _ => promptAnswer h)
        (fun _ => false).

Definition never (a : Action) : bool := false.

(** The actions of phase [n] fail. *)
Definition inPhase (n : Z) (a : Action) : bool := bool_decide (phaseOf a = Some n).

(** A host on which everything succeeds, the image is usable and the
    onboarding is already done. *)
Definition healthy : Host := mkHost true "0" never "1000" 0 true true true "n" "".

Definition failingIn (n : Z) : Host :=
  mkHost true "0" (inPhase n) "1000" 0 true true true "n" "".

Definition unreachable : Host := mkHost false "0" never "1000" 0 true true true "n" "".
Definition unprivileged : Host := mkHost true "1001" never "1000" 0 true true true "n" "".


(** The image is broken and so is the build. *)
Definition brokenBuild : Host := mkHost true "0" never "" 1 true true true "n" "".

(** The wizard closes with an error after it wrote the marker. *)
Definition abruptWizard : Host := mkHost true "0" never "1000" 0 false true false "n" "".

Definition request1 : string := "11111111-aaaa-4bbb-8ccc-000000000001".
Definition request2 : string := "22222222-aaaa-4bbb-8ccc-000000000002".

Definition row (id device address : string) : string :=
  "│ " +:+ id +:+ " │ " +:+ device +:+ " │ operator │ " +:+ address +:+ " │ 3s │".

(** Two browsers ask to pair between two polls. *)
Definition twoRequests : string :=
  "Pending (2)" +:+ nl +:+
  "│ Request │ Device │ Role │ IP │ Age │" +:+ nl +:+
  row request1 "laptop" "10.0.0.5" +:+ nl +:+
  row request2 "phone" "10.0.0.6" +:+ nl +:+
  "Paired (0)".

Definition pairing : Host := mkHost true "0" never "1000" 0 true true true "y" twoRequests.

(** The process starts disconnected; [online] is the world once phase 1
    is through, on a host without a state file. *)
Definition start : World := mkWorld false None 0 [].
Definition online : World := mkWorld true None 0 [].

(** The world in which the phases start, after the look for a partial
    deployment made in [w], and the run of the phases from there. *)
Definition resuming (h : Host) (w : World) : World :=
  snd (Deploy.resolveExistingState (envOf h) Json.parse config w).

Definition phasesRun (h : Host) (existingState : option DeploymentState) (w : World)
  : Outcome unit * World :=
  Deploy.runPhases (envOf h) Json.stringify Json.parse config existingState (resuming h w).

Definition deploy (h : Host) (f : Flags) (w : World) : Outcome unit * World :=
  Deploy.deployCommand (envOf h) Json.stringify Json.parse f w.

(** A second process on the host that the first one left. *)
Definition again (w : World) : World := mkWorld false (stateFile w) 0 [].

(** The state left by a fresh run that failed in phase 5. *)
Definition interrupted : DeploymentState :=
  mkState "instance-192-168-1-100" "0b1f6c1e-5f0a-4a51-9a56-1f3f1f6f2a10"
          "2026-01-01T00:00:00.000Z" 4 (<[4 := complete]> State.initialPhases)
          (mkMetadata "roboclaw" 1000 1000 "/home/roboclaw" "roboclaw/openclaw:local" "main").

Definition resumed : World := mkWorld true (Some (Json.stringify interrupted)) 0 [].

(** A state file that a crash cut short. *)
Definition corrupt : World := mkWorld true (Some "{ ") 0 [].

(** The state of a run that went through phase 5, and the host it left. *)
Definition advanced : DeploymentState :=
  mkState "instance-192-168-1-100" "0b1f6c1e-5f0a-4a51-9a56-1f3f1f6f2a10"
          "2026-01-01T00:00:00.000Z" 5
          (<[5 := complete]> (<[4 := complete]> State.initialPhases))
          (mkMetadata "roboclaw" 1000 1000 "/home/roboclaw" "roboclaw/openclaw:local" "main").

Definition halfway : World := mkWorld true (Some (Json.stringify advanced)) 0 [].

End Scenario.

(** * The rest of the modules *)

From Stdlib Require QArith.

(** ** lib/state.ts: progress and age *)

Record ProgressSummary := mkProgressSummary {
  totalCount : Z;
  completeCount : Z;
  failedCount : Z;
  pendingCount : Z
}.

(** One turn of the loop of [getProgressSummary] over the statuses. *)
Definition tally (counts : Z * Z * Z) (status : PhaseStatus) : Z * Z * Z :=
  let '(c, f, p) := counts in
  match status with
  | complete => (c + 1, f, p)
  | failed => (c, f + 1, p)
  | pending => (c, f, p + 1)
  end.

(** Get a summary of deployment progress. *)
Definition getProgressSummary (state : DeploymentState) : ProgressSummary :=
  let '(c, f, p) := fold_left tally (map snd (map_to_list (phases state))) (0, 0, 0) in
  mkProgressSummary 10 c f p.

(** The states that the functions of lib/state.ts write: the one of
    [createState], and those that [updateState] makes of them for the
    phases 1 to 10. *)
Inductive written : DeploymentState -> Prop :=
| written_create name id started meta :
    written (mkState name id started 0 State.initialPhases meta)
| written_update st n s :
    written st -> 1 <= n <= 10 -> written (State.setPhase st n s).

(** The states that [deployCommand] writes: it marks phases 2 to 8 as
    complete, and nothing else. *)
Inductive writtenByDeploy : DeploymentState -> Prop :=
| deploy_create name id started meta :
    writtenByDeploy (mkState name id started 0 State.initialPhases meta)
| deploy_update st n :
    writtenByDeploy st -> 2 <= n <= 8 -> writtenByDeploy (State.setPhase st n complete).

Section Age.

(** [new Date(text).getTime()], [None] for an invalid date, and
    [new Date().getTime()]. *)
Variable Date_parse : string -> option Z.
Variable now : Z.

(** [now.getTime() - startedAt.getTime()], [None] for [NaN]. *)
Definition ageMs (state : DeploymentState) : option Z :=
  (fun startedAt => now - startedAt) <$> Date_parse (startedAt state).

(** [ageMs / (1000 * 60 * 60)], a quotient that is not rounded down. *)
Definition hoursOf (age : Z) : QArith_base.Q :=
  QArith_base.Qdiv (QArith_base.inject_Z age) (QArith_base.inject_Z (1000 * 60 * 60)).

(** Check if state is stale (older than 24 hours); [NaN > 24] is false. *)
Definition isStateStale (state : DeploymentState) : bool :=
  match ageMs state with
  | Some age => negb (QArith_base.Qle_bool (hoursOf age) (QArith_base.inject_Z 24))
  | None => false
  end.

Definition plural (n : Z) : string := if bool_decide (n = 1) then "" else "s".

(** Format age of deployment state for display. The quotients are those
    of [Math.floor]; a comparison with [NaN] is false. *)
Definition formatStateAge (state : DeploymentState) : string :=
  match ageMs state with
  | None => "just now"
  | Some age =>
      let ageMinutes := age / (1000 * 60) in
      let ageHours := ageMinutes / 60 in
      let ageDays := ageHours / 24 in
      if bool_decide (0 < ageDays) then pretty ageDays +:+ " day" +:+ plural ageDays +:+ " ago"
      else if bool_decide (0 < ageHours)
      then pretty ageHours +:+ " hour" +:+ plural ageHours +:+ " ago"
      else if bool_decide (0 < ageMinutes)
      then pretty ageMinutes +:+ " minute" +:+ plural ageMinutes +:+ " ago"
      else "just now"
  end.

End Age.

(** Phase [k] is still to be run: pending, or failed. *)
Definition unfinished (state : DeploymentState) (k : Z) : Prop :=
  phases state !! k = Some pending \/ phases state !! k = Some failed.

(** ** Regular expressions of the sources *)

Fixpoint takeWhile (p : ascii -> bool) (s : string) : string :=
  match s with
  | String c s' => if p c then String c (takeWhile p s') else EmptyString
  | EmptyString => EmptyString
  end.

Fixpoint dropChars (n : nat) (s : string) : string :=
  match n, s with
  | S n', String _ s' => dropChars n' s'
  | _, _ => s
  end.

(** The group of a match of [/<lit>(<class>+)/] that starts where [s]
    starts. *)
Definition groupAt (lit : string) (p : ascii -> bool) (s : string) : option string :=
  if String.prefix lit s then
    match takeWhile p (dropChars (String.length lit) s) with
    | EmptyString => None
    | group => Some group
    end
  else None.

(** [s.match(/<lit>(<class>+)/)]: the group of the leftmost match. *)
Fixpoint matchAfter (lit : string) (p : ascii -> bool) (s : string) : option string :=
  match groupAt lit p s with
  | Some group => Some group
  | None =>
      match s with
      | String _ s' => matchAfter lit p s'
      | EmptyString => None
      end
  end.

(** [[0-9.]] and [\w] *)
Definition isVersionChar (c : ascii) : bool := isDigit c || Ascii.eqb c ".".

Definition isWord (c : ascii) : bool :=
  let n := nat_of_ascii c in
  isDigit c || (Nat.leb 65 n && Nat.leb n 90) || (Nat.leb 97 n && Nat.leb n 122)
  || Nat.eqb n 95.

(** ** lib/docker-setup.ts *)

Record DockerInfo := mkDockerInfo {
  version : string;
  composeVersion : string
}.

(** Parse Docker version from command output. *)
Definition parseDockerVersion (output : string) : DockerInfo :=
  mkDockerInfo (default "unknown" (matchAfter "Docker version " isVersionChar output))
               (default "unknown" (matchAfter "Docker Compose version v" isVersionChar output)).

Module DockerSetup.
Section Defs.

Variable env : Env.

Definition checkPackagesCmd : string :=
  "command -v curl && command -v wget && command -v git".

Definition installPackagesCmd : string :=
  nl +:+ "    export DEBIAN_FRONTEND=noninteractive" +:+ nl +:+
  "    apt-get update -qq" +:+ nl +:+
  "    apt-get install -y -qq curl wget git ca-certificates gnupg lsb-release" +:+ nl +:+
  "  ".

(** Install base packages required for Docker installation. *)
Definition installBasePackages : M unit :=
  let! checkResult := ssh_exec env checkPackagesCmd in
  if bool_decide (exitCode checkResult = 0) then ret tt else
  let! result := ssh_execStream env (trim installPackagesCmd) in
  if negb (bool_decide (result = 0)) then throw "Failed to install base packages"
  else ret tt.

Definition checkDockerCmd : string := "docker --version && docker compose version".

Definition backslash : string := String "092" EmptyString.

Definition installDockerCmd : string :=
  nl +:+ "    # Add Docker GPG key" +:+ nl +:+
  "    install -m 0755 -d /etc/apt/keyrings" +:+ nl +:+
  "    curl -fsSL https://download.docker.com/linux/ubuntu/gpg | " +:+ backslash +:+ nl +:+
  "      gpg --batch --yes --dearmor -o /etc/apt/keyrings/docker.gpg" +:+ nl +:+
  "    chmod a+r /etc/apt/keyrings/docker.gpg" +:+ nl +:+
  nl +:+
  "    # Add Docker repository" +:+ nl +:+
  "    echo " +:+ dq +:+ "deb [arch=amd64 signed-by=/etc/apt/keyrings/docker.gpg] " +:+
  backslash +:+ nl +:+
  "      https://download.docker.com/linux/ubuntu " +:+ backslash +:+ nl +:+
  "      $(lsb_release -cs) stable" +:+ dq +:+ " > /etc/apt/sources.list.d/docker.list" +:+ nl +:+
  nl +:+
  "    # Install Docker" +:+ nl +:+
  "    export DEBIAN_FRONTEND=noninteractive" +:+ nl +:+
  "    apt-get update -qq" +:+ nl +:+
  "    apt-get install -y -qq docker-ce docker-ce-cli containerd.io docker-buildx-plugin docker-compose-plugin" +:+ nl +:+
  nl +:+
  "    # Start and enable Docker service" +:+ nl +:+
  "    systemctl start docker" +:+ nl +:+
  "    systemctl enable docker" +:+ nl +:+
  "  ".

(** Install Docker CE and Docker Compose v2. *)
Definition installDocker : M DockerInfo :=
  let! checkResult := ssh_exec env checkDockerCmd in
  if bool_decide (exitCode checkResult = 0) then ret (parseDockerVersion (stdout checkResult))
  else
  let! result := ssh_execStream env (trim installDockerCmd) in
  if negb (bool_decide (result = 0)) then throw "Failed to install Docker" else
  let! verifyResult := ssh_exec env checkDockerCmd in
  if negb (bool_decide (exitCode verifyResult = 0))
  then throw "Docker installation verification failed"
  else ret (parseDockerVersion (stdout verifyResult)).

(** Verify Docker is running and accessible. *)
Definition verifyDocker : M bool :=
  let! result := ssh_exec env "docker ps" in
  ret (bool_decide (exitCode result = 0)).

End Defs.
End DockerSetup.

(** ** lib/user-setup.ts *)

Module UserSetup.
Section Defs.

Variable env : Env.

Definition sq : string := String "039" EmptyString.

Definition userInfoCmd (username : string) : string :=
  "id " +:+ username +:+ " && eval echo ~" +:+ username +:+ " && groups " +:+ username.

(** [parseInt] of the digits of a match of [\d+] is a number. *)
Definition numberOf (digits : string) : Z := default 0 (parseInt digits).

(** Get information about a user. *)
Definition getUserInfo (username : string) : M UserInfo :=
  let! result := ssh_exec env (userInfoCmd username) in
  if negb (bool_decide (exitCode result = 0))
  then throw ("User " +:+ sq +:+ username +:+ sq +:+ " does not exist") else
  let uidMatch := matchAfter "uid=" isDigit (stdout result) in
  let gidMatch := matchAfter "gid=" isDigit (stdout result) in
  let homeMatch := matchAfter "/home/" isWord (stdout result) in
  let dockerGroupMatch := includes "docker" (stdout result) in
  match uidMatch, gidMatch, homeMatch with
  | Some uidText, Some gidText, Some name =>
      ret (mkUserInfo username (numberOf uidText) (numberOf gidText) ("/home/" +:+ name)
                      dockerGroupMatch)
  | _, _, _ => throw ("Failed to parse user info for " +:+ sq +:+ username +:+ sq)
  end.

Definition inGroup (userInfo : UserInfo) : UserInfo :=
  mkUserInfo (username userInfo) (uid userInfo) (gid userInfo) (home userInfo) true.

Definition usermodCmd (username : string) : string := "usermod -aG docker " +:+ username.

Definition createCmd (username : string) : string :=
  "useradd -r -m -s /bin/bash -u 1000 " +:+ username +:+
  " 2>/dev/null || useradd -r -m -s /bin/bash " +:+ username.

(** Create the roboclaw system user for running containers. *)
Definition createDeploymentUser : M UserInfo :=
  let username := "roboclaw" in
  let! checkResult := ssh_exec env ("id " +:+ username) in
  if bool_decide (exitCode checkResult = 0) then
    let! userInfo := getUserInfo username in
    if negb (inDockerGroup userInfo) then
      ssh_exec env (usermodCmd username) ;;;
      ret (inGroup userInfo)
    else ret userInfo
  else
    let! createResult := ssh_exec env (createCmd username) in
    if negb (bool_decide (exitCode createResult = 0))
    then throw ("Failed to create user " +:+ sq +:+ username +:+ sq) else
    let! userInfo := getUserInfo username in
    ssh_exec env (usermodCmd username) ;;;
    ret (inGroup userInfo).

(** Verify user has access to docker (by checking group membership). *)
Definition verifyDockerAccess (username : string) : M bool :=
  let! result := ssh_exec env ("groups " +:+ username) in
  if negb (bool_decide (exitCode result = 0)) then ret false
  else ret (includes "docker" (stdout result)).

End Defs.
End UserSetup.

(** ** lib/interactive.ts: the gateway *)

Module Gateway.
Section Defs.

Variable env : Env.

Definition startCmd (userInfo : UserInfo) : string :=
  "cd " +:+ home userInfo +:+ "/docker && sudo -u " +:+ username userInfo +:+
  " docker compose up -d --force-recreate openclaw-gateway".

Definition logsCmd (userInfo : UserInfo) : string :=
  "cd " +:+ home userInfo +:+ "/docker && sudo -u " +:+ username userInfo +:+
  " docker compose logs --tail 20 openclaw-gateway 2>/dev/null | grep -q " +:+
  dq +:+ "listening on" +:+ dq.

Definition maxWaitTime : Z := 30.
Definition checkInterval : Z := 2.

(** The [while (waited < maxWaitTime)] loop of [startGateway], for at most
    [fuel] rounds: [Some true] when a check found the gateway listening,
    [Some false] when the loop ended, [None] when the rounds ran out. *)
Fixpoint waitListening (fuel : nat) (userInfo : UserInfo) (waited : Z) : M (option bool) :=
  match fuel with
  | O => ret None
  | S fuel' =>
      if negb (Z.ltb waited maxWaitTime) then ret (Some false) else
      sleep (checkInterval * 1000) ;;;
      let waited := waited + checkInterval in
      let! logsResult := ssh_exec env (logsCmd userInfo) in
      if bool_decide (exitCode logsResult = 0) then ret (Some true)
      else waitListening fuel' userInfo waited
  end.

(** Start the gateway daemon. *)
Definition startGateway (userInfo : UserInfo) : M unit :=
  let! result := ssh_execStream env (startCmd userInfo) in
  if negb (bool_decide (result = 0)) then throw "Failed to start gateway" else
  let! listening := waitListening 16 userInfo 0 in
  match listening with
  | Some true => ret tt
  | Some false => throw "Gateway failed to start within 30 seconds"
  | None => throw "the loop did not end"
  end.

Definition healthCmd (composeDir username : string) : string :=
  "cd " +:+ composeDir +:+ " && sudo -u " +:+ username +:+
  " docker compose exec -T openclaw-gateway node dist/index.js gateway health 2>/dev/null".

(** Check if gateway is healthy. *)
Definition checkGatewayHealth (composeDir username : string) : M bool :=
  let! result := ssh_exec env (healthCmd composeDir username) in
  ret (bool_decide (exitCode result = 0)).

Definition restartCmd (userInfo : UserInfo) : string :=
  "cd " +:+ home userInfo +:+ "/docker && sudo -u " +:+ username userInfo +:+
  " docker compose restart openclaw-gateway".

(** Restart the gateway daemon: a health check that fails is a warning. *)
Definition restartGateway (userInfo : UserInfo) : M unit :=
  let! result := ssh_exec env (restartCmd userInfo) in
  if negb (bool_decide (exitCode result = 0)) then throw "Failed to restart gateway" else
  sleep 5000 ;;;
  let! isHealthy := checkGatewayHealth (home userInfo +:+ "/docker") (username userInfo) in
  ret tt.

End Defs.
End Gateway.

(** ** Vocabulary of the properties of the rest of the modules *)

(** The reply of a remote command that ran and exited with another code
    than 0. *)
Definition exitedNonZero (reply : Reply ExecResult) : Prop :=
  exists r, reply = Resolved r /\ exitCode r <> 0.

(** The events of the checks of [startGateway]: each one waits, then
    looks for the gateway in the logs. *)
Definition pollRounds (userInfo : UserInfo) (replies : list (Reply ExecResult))
  : list Event :=
  flat_map (fun reply => [EvSleep 2000; EvExec (Gateway.logsCmd userInfo) reply]) replies.

(** How the checks of [startGateway] end, when at most [limit] are made:
    a check finds the gateway listening, or [limit] checks have not, or a
    check is rejected. *)
Definition listeningOutcome (limit : nat) (replies : list (Reply ExecResult))
  (out : Outcome (option bool)) : Prop :=
  (exists earlier r,
      replies = (earlier ++ [Resolved r])%list /\ Forall exitedNonZero earlier /\
      exitCode r = 0 /\ (length earlier < limit)%nat /\ out = Returned (Some true)) \/
  (Forall exitedNonZero replies /\ length replies = limit /\ out = Returned (Some false)) \/
  (exists earlier e,
      replies = (earlier ++ [Rejected e])%list /\ Forall exitedNonZero earlier /\
      (length earlier < limit)%nat /\ out = Thrown e).

(** The wait of [SSHClient.connect] after the failure of [attempt]. *)
Definition backoff (attempt : Z) : Z := Z.min (1000 * 2 ^ (attempt - 1)) 5000.

(** The events of the attempts of [SSHClient.connect] that failed with
    [errors], from [attempt] on, each followed by its wait. *)
Fixpoint failedAttempts (errors : list string) (attempt : Z) : list Event :=
  match errors with
  | [] => []
  | e :: rest =>
      EvConnectAttempt attempt (Rejected e) :: EvSleep (backoff attempt)
      :: failedAttempts rest (attempt + 1)
  end.

(** Every event but an upload. *)
Definition notUpload (ev : Event) : Prop :=
  match ev with
  | EvUpload _ _ _ => False
  | _ => True
  end.

(** What [deployCommand] uploads to the state file: the state of
    [createState], or a state in which one of the phases 2 to 8 has just
    been set to complete. *)
Definition deployWrite (JSON_stringify : DeploymentState -> string) (ev : Event) : Prop :=
  match ev with
  | EvUpload content path _ =>
      path = STATE_FILE ->
      (exists name id started meta,
          content = JSON_stringify (mkState name id started 0 State.initialPhases meta)) \/
      (exists st n, 2 <= n <= 8 /\
          content = JSON_stringify (State.setPhase st n complete))
  | _ => True
  end.

(** The run from [w] added only events that satisfy [P], and if it ended
    the process, then with a code that satisfies [X]. *)
Definition confinedPost {A} (P : Event -> Prop) (X : Z -> Prop) (w : World)
  (out : Outcome A) (w' : World) : Prop :=
  (forall c, out = Exited c -> X c) /\
  exists evs, log w' = (log w ++ evs)%list /\ Forall P evs.

Definition confined {A} (P : Event -> Prop) (X : Z -> Prop) (m : M A) : Prop :=
  forall w, post m w (confinedPost P X w).

(** The listings of the pending requests in a log: the polls of the
    pairing automation. *)
Definition isListing (userInfo : UserInfo) (ev : Event) : bool :=
  match ev with
  | EvExec cmd _ => bool_decide (cmd = AutoConnect.listCmd userInfo)
  | _ => false
  end.

Definition listings (userInfo : UserInfo) (evs : list Event) : Z :=
  Z.of_nat (length (List.filter (isListing userInfo) evs)).

(** The text [a.b.c.d]. *)
Definition dotted (a b c d : string) : string :=
  a +:+ "." +:+ b +:+ "." +:+ c +:+ "." +:+ d.

(** [parts.join('.')] *)
Fixpoint joinDots (parts : list string) : string :=
  match parts with
  | [] => ""
  | [part] => part
  | part :: rest => part +:+ "." +:+ joinDots rest
  end.

(** One to three decimal digits that read as a number of at most 255. *)
Definition octetText (s : string) : Prop :=
  (1 <= String.length s <= 3)%nat /\
  forallb isDigit (list_ascii_of_string s) = true /\
  exists n, parseInt s = Some n /\ 0 <= n <= 255.

(** The checks of [validateIP] on the decimal numeral of [n]. *)
Definition octetOK (n : Z) : bool := isOctetText (pretty n) && octetInRange (pretty n).

(** What a run does before it has checked that it is root: it reads the
    configuration and the key and it connects, with no command and no
    upload yet. *)
Definition prelude (ev : Event) : Prop :=
  match ev with
  | EvCall a _ | EvDone a _ =>
      match a with
      | LoadConfig _ | ValidateSSHKey _ | ReadFile _ | Connect => True
      | _ => False
      end
  | EvConnectAttempt _ _ | EvSleep _ => True
  | _ => False
  end.

(** An upload to the state file that updates a state: one of the phases
    2 to 8 has just been set to complete in it. *)
Definition updateWrite (JSON_stringify : DeploymentState -> string) (ev : Event) : Prop :=
  match ev with
  | EvUpload content path _ =>
      path = STATE_FILE ->
      exists st n, 2 <= n <= 8 /\ content = JSON_stringify (State.setPhase st n complete)
  | _ => True
  end.

(** [P] allows the upload of the state of [createState]. *)
Definition allowsCreate (JSON_stringify : DeploymentState -> string) (P : Event -> Prop)
  : Prop :=
  forall name id started meta r,
    P (EvUpload (JSON_stringify (mkState name id started 0 State.initialPhases meta))
                STATE_FILE r).

(** ** Hosts for the rest of the modules *)

(** A host that answers every command with exit code 0 and the same
    output. *)
Definition answering (text : string) : Env :=
  mkEnv (fun _ _ => Resolved (mkExecResult 0 text ""))
        (fun _ _ => Resolved 0)
        (fun _ _ => Resolved tt)
        (fun _ _ _ => Resolved tt)
        (fun _ => Resolved tt)
        (fun _ _ => Resolved tt)
        (fun _ f => Resolved (Scenario.configOf f))
        (fun _ => Resolved Scenario.principal)
        (fun _ _ => Resolved None)
        (fun _ => "0b1f6c1e-5f0a-4a51-9a56-1f3f1f6f2a10")
        (fun _ => "2026-01-01T00:00:00.000Z")
        (fun _ => 0)
        (fun _ => "n")
        (fun _ => false).

(** What [id], [eval echo] and [groups] print for the principal. *)
Definition idOutput : string :=
  "uid=1000(roboclaw) gid=1000(roboclaw) groups=1000(roboclaw),998(docker)" +:+ nl +:+
  "/home/roboclaw" +:+ nl +:+
  "roboclaw : roboclaw docker".

(** What [docker --version && docker compose version] prints. *)
Definition dockerOutput : string :=
  "Docker version 24.0.7, build afdd53b" +:+ nl +:+
  "Docker Compose version v2.21.0".

(** A clock that reads every start date as the epoch. *)
Definition epoch (text : string) : option Z := Some 0.

(** ** The order of the phases, whatever the host answers *)

(** A computation that does not exit and logs no action; it may write
    the state file. *)
Definition quietPost {A} (w : World) (out : Outcome A) (w' : World) : Prop :=
  (forall c, out <> Exited c) /\
  exists evs, log w' = (log w ++ evs)%list /\ Forall ioEvent evs.

Definition quiet {A} (m : M A) : Prop := forall w, post m w (quietPost w).

(** An event of the block of phase [m], which began with [file] in the
    state file: an action belongs to phase [m] or to no phase, and an
    action of phase [m] is entered only when the phase is due, with the
    state file as the block found it. *)
Definition stepEvent (existingState : option DeploymentState) (m : Z)
  (file : option string) (ev : Event) : Prop :=
  match ev with
  | EvCall a snap =>
      phaseOf a = None \/ (phaseOf a = Some m /\ snap = file /\ due existingState m)
  | EvDone a _ => phaseOf a = None \/ phaseOf a = Some m
  | _ => True
  end.

(** The contract of a part of the block of phase [m] that runs to the end
    of the block from [w], where the state file is still [file]; [evs]
    are the events it adds. Nothing is asked of the connection, of the
    answers of the host, or of what the state file holds. *)
Definition stepOK (existingState : option DeploymentState) (m : Z)
  (file : option string) (w : World) {A} (out : Outcome A) (w' : World)
  (evs : list Event) : Prop :=
  (forall c, out <> Exited c) /\
  log w' = (log w ++ evs)%list /\
  Forall (stepEvent existingState m file) evs /\
  (forall b, In (EvDone b false) evs -> (exists e, out = Thrown e) /\ stateFile w' = file) /\
  ((exists x, out = Returned x) -> forall b, ~ In (EvDone b false) evs).

Definition partOK (existingState : option DeploymentState) (m : Z)
  (file : option string) (w : World) {A} (out : Outcome A) (w' : World) : Prop :=
  exists evs, stepOK existingState m file w out w' evs.

(** The contract of the whole block of phase [m]: when it returned, an
    action of the phase was entered if the phase was due. *)
Definition wholeOK (existingState : option DeploymentState) (m : Z) (w : World)
  {A} (out : Outcome A) (w' : World) : Prop :=
  exists evs,
    stepOK existingState m (stateFile w) w out w' evs /\
    ((exists x, out = Returned x) -> due existingState m -> called m evs).

(** The events [evs] of the blocks of the phases below [m]: an action of
    phase [n] was entered only because the phase was due, and after an
    action of every due phase before it. *)
Definition ordered (existingState : option DeploymentState) (m : Z)
  (evs : list Event) : Prop :=
  (forall a snap n, In (EvCall a snap) evs -> phaseOf a = Some n ->
     2 <= n < m /\ due existingState n /\
     (forall k, 2 <= k < n -> due existingState k -> called k evs)) /\
  (forall b ok n, In (EvDone b ok) evs -> phaseOf b = Some n -> n < m).

(** The run has come to the block of phase [m] with the events [evs]
    since [w0]: no action failed, and every due phase below [m] was run. *)
Definition reached (existingState : option DeploymentState) (m : Z) (w0 w : World)
  (evs : list Event) : Prop :=
  log w = (log w0 ++ evs)%list /\
  ordered existingState m evs /\
  (forall b, ~ In (EvDone b false) evs) /\
  (forall k, 2 <= k < m -> due existingState k -> called k evs).

(** What [runPhases] does from [w0] on any host. The run does not exit
    the process. When an action of phase [n] failed, the run threw, no
    action of a later phase was entered, and the state file is left as
    the actions of phase [n] found it. When the run returned, an action
    of every due phase was entered. *)
Definition phasesOK (existingState : option DeploymentState) (w0 : World)
  {A} (out : Outcome A) (w' : World) : Prop :=
  exists evs,
    log w' = (log w0 ++ evs)%list /\
    (forall c, out <> Exited c) /\
    ordered existingState 10 evs /\
    (forall b n, In (EvDone b false) evs -> phaseOf b = Some n ->
       (exists e, out = Thrown e) /\
       forall a snap k, In (EvCall a snap) evs -> phaseOf a = Some k ->
                        k <= n /\ (k = n -> stateFile w' = snap)) /\
    ((exists x, out = Returned x) ->
       forall k, 2 <= k <= 9 -> due existingState k -> called k evs).

(** The optional auto-connect was entered. *)
Definition isAutoConnectCall (ev : Event) : bool :=
  match ev with
  | EvCall (AutoConnect _ _ _) _ => true
  | _ => false
  end.

Definition entersAutoConnect (evs : list Event) : bool := existsb isAutoConnectCall evs.

(** * Properties *)

Open Scope list_scope.

(** ** Reasoning about computations in [M] *)


Lemma post_run {A} (m : M A) w Q out w' :
  post m w Q -> m w = (out, w') -> Q out w'.
Proof. unfold post. intros HQ Hrun. now rewrite Hrun in HQ. Qed.

Lemma post_intro {A} (m : M A) w (Q : Outcome A -> World -> Prop) :
  (forall out w', m w = (out, w') -> Q out w') -> post m w Q.
Proof. intros H. unfold post. apply H. now destruct (m w). Qed.

Lemma post_conseq {A} (m : M A) w (Q Q' : Outcome A -> World -> Prop) :
  post m w Q -> (forall out w', Q out w' -> Q' out w') -> post m w Q'.
Proof. unfold post. auto. Qed.

Lemma post_ret {A} (a : A) w (Q : Outcome A -> World -> Prop) :
  Q (Returned a) w -> post (ret a) w Q.
Proof. auto. Qed.

Lemma post_throw {A} e w (Q : Outcome A -> World -> Prop) :
  Q (Thrown e) w -> post (throw e) w Q.
Proof. auto. Qed.

Lemma post_exit {A} c w (Q : Outcome A -> World -> Prop) :
  Q (Exited c) w -> post (process_exit c) w Q.
Proof. auto. Qed.


Lemma post_bind {A B} (m : M A) (k : A -> M B) w Q :
  post m w (andThen k Q) -> post (bind m k) w Q.
Proof.
  unfold post, andThen, bind. destruct (m w) as [[a | e | c] w1]; simpl; auto.
Qed.

Lemma post_try_catch {A} (body : M A) handler w (Q : Outcome A -> World -> Prop) :
  post body w (fun out w1 =>
                 match out with
                 | Thrown e => post (handler e) w1 Q
                 | _ => Q out w1
                 end) ->
  post (try_catch body handler) w Q.
Proof.
  unfold post, try_catch. destruct (body w) as [[a | e | c] w1]; simpl; auto.
Qed.

Lemma post_try_finally {A} (body : M A) fin w (Q : Outcome A -> World -> Prop) :
  post body w (fun out w1 =>
                 match out with
                 | Exited c => Q (Exited c) w1
                 | _ => post fin w1 (fun o w2 =>
                                       match o with
                                       | Returned _ => Q out w2
                                       | Thrown e => Q (Thrown e) w2
                                       | Exited c => Q (Exited c) w2
                                       end)
                 end) ->
  post (try_finally body fin) w Q.
Proof.
  unfold post, try_finally.
  destruct (body w) as [[a | e | c] w1]; simpl; auto;
    destruct (fin w1) as [[[] | e' | c'] w2]; simpl; auto.
Qed.


Lemma host_exec_plain command r w :
  plain command -> host_exec command r w = (r, record (EvExec command (Resolved r)) w).
Proof. intros [Hr Hd]. unfold host_exec. now rewrite Hr, Hd. Qed.

Lemma plain_intro command :
  command <> "cat " +:+ STATE_FILE ->
  command <> "rm -f " +:+ STATE_FILE ->
  command <> CLEAN_STATE_CMD ->
  plain command.
Proof.
  intros H1 H2 H3. unfold plain, reads_state_file, removes_state_file.
  rewrite !bool_decide_eq_false_2 by assumption. auto.
Qed.

(** Closes [plain c] when [c] differs from the three state-file commands
    within its literal head. *)
Ltac plain_cmd :=
  apply plain_intro; intros Heq; vm_compute in Heq; discriminate Heq.

Section Rules.

Variable env : Env.

Lemma post_ssh_exec command w (Q : Outcome ExecResult -> World -> Prop) :
  (connected w = false -> Q (Thrown NOT_CONNECTED) w) ->
  (connected w = true -> forall e, exec_reply env (log w) command = Rejected e ->
     Q (Thrown e) (record (EvExec command (Rejected e)) w)) ->
  (connected w = true -> forall r, exec_reply env (log w) command = Resolved r ->
     Q (Returned (fst (host_exec command r w))) (snd (host_exec command r w))) ->
  post (ssh_exec env command) w Q.
Proof.
  intros Hoff Hrej Hres. unfold post, ssh_exec.
  destruct (connected w); simpl; [|auto].
  destruct (exec_reply env (log w) command) as [r | e] eqn:E; simpl; [|auto].
  specialize (Hres eq_refl r eq_refl). now destruct (host_exec command r w).
Qed.

Lemma post_ssh_exec_plain command w (Q : Outcome ExecResult -> World -> Prop) :
  plain command ->
  (connected w = false -> Q (Thrown NOT_CONNECTED) w) ->
  (connected w = true -> forall e, exec_reply env (log w) command = Rejected e ->
     Q (Thrown e) (record (EvExec command (Rejected e)) w)) ->
  (connected w = true -> forall r, exec_reply env (log w) command = Resolved r ->
     Q (Returned r) (record (EvExec command (Resolved r)) w)) ->
  post (ssh_exec env command) w Q.
Proof.
  intros Hp Hoff Hrej Hres. apply post_ssh_exec; auto.
  intros Hc r Hr. rewrite host_exec_plain by assumption. simpl. auto.
Qed.

Lemma post_ssh_execStream command w (Q : Outcome Z -> World -> Prop) :
  (connected w = false -> Q (Thrown NOT_CONNECTED) w) ->
  (connected w = true -> forall e, execStream_reply env (log w) command = Rejected e ->
     Q (Thrown e) (record (EvExecStream command (Rejected e)) w)) ->
  (connected w = true -> forall c, execStream_reply env (log w) command = Resolved c ->
     Q (Returned c) (record (EvExecStream command (Resolved c)) w)) ->
  post (ssh_execStream env command) w Q.
Proof.
  intros Hoff Hrej Hres. unfold post, ssh_execStream.
  destruct (connected w); simpl; [|auto].
  destruct (execStream_reply env (log w) command) eqn:E; simpl; auto.
Qed.

Lemma post_ssh_execInteractive command w (Q : Outcome unit -> World -> Prop) :
  (connected w = false -> Q (Thrown NOT_CONNECTED) w) ->
  (connected w = true ->
     Q (match execInteractive_reply env (log w) command with
        | Resolved _ => Returned tt
        | Rejected e => Thrown e
        end)
       (record (EvExecInteractive command (execInteractive_reply env (log w) command)) w)) ->
  post (ssh_execInteractive env command) w Q.
Proof.
  intros Hoff Hon. unfold post, ssh_execInteractive.
  destruct (connected w); simpl; [|auto]. specialize (Hon eq_refl).
  destruct (execInteractive_reply env (log w) command) as [[]|]; simpl; auto.
Qed.

Lemma post_ssh_uploadContent content path w (Q : Outcome unit -> World -> Prop) :
  (connected w = false -> Q (Thrown NOT_CONNECTED) w) ->
  (connected w = true -> forall e, uploadContent_reply env (log w) content path = Rejected e ->
     Q (Thrown e) (record (EvUpload content path (Rejected e)) w)) ->
  (connected w = true -> uploadContent_reply env (log w) content path = Resolved tt ->
     Q (Returned tt) (host_upload content path w)) ->
  post (ssh_uploadContent env content path) w Q.
Proof.
  intros Hoff Hrej Hres. unfold post, ssh_uploadContent.
  destruct (connected w); simpl; [|auto].
  destruct (uploadContent_reply env (log w) content path) as [[]|] eqn:E; simpl; auto.
Qed.

Lemma post_await {A} (reply : list Event -> Reply A) w (Q : Outcome A -> World -> Prop) :
  (forall a, reply (log w) = Resolved a -> Q (Returned a) w) ->
  (forall e, reply (log w) = Rejected e -> Q (Thrown e) w) ->
  post (await reply) w Q.
Proof.
  intros Hres Hrej. unfold post, await. destruct (reply (log w)); simpl; auto.
Qed.

Lemma post_call {A} (a : Action) (body : M A) w (Q : Outcome A -> World -> Prop) :
  post body (record (EvCall a (stateFile w)) w)
       (fun out w1 =>
          match out with
          | Returned x => Q (Returned x) (record (EvDone a true) w1)
          | Thrown e => Q (Thrown e) (record (EvDone a false) w1)
          | Exited c => Q (Exited c) w1
          end) ->
  post (call a body) w Q.
Proof.
  unfold post, call.
  destruct (body (record (EvCall a (stateFile w)) w)) as [[x | e | c] w1]; simpl; auto.
Qed.

End Rules.

(** ** The JSON text of a state is read back as that state *)

Section JsonFacts.
Import Json.

#[local] Arguments String.append : simpl nomatch.

Lemma string_app_assoc (a b c : string) : (a +:+ b) +:+ c = a +:+ (b +:+ c).
Proof. induction a as [|x a IH]; cbn [append]; [reflexivity | now rewrite IH]. Qed.

Lemma string_app_length (a b : string) :
  String.length (a +:+ b) = (String.length a + String.length b)%nat.
Proof.
  induction a as [|x a IH]; cbn [append String.length]; [reflexivity | now rewrite IH].
Qed.

Lemma expect_app lit rest : expect lit (lit +:+ rest) = Some rest.
Proof.
  induction lit as [|c lit IH]; cbn [append expect]; [reflexivity|].
  now rewrite Ascii.eqb_refl.
Qed.

Lemma readChars_escape s rest :
  readChars (escape s +:+ String quote rest) = Some (s, rest).
Proof.
  induction s as [|c s IH]; [reflexivity|].
  cbn [escape]. destruct (Ascii.eqb c quote || Ascii.eqb c backslash) eqn:Hc.
  - cbn [append readChars]. change (Ascii.eqb backslash quote) with false.
    change (Ascii.eqb backslash backslash) with true. cbn iota.
    now rewrite IH.
  - apply orb_false_elim in Hc as [Hq Hb].
    cbn [append readChars]. rewrite Hq, Hb. now rewrite IH.
Qed.

Lemma readString_write s rest : readString (writeString s +:+ rest) = Some (s, rest).
Proof.
  unfold writeString, readString. cbn [append]. rewrite Ascii.eqb_refl.
  rewrite string_app_assoc. cbn [append]. apply readChars_escape.
Qed.

Lemma spanNum_uint d c rest :
  isNumChar c = false ->
  spanNum (NilEmpty.string_of_uint d +:+ String c rest) =
  (NilEmpty.string_of_uint d, String c rest).
Proof.
  intros Hc. induction d as [|d IH|d IH|d IH|d IH|d IH|d IH|d IH|d IH|d IH|d IH];
    cbn [NilEmpty.string_of_uint append spanNum];
    [now rewrite Hc | ..];
    match goal with
    | |- context [isNumChar ?x] => change (isNumChar x) with true
    end; cbn iota; now rewrite IH.
Qed.

Lemma spanNum_write z c rest :
  isNumChar c = false ->
  spanNum (writeZ z +:+ String c rest) = (writeZ z, String c rest).
Proof.
  intros Hc. unfold writeZ.
  assert (Hu : forall d, spanNum (NilZero.string_of_uint d +:+ String c rest) =
                         (NilZero.string_of_uint d, String c rest)).
  { intros d. destruct d; try apply (spanNum_uint _ c rest Hc).
    cbn [NilZero.string_of_uint append spanNum].
    change (isNumChar "0") with true. cbn iota. now rewrite Hc. }
  destruct (Z.to_int z) as [d|d]; cbn [NilZero.string_of_int]; [apply Hu|].
  cbn [append spanNum]. change (isNumChar "-") with true. cbn iota. now rewrite Hu.
Qed.

Lemma textToZ_write z : textToZ (writeZ z) = Some z.
Proof.
  unfold textToZ, writeZ. rewrite NilZero.isi.
  - cbn [option_map]. now rewrite DecimalZ.of_to.
  - destruct z; cbn; [discriminate | |discriminate].
    intros [= H]. now apply Unsigned.to_uint_nonnil in H.
  - destruct z; cbn; [discriminate | discriminate |].
    intros [= H]. now apply Unsigned.to_uint_nonnil in H.
Qed.

Lemma readZ_write z c rest :
  isNumChar c = false -> readZ (writeZ z +:+ String c rest) = Some (z, String c rest).
Proof.
  intros Hc. unfold readZ. rewrite (spanNum_write z c rest Hc). cbn [fst snd].
  now rewrite textToZ_write.
Qed.

Lemma readZ_next z name rest :
  readZ (writeZ z +:+ next name +:+ rest) = Some (z, next name +:+ rest).
Proof. now apply (readZ_write z ","). Qed.

Lemma textToStatus_text s : textToStatus (statusText s) = Some s.
Proof. now destruct s. Qed.

Lemma readEntry_write e rest : readEntry (writeEntry e +:+ rest) = Some (e, rest).
Proof.
  destruct e as [k v]. unfold readEntry, writeEntry. cbn [fst snd].
  rewrite !string_app_assoc, readString_write. cbn [mbind option_bind].
  rewrite textToZ_write. cbn [mbind option_bind].
  rewrite expect_app. cbn [mbind option_bind].
  rewrite readString_write. cbn [mbind option_bind].
  rewrite textToStatus_text. reflexivity.
Qed.

Lemma writeEntries_cons e l :
  writeEntries (e :: l) =
  writeEntry e +:+ match l with [] => "}" | _ => "," +:+ writeEntries l end.
Proof. now destruct l. Qed.

Lemma readEntries_write l :
  l <> [] -> forall fuel rest, (length l <= fuel)%nat ->
  readEntries fuel (writeEntries l +:+ rest) = Some (l, rest).
Proof.
  induction l as [|e l IH]; [congruence|]. intros _ fuel rest Hfuel.
  destruct fuel as [|fuel]; [cbn in Hfuel; lia|].
  rewrite writeEntries_cons, string_app_assoc. cbn [readEntries].
  rewrite readEntry_write. cbn [mbind option_bind].
  destruct l as [|e' l]; [reflexivity|].
  cbn [append]. change (Ascii.eqb "," "}") with false.
  change (Ascii.eqb "," ",") with true. cbn iota.
  rewrite IH; [reflexivity | discriminate | cbn in Hfuel |- *; lia].
Qed.

Lemma writeEntry_head e : exists c t, writeEntry e = String c t /\ Ascii.eqb c "}" = false.
Proof. exists quote. eexists. split; [reflexivity | reflexivity]. Qed.

Lemma writeEntries_length l rest :
  (length l <= String.length (writeEntries l +:+ rest))%nat.
Proof.
  induction l as [|e l IH]; [cbn [length]; lia|].
  rewrite writeEntries_cons, string_app_assoc, string_app_length.
  destruct (writeEntry_head e) as (c & t & -> & _). destruct l as [|e' l].
  - cbn [append String.length length]. lia.
  - cbn [append String.length length] in *. lia.
Qed.

Lemma readPhases_write m rest : readPhases (writePhases m +:+ rest) = Some (m, rest).
Proof.
  unfold readPhases, writePhases. rewrite string_app_assoc, expect_app.
  cbn [mbind option_bind].
  pose proof (merge_sort_Permutation keyLe (map_to_list m)) as Hperm.
  destruct (merge_sort keyLe (map_to_list m)) as [|e l] eqn:Hsort.
  - apply Permutation_nil_l in Hperm. symmetry in Hperm.
    apply map_to_list_empty_iff in Hperm. now subst m.
  - assert (Hm : list_to_map (e :: l) = m).
    { transitivity (list_to_map (map_to_list m) : gmap Z PhaseStatus);
        [|apply list_to_map_to_list].
      symmetry. apply list_to_map_proper; [apply NoDup_fst_map_to_list | now symmetry]. }
    assert (Hs : exists c t, writeEntries (e :: l) +:+ rest = String c t /\
                             Ascii.eqb c "}" = false).
    { rewrite writeEntries_cons, string_app_assoc.
      destruct (writeEntry_head e) as (c & t & -> & Hc).
      eexists c, _. split; [reflexivity | exact Hc]. }
    destruct Hs as (c & t & Hs & Hc). rewrite Hs. cbn iota. rewrite Hc, <- Hs.
    rewrite readEntries_write; [cbn [mbind option_bind]; now rewrite Hm | discriminate |].
    apply writeEntries_length.
Qed.

Ltac read_field :=
  rewrite ?string_app_assoc;
  first [ rewrite expect_app | rewrite readString_write
        | rewrite readZ_next ];
  cbn [mbind option_bind].

Lemma readMetadata_write m rest :
  readMetadata (writeMetadata m +:+ rest) = Some (m, rest).
Proof.
  destruct m as [user userId groupId homeDir imageName branchName].
  unfold readMetadata, writeMetadata.
  cbn [deployUser deployUid deployGid deployHome image branch].
  do 13 read_field. reflexivity.
Qed.

(** The codec of the state file is an inverse pair. *)
Lemma Json_parse_stringify st : parse (stringify st) = Some st.
Proof.
  destruct st as [name id started last statuses meta]. unfold parse, stringify.
  cbn [instanceName deploymentId startedAt lastPhase phases metadata].
  do 9 read_field.
  rewrite ?string_app_assoc, readPhases_write. cbn [mbind option_bind].
  read_field. rewrite readMetadata_write. reflexivity.
Qed.

End JsonFacts.

(** ** First-run interactive setup (lib/interactive.ts) *)

Section InteractiveFacts.

Variable env : Env.

Lemma markerCmd_plain home : plain (Interactive.markerCmd home).
Proof. plain_cmd. Qed.

Lemma ssh_exec_plain_resolved command w r :
  plain command -> connected w = true ->
  exec_reply env (log w) command = Resolved r ->
  ssh_exec env command w = (Returned r, record (EvExec command (Resolved r)) w).
Proof.
  intros Hp Hc Hr. unfold ssh_exec. rewrite Hc, Hr. simpl.
  now rewrite host_exec_plain.
Qed.

Lemma ssh_exec_rejected command w e :
  connected w = true ->
  exec_reply env (log w) command = Rejected e ->
  ssh_exec env command w = (Thrown e, record (EvExec command (Rejected e)) w).
Proof. intros Hc Hr. unfold ssh_exec. now rewrite Hc, Hr. Qed.

(** C9. When the completion marker is absent at the start and skipping
    was not requested, [runOnboarding] succeeds exactly when the marker
    test made after the interactive session finds the marker, whatever
    way the session itself ended; otherwise it raises. *)
Theorem runOnboarding_marker_decides (userInfo : UserInfo) (w : World) (r0 : ExecResult) :
  connected w = true ->
  exec_reply env (log w) (Interactive.markerCmd (home userInfo)) = Resolved r0 ->
  exitCode r0 <> 0 ->
  let marker := Interactive.markerCmd (home userInfo) in
  let onboard := Interactive.onboardCmd (home userInfo +:+ "/docker") (username userInfo) in
  let w1 := record (EvExec marker (Resolved r0)) w in
  let session := execInteractive_reply env (log w1) onboard in
  let w2 := record (EvExecInteractive onboard session) w1 in
  let after := exec_reply env (log w2) marker in
  (markerPresent after = true ->
     fst (Interactive.runOnboarding env userInfo false w) = Returned tt) /\
  (markerPresent after = false ->
     exists e, fst (Interactive.runOnboarding env userInfo false w) = Thrown e).
Proof.
  intros Hc Hr0 Hne marker onboard w1 session w2 after.
  assert (Hrun : Interactive.runOnboarding env userInfo false w =
                 bind (Interactive.checkOnboardingComplete env (home userInfo))
                      (fun present => if negb present
                                      then throw "Onboarding failed - config file not found"
                                      else ret tt) w2).
  { unfold Interactive.runOnboarding, Interactive.checkOnboardingComplete.
    unfold bind at 1 2.
    rewrite (ssh_exec_plain_resolved _ _ r0); [|apply markerCmd_plain|assumption|assumption].
    unfold ret at 1. rewrite bool_decide_eq_false_2 by assumption.
    unfold bind at 1, try_catch, ssh_execInteractive. fold marker onboard w1.
    replace (connected w1) with true by (symmetry; exact Hc). simpl negb. cbv iota.
    fold session. subst w2. destruct session as [[] | e]; reflexivity. }
  rewrite Hrun. unfold Interactive.checkOnboardingComplete, bind.
  fold marker. subst after. unfold markerPresent.
  destruct (exec_reply env (log w2) marker) as [r | e] eqn:Hafter.
  - rewrite (ssh_exec_plain_resolved _ _ r); [|apply markerCmd_plain|assumption|assumption].
    unfold ret. split; intros Hp; rewrite Hp; simpl; eauto.
  - rewrite (ssh_exec_rejected _ _ e) by auto. split; [discriminate | eauto].
Qed.

End InteractiveFacts.

(** ** Image build (lib/image-builder.ts) *)

Lemma log_record ev w : log (record ev w) = log w ++ [ev].
Proof. reflexivity. Qed.

Lemma connected_record ev w : connected (record ev w) = connected w.
Proof. reflexivity. Qed.

Lemma stateFile_record ev w : stateFile (record ev w) = stateFile w.
Proof. reflexivity. Qed.


Lemma last_one {A} (pre l : list A) x :
  l = pre ++ [x] -> exists l', rev l = x :: l'.
Proof. intros ->. rewrite rev_app_distr. simpl. eauto. Qed.

Section ImageFacts.

Variable env : Env.
Variable userInfo : UserInfo.
Variable br : string.

Let images := ImageBuilder.imagesCmd ImageBuilder.IMAGE_NAME.
Let verify := ImageBuilder.verifyCmd ImageBuilder.IMAGE_NAME (uid userInfo) (gid userInfo).
Let rmi := ImageBuilder.rmiCmd ImageBuilder.IMAGE_NAME.

Lemma images_plain : plain images.
Proof. plain_cmd. Qed.

Lemma verify_plain : plain verify.
Proof.
  apply plain_intro; intros Heq; unfold verify, ImageBuilder.verifyCmd in Heq;
    simpl in Heq; discriminate Heq.
Qed.

Lemma rmi_plain : plain rmi.
Proof. plain_cmd. Qed.

Lemma repo_plain : plain ("test -d " +:+ (home userInfo +:+ "/openclaw-src") +:+ "/.git").
Proof. apply plain_intro; intros Heq; simpl in Heq; discriminate Heq. Qed.

Let repo := "test -d " +:+ (home userInfo +:+ "/openclaw-src") +:+ "/.git".

Lemma verify_distinct : images <> verify /\ rmi <> verify /\ repo <> verify.
Proof.
  unfold images, rmi, repo, verify, ImageBuilder.verifyCmd, ImageBuilder.imagesCmd,
    ImageBuilder.rmiCmd.
  repeat split; intros Heq; cbn [append ImageBuilder.IMAGE_NAME] in Heq; discriminate Heq.
Qed.








End ImageFacts.

(** ** Pairing automation (lib/auto-connect.ts) *)

Lemma prefix_app_cancel (a b c : string) :
  String.prefix (a +:+ b) (a +:+ c) = String.prefix b c.
Proof.
  induction a as [|x a IH]; simpl; [reflexivity|].
  destruct (ascii_dec x x); [exact IH|congruence].
Qed.

Lemma firstNew_app B (l1 l2 : list PairingRequest) :
  AutoConnect.firstNew B (l1 ++ l2) =
  match AutoConnect.firstNew B l1 with
  | Some req => Some req
  | None => AutoConnect.firstNew B l2
  end.
Proof.
  unfold AutoConnect.firstNew. induction l1 as [|x l1 IH]; simpl; [reflexivity|].
  destruct (negb _); [reflexivity|exact IH].
Qed.

Lemma observedAll_app u (l1 l2 : list Event) :
  observedAll u (l1 ++ l2) = observedAll u l1 ++ observedAll u l2.
Proof. unfold observedAll. apply flat_map_app. Qed.

Lemma approvals_app u (l1 l2 : list Event) :
  approvals u (l1 ++ l2) = approvals u l1 ++ approvals u l2.
Proof. unfold approvals. apply List.filter_app. Qed.

Lemma observedAll_cons u ev (l : list Event) :
  observedAll u (ev :: l) = observed u ev ++ observedAll u l.
Proof. reflexivity. Qed.

Lemma approvals_cons u ev (l : list Event) :
  approvals u (ev :: l) = (if isApproval u ev then [ev] else []) ++ approvals u l.
Proof. unfold approvals. cbn [List.filter]. now destruct (isApproval u ev). Qed.

Section AutoConnectFacts.

Variable env : Env.
Variable userInfo : UserInfo.

Let listing := AutoConnect.listCmd userInfo.

Lemma list_plain : plain listing.
Proof.
  apply plain_intro; intros Heq;
    unfold listing, AutoConnect.listCmd, AutoConnect.gatewayCmd in Heq;
    cbn [append] in Heq; discriminate Heq.
Qed.

Lemma approve_plain id : plain (AutoConnect.approveCmd userInfo id).
Proof.
  apply plain_intro; intros Heq;
    unfold AutoConnect.approveCmd, AutoConnect.gatewayCmd in Heq;
    cbn [append] in Heq; discriminate Heq.
Qed.

Lemma list_not_approval r : isApproval userInfo (EvExec listing r) = false.
Proof.
  unfold isApproval, listing, AutoConnect.listCmd. now rewrite prefix_app_cancel.
Qed.

Lemma approve_is_approval id r :
  isApproval userInfo (EvExec (AutoConnect.approveCmd userInfo id) r) = true.
Proof.
  unfold isApproval, AutoConnect.approveCmd. rewrite prefix_app_cancel.
  change (String.prefix ("approve " +:+ "") ("approve " +:+ id) = true).
  rewrite prefix_app_cancel. now destruct id.
Qed.

Lemma approve_not_list id : AutoConnect.approveCmd userInfo id <> listing.
Proof.
  intros Heq. pose proof (list_not_approval (Rejected "")) as H.
  rewrite <- Heq in H. now rewrite approve_is_approval in H.
Qed.

Lemma polling_approvals evs :
  Forall (pollingEvent userInfo) evs -> approvals userInfo evs = [].
Proof.
  induction 1 as [|ev evs Hev _ IH]; [reflexivity|].
  unfold approvals in *. cbn [List.filter].
  destruct Hev as [[r ->] | [ms ->]]; [fold listing; rewrite list_not_approval|]; exact IH.
Qed.

Lemma polling_beforeBrowser evs rest :
  Forall (pollingEvent userInfo) evs ->
  beforeBrowser (evs ++ rest) = evs ++ beforeBrowser rest.
Proof.
  induction 1 as [|ev evs Hev _ IH]; [reflexivity|].
  destruct Hev as [[r ->] | [ms ->]]; cbn [app beforeBrowser]; now rewrite IH.
Qed.

Lemma polling_afterBrowser evs rest :
  Forall (pollingEvent userInfo) evs ->
  afterBrowser (evs ++ rest) = afterBrowser rest.
Proof.
  induction 1 as [|ev evs Hev _ IH]; [reflexivity|].
  destruct Hev as [[r ->] | [ms ->]]; cbn [app afterBrowser]; exact IH.
Qed.

(** [getPendingRequests] never fails: it returns what its listing, if it
    got one, reported. *)
Lemma getPendingRequests_spec w :
  post (AutoConnect.getPendingRequests env userInfo) w
       (fun out w' =>
          connected w' = connected w /\ clock w' = clock w /\
          exists evs, log w' = log w ++ evs /\
                      Forall (pollingEvent userInfo) evs /\
                      out = Returned (observedAll userInfo evs) /\
                      (observedAll userInfo evs <> [] -> connected w = true)).
Proof.
  unfold AutoConnect.getPendingRequests. fold listing.
  apply post_try_catch, post_bind, post_ssh_exec_plain; [apply list_plain| | |].
  - intros Hoff. cbv beta iota delta [andThen]. apply post_ret.
    repeat split. exists []. rewrite app_nil_r. repeat split; auto.
  - intros Hon e He. cbv beta iota delta [andThen]. apply post_ret.
    repeat split. exists [EvExec listing (Rejected e)]. repeat split; auto.
    constructor; [left; unfold listing; eauto | constructor].
  - intros Hon r Hr. cbv beta iota delta [andThen].
    assert (Hobs : observedAll userInfo [EvExec listing (Resolved r)] =
                   if bool_decide (exitCode r = 0) then parsePending (stdout r) else []).
    { unfold observedAll. cbn [flat_map observed]. fold listing.
      rewrite bool_decide_eq_true_2 by reflexivity. cbn [andb]. apply app_nil_r. }
    destruct (bool_decide (exitCode r = 0)) eqn:Hcode; cbn [negb]; apply post_ret;
      (repeat split; exists [EvExec listing (Resolved r)]; repeat split; auto;
       [constructor; [left; unfold listing; eauto | constructor] | try now rewrite Hobs ..]).
Qed.

(** The loop of [waitForNewPairingRequest] only lists and sleeps, and the
    request it returns is the first one, in the order of observation, whose
    id is not among [B]. *)
Lemma waitLoop_spec B start timeout fuel : forall w,
  post (AutoConnect.waitLoop env fuel userInfo B start timeout) w
       (fun out w' =>
          connected w' = connected w /\
          exists evs found,
            log w' = log w ++ evs /\
            Forall (pollingEvent userInfo) evs /\
            out = Returned found /\
            AutoConnect.firstNew B (observedAll userInfo evs) = default None found /\
            (default None found <> None -> connected w = true)).
Proof.
  induction fuel as [|fuel IH]; intros w; cbn [AutoConnect.waitLoop].
  - apply post_ret. split; [reflexivity|]. exists [], None.
    rewrite app_nil_r. repeat split; auto.
  - apply post_bind. unfold post at 1, Date_now. cbn [fst snd andThen].
    set (w1 := mkWorld _ _ _ _).
    destruct (negb _).
    + apply post_ret. split; [reflexivity|]. exists [], (Some None).
      rewrite app_nil_r. repeat split; auto.
    + apply post_bind.
      eapply post_conseq; [apply getPendingRequests_spec|].
      intros out w2 (Hc & _ & evs & Hlog & Hpoll & -> & Hon). cbv beta iota delta [andThen].
      destruct (AutoConnect.firstNew B (observedAll userInfo evs)) as [req|] eqn:Hfirst.
      * apply post_ret. subst w1. cbn [connected log] in *.
        split; [exact Hc|]. exists evs, (Some (Some req)).
        repeat split; auto. intros _. apply Hon. intros Hnil. now rewrite Hnil in Hfirst.
      * apply post_bind. unfold post at 1, sleep. cbn [fst snd andThen].
        set (w3 := mkWorld _ _ _ _).
        eapply post_conseq; [apply IH|].
        intros out w4 (Hc4 & evs' & found & Hlog4 & Hpoll4 & -> & Hfirst4 & Hon4).
        subst w3 w1. cbn [connected log] in *.
        split; [rewrite Hc4; exact Hc|].
        exists (evs ++ EvSleep AutoConnect.pollInterval :: evs'), found.
        repeat split.
        -- rewrite Hlog4, Hlog. now rewrite <- !app_assoc.
        -- apply Forall_app. split; [exact Hpoll|].
           constructor; [right; eauto | exact Hpoll4].
        -- rewrite observedAll_app, firstNew_app, Hfirst. exact Hfirst4.
        -- intros Hfound. specialize (Hon4 Hfound). now rewrite <- Hc.
Qed.

(** The rounds given to the loop are never used up: it ends because the
    time is over or because a request was found. *)
Lemma waitLoop_rounds_suffice B start timeout fuel : forall w,
  (1 <= fuel)%nat ->
  AutoConnect.pollInterval * (Z.of_nat (AutoConnect.rounds timeout) - Z.of_nat fuel)
    <= clock w - start ->
  post (AutoConnect.waitLoop env fuel userInfo B start timeout) w
       (fun out _ => out <> Returned None).
Proof.
  induction fuel as [|fuel IH]; intros w Hfuel Hclock; [lia|].
  cbn [AutoConnect.waitLoop].
  apply post_bind. unfold post at 1, Date_now. cbn [fst snd andThen].
  set (now := Z.max (clock w) (now_reply env (log w))).
  set (w1 := mkWorld _ _ _ _).
  destruct (negb (Z.ltb (now - start) timeout)) eqn:Hover; [apply post_ret; discriminate|].
  apply negb_false_iff, Z.ltb_lt in Hover.
  apply post_bind.
  eapply post_conseq; [apply getPendingRequests_spec|].
  intros out w2 (_ & Hclock2 & evs & _ & _ & -> & _). cbv beta iota delta [andThen].
  destruct (AutoConnect.firstNew B (observedAll userInfo evs)); [apply post_ret; discriminate|].
  apply post_bind. unfold post at 1, sleep. cbn [fst snd andThen].
  assert (Hnow : clock w <= now) by (subst now; lia).
  assert (Hrounds : timeout < AutoConnect.pollInterval *
                              (Z.of_nat (AutoConnect.rounds timeout) - 1)).
  { unfold AutoConnect.rounds, AutoConnect.pollInterval.
    destruct (Z_lt_le_dec timeout 0) as [Hneg | Hpos].
    - assert (timeout / 2000 < 0) by (apply Z.div_lt_upper_bound; lia).
      rewrite Z2Nat.nonpos by lia. simpl. lia.
    - pose proof (Z.div_pos timeout 2000 Hpos ltac:(lia)).
      pose proof (Z.mod_pos_bound timeout 2000 ltac:(lia)).
      pose proof (Z.div_mod timeout 2000 ltac:(lia)).
      rewrite Nat2Z.inj_add, Z2Nat.id by lia. simpl Z.of_nat. lia. }
  apply IH.
  - destruct fuel; [|lia]. exfalso. simpl Z.of_nat in Hclock. lia.
  - cbn [clock]. rewrite Hclock2. subst w1. cbn [clock].
    unfold AutoConnect.pollInterval in *. lia.
Qed.

(** [waitForNewPairingRequest] returns the first request observed whose id
    is new, or [null] when the time is over without one. *)
Lemma waitForNewPairingRequest_spec B timeout w :
  post (AutoConnect.waitForNewPairingRequest env userInfo B timeout) w
       (fun out w' =>
          connected w' = connected w /\
          exists evs,
            log w' = log w ++ evs /\
            Forall (pollingEvent userInfo) evs /\
            out = Returned (AutoConnect.firstNew B (observedAll userInfo evs)) /\
            (AutoConnect.firstNew B (observedAll userInfo evs) <> None -> connected w = true)).
Proof.
  unfold AutoConnect.waitForNewPairingRequest.
  apply post_bind. unfold post at 1, Date_now. cbn [fst snd andThen].
  set (w1 := mkWorld _ _ _ _).
  apply post_bind.
  eapply post_conseq; [apply waitLoop_spec|].
  intros out w2 (Hc & evs & found & Hlog & Hpoll & -> & Hfirst & Hon).
  cbv beta iota delta [andThen]. apply post_ret.
  subst w1. cbn [connected log] in *.
  split; [exact Hc|]. exists evs. rewrite Hfirst. repeat split; auto.
Qed.

(** [approveDevice] never fails, and on a connected client it makes one
    approval call. *)
Lemma approveDevice_spec id w :
  connected w = true ->
  post (AutoConnect.approveDevice env userInfo id) w
       (fun out w' =>
          exists approved reply,
            out = Returned approved /\
            log w' = log w ++ [EvExec (AutoConnect.approveCmd userInfo id) reply]).
Proof.
  intros Hon. unfold AutoConnect.approveDevice.
  apply post_try_catch, post_bind, post_ssh_exec_plain; [apply approve_plain|congruence| |].
  - intros _ e _. cbv beta iota delta [andThen]. apply post_ret. eauto.
  - intros _ r _. cbv beta iota delta [andThen]. apply post_ret. eauto.
Qed.

Lemma waitForNewPairingRequest_rounds B timeout w :
  let w1 := snd (Date_now env w) in
  post (AutoConnect.waitLoop env (AutoConnect.rounds timeout) userInfo B (clock w1) timeout) w1
       (fun out _ => out <> Returned None).
Proof.
  intros w1. apply waitLoop_rounds_suffice.
  - unfold AutoConnect.rounds. lia.
  - unfold AutoConnect.pollInterval. lia.
Qed.

Lemma approve_not_observed id reply :
  observed userInfo (EvExec (AutoConnect.approveCmd userInfo id) reply) = [].
Proof.
  unfold observed. destruct reply; [|reflexivity].
  rewrite bool_decide_eq_false_2; [reflexivity|]. apply approve_not_list.
Qed.

Lemma firstNew_None B (l : list PairingRequest) :
  (forall req, In req l -> requestId req ∈ B) -> AutoConnect.firstNew B l = None.
Proof.
  intros Hall. unfold AutoConnect.firstNew.
  destruct (find _ l) as [req|] eqn:Hfind; [|reflexivity].
  apply find_some in Hfind as [Hin Hnew]. apply negb_true_iff, bool_decide_eq_false in Hnew.
  now destruct Hnew; apply Hall.
Qed.

Lemma firstNew_Some B (l : list PairingRequest) req :
  In req l -> requestId req ∉ B -> exists first, AutoConnect.firstNew B l = Some first.
Proof.
  intros Hin Hnew. unfold AutoConnect.firstNew.
  destruct (find _ l) as [first|] eqn:Hfind; [eauto|].
  apply (find_none _ _ Hfind) in Hin. apply negb_false_iff, bool_decide_eq_true in Hin.
  contradiction.
Qed.

(** What [autoConnect] does with approvals, for the events [evs] of a run:
    one approval, of the first new request seen in the polling window, or
    none when no request seen there is new. *)
Lemma autoConnect_spec sshConfig p w :
  post (AutoConnect.autoConnect env sshConfig userInfo p) w
       (fun out w' =>
          exists evs, log w' = log w ++ evs /\
            match AutoConnect.firstNew (baselineIds userInfo evs)
                                       (observedAll userInfo (afterBrowser evs)) with
            | Some first =>
                exists reply,
                  approvals userInfo evs =
                  [EvExec (AutoConnect.approveCmd userInfo (requestId first)) reply]
            | None => approvals userInfo evs = []
            end).
Proof.
  unfold AutoConnect.autoConnect.
  apply post_bind. unfold post at 1, AutoConnect.promptAutoConnect. cbn [fst snd andThen].
  set (answer := prompt_reply env (log w)). set (w1 := record (EvPrompt answer) w).
  destruct (negb (negb _)).
  { apply post_ret. exists [EvPrompt answer]. split; [reflexivity|]. reflexivity. }
  apply post_bind. eapply post_conseq; [apply getPendingRequests_spec|].
  intros out w2 (Hc2 & _ & evs0 & Hlog2 & Hpoll0 & -> & _). cbv beta iota delta [andThen].
  set (B := list_to_set (map requestId (observedAll userInfo evs0)) : gset string).
  apply post_bind. unfold post at 1, emit. cbn [fst snd andThen].
  apply post_bind. unfold post at 1, sleep. cbn [fst snd andThen].
  apply post_bind. unfold post at 1, AutoConnect.tunnelExited. cbn [fst snd andThen].
  set (w3 := mkWorld _ _ _ _).
  assert (Hlog3 : log w3 = log w ++ EvPrompt answer :: evs0 ++
                           [EvSpawnTunnel sshConfig p; EvSleep 2000]).
  { subst w3 w1. cbn [log record] in *. rewrite Hlog2. rewrite <- !app_assoc. reflexivity. }
  assert (Hc3 : connected w3 = connected w) by (subst w3 w1; cbn [connected record] in *; auto).
  clearbody w3. clear Hlog2 Hc2 w2.
  destruct (tunnelExited_reply env (log w3)).
  { apply post_ret. eexists. split; [exact Hlog3|].
    assert (Hafter : afterBrowser (EvPrompt answer :: evs0 ++
                                   [EvSpawnTunnel sshConfig p; EvSleep 2000]) = []).
    { cbn [afterBrowser]. now rewrite polling_afterBrowser by assumption. }
    assert (Happ0 : approvals userInfo (EvPrompt answer :: evs0 ++
                                        [EvSpawnTunnel sshConfig p; EvSleep 2000]) = []).
    { rewrite approvals_cons. cbn [isApproval app].
      now rewrite approvals_app, polling_approvals by assumption. }
    rewrite Hafter, Happ0. reflexivity. }
  apply post_bind. unfold post at 1, emit. cbn [fst snd andThen].
  set (url := "http://localhost:" +:+ pretty p).
  apply post_bind. eapply post_conseq; [apply waitForNewPairingRequest_spec|].
  intros out w4 (Hc4 & polls & Hlog4 & Hpolls & -> & Hon). cbv beta iota delta [andThen].
  cbn [connected log record] in Hc4, Hlog4, Hon. rewrite Hlog3 in Hlog4.
  assert (Hshape : forall tail,
            baselineIds userInfo (EvPrompt answer :: evs0 ++
              [EvSpawnTunnel sshConfig p; EvSleep 2000; EvOpenBrowser url] ++ polls ++ tail) = B
            /\ afterBrowser (EvPrompt answer :: evs0 ++
              [EvSpawnTunnel sshConfig p; EvSleep 2000; EvOpenBrowser url] ++ polls ++ tail)
                = polls ++ tail).
  { intros tail. unfold baselineIds. cbn [afterBrowser beforeBrowser].
    rewrite polling_afterBrowser, polling_beforeBrowser by assumption.
    cbn [app afterBrowser beforeBrowser]. split; [|reflexivity].
    rewrite observedAll_cons, observedAll_app. cbn [observed app].
    rewrite !observedAll_cons. cbn [observed observedAll flat_map app].
    rewrite app_nil_r. reflexivity. }
  assert (Happ : forall tail,
            approvals userInfo (EvPrompt answer :: evs0 ++
              [EvSpawnTunnel sshConfig p; EvSleep 2000; EvOpenBrowser url] ++ polls ++ tail)
            = approvals userInfo tail).
  { intros tail. rewrite approvals_cons. cbn [isApproval app].
    rewrite approvals_app, (polling_approvals evs0) by assumption.
    cbn [app]. rewrite !approvals_cons. cbn [isApproval app].
    now rewrite approvals_app, (polling_approvals polls) by assumption. }
  destruct (AutoConnect.firstNew B (observedAll userInfo polls)) as [first|] eqn:Hfirst.
  - apply post_bind. eapply post_conseq; [apply approveDevice_spec|].
    + rewrite Hc4. rewrite Hc3 in Hon. rewrite Hc3. now apply Hon.
    + intros out w5 (approved & reply & -> & Hlog5). cbv beta iota delta [andThen].
      unfold AutoConnect.waitForExit.
      apply post_bind. unfold post at 1, emit. cbn [fst snd andThen].
      unfold post, emit. cbn [fst snd].
      exists (EvPrompt answer :: evs0 ++
              [EvSpawnTunnel sshConfig p; EvSleep 2000; EvOpenBrowser url] ++ polls ++
              [EvExec (AutoConnect.approveCmd userInfo (requestId first)) reply;
               EvInterrupt; EvKillTunnel]).
      split.
      * cbn [log record]. rewrite Hlog5, Hlog4. rewrite <- !app_assoc. cbn [app].
        rewrite <- !app_assoc. reflexivity.
      * destruct (Hshape [EvExec (AutoConnect.approveCmd userInfo (requestId first)) reply;
                          EvInterrupt; EvKillTunnel]) as [-> ->].
        rewrite Happ, observedAll_app, !observedAll_cons, approve_not_observed.
        cbn [observed observedAll flat_map app]. rewrite app_nil_r, Hfirst.
        exists reply. rewrite !approvals_cons, approve_is_approval. reflexivity.
  - unfold post, emit. cbn [fst snd].
    exists (EvPrompt answer :: evs0 ++
            [EvSpawnTunnel sshConfig p; EvSleep 2000; EvOpenBrowser url] ++ polls ++
            [EvKillTunnel]).
    split.
    + cbn [log record]. rewrite Hlog4. rewrite <- !app_assoc. cbn [app].
      rewrite <- !app_assoc. reflexivity.
    + destruct (Hshape [EvKillTunnel]) as [-> ->].
      rewrite Happ, observedAll_app, observedAll_cons.
      cbn [observed observedAll flat_map app]. rewrite app_nil_r, Hfirst. reflexivity.
Qed.

(** C7 (amended). Let [B] be the ids of the snapshot taken at the start
    and [seen] the requests that the polls of the 60-second window
    reported, in order. If some request seen has an id outside [B], the
    automation makes exactly one approval call, and it targets the first
    such request (so that request itself when it is the only new one). If
    every request seen has its id in [B], it makes no approval call. *)
Theorem autoConnect_approves_first_new_request sshConfig p w out w' :
  AutoConnect.autoConnect env sshConfig userInfo p w = (out, w') ->
  exists evs, log w' = log w ++ evs /\
    let B := baselineIds userInfo evs in
    let seen := observedAll userInfo (afterBrowser evs) in
    (forall req, In req seen -> requestId req ∉ B ->
       exists first reply,
         AutoConnect.firstNew B seen = Some first /\
         In first seen /\ (requestId first ∉ B) /\
         approvals userInfo evs =
         [EvExec (AutoConnect.approveCmd userInfo (requestId first)) reply]) /\
    ((forall req, In req seen -> requestId req ∈ B) -> approvals userInfo evs = []).
Proof.
  intros Hrun.
  destruct (post_run _ _ _ _ _ (autoConnect_spec sshConfig p w) Hrun) as (evs & Hlog & Happ).
  exists evs. split; [exact Hlog|]. cbv zeta. split.
  - intros req Hin Hnew.
    destruct (firstNew_Some _ _ _ Hin Hnew) as [first Hfirst].
    rewrite Hfirst in Happ. destruct Happ as [reply Happ].
    exists first, reply. repeat split; auto.
    + unfold AutoConnect.firstNew in Hfirst. now apply find_some in Hfirst.
    + unfold AutoConnect.firstNew in Hfirst. apply find_some in Hfirst as [_ H].
      now apply negb_true_iff, bool_decide_eq_false in H.
  - intros Hall. now rewrite (firstNew_None _ _ Hall) in Happ.
Qed.

End AutoConnectFacts.

(** ** The remote state file (lib/state.ts) *)

Section StateFacts.

Variable env : Env.
Variable JSON_stringify : DeploymentState -> string.
Variable JSON_parse : string -> option DeploymentState.

Abbreviation loadState := (State.loadState env JSON_parse).
Abbreviation updateState := (State.updateState env JSON_stringify JSON_parse).
Abbreviation detectPartialDeployment := (State.detectPartialDeployment env JSON_parse).

Lemma host_exec_cat r w :
  host_exec CAT_STATE r w =
  (cat_result (stateFile w), record (EvExec CAT_STATE (Resolved (cat_result (stateFile w)))) w).
Proof. reflexivity. Qed.

Lemma loaded_off w : connected w = false -> loaded env JSON_parse w = None.
Proof. unfold loaded. now intros ->. Qed.

Lemma loaded_rejected w e :
  exec_reply env (log w) CAT_STATE = Rejected e -> loaded env JSON_parse w = None.
Proof. unfold loaded. intros ->. now destruct (connected w). Qed.

Lemma loaded_on w r :
  connected w = true -> exec_reply env (log w) CAT_STATE = Resolved r ->
  loaded env JSON_parse w = stateFile w ≫= JSON_parse.
Proof. unfold loaded. now intros -> ->. Qed.

Lemma loadState_spec w :
  post loadState w
       (fun out w' =>
          out = Returned (loaded env JSON_parse w) /\
          connected w' = connected w /\ stateFile w' = stateFile w /\
          exists evs, log w' = log w ++ evs /\ Forall stateEvent evs /\
                      (connected w = true -> evs <> [])).
Proof.
  unfold State.loadState. fold CAT_STATE.
  apply post_try_catch, post_bind, post_ssh_exec.
  - intros Hoff. cbv beta iota delta [andThen]. apply post_ret. rewrite loaded_off by assumption.
    repeat split. exists []. rewrite app_nil_r. repeat split; [constructor|congruence].
  - intros Hon e He. cbv beta iota delta [andThen]. apply post_ret.
    rewrite (loaded_rejected _ _ He).
    repeat split. exists [EvExec CAT_STATE (Rejected e)]. repeat split; [|discriminate].
    constructor; [now left|constructor].
  - intros Hon r Hr. rewrite host_exec_cat. cbn [fst snd]. cbv beta iota delta [andThen].
    rewrite (loaded_on _ _ Hon Hr).
    assert (Hev : forall w1, w1 = record (EvExec CAT_STATE (Resolved (cat_result (stateFile w)))) w ->
              connected w1 = connected w /\ stateFile w1 = stateFile w /\
              exists evs, log w1 = log w ++ evs /\ Forall stateEvent evs /\
                          (connected w = true -> evs <> [])).
    { intros w1 ->. repeat split.
      exists [EvExec CAT_STATE (Resolved (cat_result (stateFile w)))].
      repeat split; [|discriminate].
      constructor; [now left|constructor]. }
    destruct (stateFile w) as [text|] eqn:Hfile; cbn [cat_result exitCode stdout].
    + rewrite bool_decide_eq_true_2 by reflexivity. cbn [negb mbind option_bind].
      destruct (JSON_parse text) as [st|].
      * apply post_ret. split; [reflexivity|]. now apply Hev.
      * apply post_throw, post_ret. split; [reflexivity|]. now apply Hev.
    + rewrite bool_decide_eq_false_2 by discriminate. cbn [negb]. apply post_ret.
      split; [reflexivity|]. now apply Hev.
Qed.

(** C6. When the state file cannot be used (the read is rejected, the
    file is absent so that the read exits with 1, or its text is not valid
    JSON), [loadState] returns [null] and does not raise; so does
    [detectPartialDeployment], the run has no existing state, and every
    phase is due as on a fresh host. *)
Theorem loadState_unreadable_is_no_state w :
  unreadable env JSON_parse w ->
  fst (loadState w) = Returned None /\
  fst (detectPartialDeployment w) = Returned None /\
  (forall config,
     fst (Deploy.resolveExistingState env JSON_parse config w) = Returned None) /\
  (forall n, Deploy.mustRun None n = true).
Proof.
  intros Hbad.
  assert (Hnone : loaded env JSON_parse w = None).
  { unfold loaded. destruct (connected w); [|reflexivity].
    destruct Hbad as [[e ->] | [Hfile | (text & Hfile & Hparse)]]; [reflexivity| |];
      rewrite Hfile; destruct (exec_reply _ _ _); cbn; auto. }
  pose proof (loadState_spec w) as Hload. unfold post in Hload.
  rewrite Hnone in Hload. destruct Hload as (Hout & _).
  assert (Hdetect : fst (detectPartialDeployment w) = Returned None).
  { unfold State.detectPartialDeployment, bind.
    destruct (loadState w) as [out w1]. cbn [fst] in Hout. now subst out. }
  repeat split; auto.
  intros config. unfold Deploy.resolveExistingState, bind.
  destruct (detectPartialDeployment w) as [out w1]. cbn [fst] in Hdetect. now subst out.
Qed.

(** How [updateState] ends, from what [loadState] finds. *)
Lemma updateState_spec n s w :
  post (updateState n s) w
       (fun out w' =>
          connected w' = connected w /\
          (exists evs, log w' = log w ++ evs /\ Forall stateEvent evs) /\
          match loaded env JSON_parse w with
          | None => out = Returned tt /\ stateFile w' = stateFile w
          | Some prev =>
              let content := JSON_stringify (State.setPhase prev n s) in
              match uploadContent_reply env
                      (log w ++ [EvExec CAT_STATE (Resolved (cat_result (stateFile w)))])
                      content STATE_FILE with
              | Resolved _ => out = Returned tt /\ stateFile w' = Some content
              | Rejected e => out = Thrown e /\ stateFile w' = stateFile w
              end
          end).
Proof.
  unfold State.updateState. apply post_bind.
  unfold post at 1, andThen.
  destruct (loadState w) as [out w1] eqn:Hrun.
  pose proof (post_run _ _ _ _ _ (loadState_spec w) Hrun)
    as (-> & Hc1 & Hf1 & evs1 & Hlog1 & Hev1 & _).
  cbn [fst snd].
  destruct (loaded env JSON_parse w) as [prev|] eqn:Hloaded.
  - assert (Hon : connected w = true).
    { unfold loaded in Hloaded. now destruct (connected w). }
    assert (Hlog1' : log w1 = log w ++ [EvExec CAT_STATE (Resolved (cat_result (stateFile w)))]).
    { unfold State.loadState, try_catch, bind, ssh_exec in Hrun. fold CAT_STATE in Hrun.
      rewrite Hon in Hrun. cbn [negb] in Hrun.
      unfold loaded in Hloaded. rewrite Hon in Hloaded.
      destruct (exec_reply env (log w) CAT_STATE); [|discriminate].
      rewrite host_exec_cat in Hrun.
      destruct (negb _); [now inversion Hrun|].
      destruct (JSON_parse _); now inversion Hrun. }
    cbv zeta. rewrite <- Hlog1'.
    apply post_ssh_uploadContent.
    + intros Hoff. congruence.
    + intros _ e ->. repeat split; auto.
      exists (evs1 ++ [EvUpload (JSON_stringify (State.setPhase prev n s)) STATE_FILE (Rejected e)]).
      cbn [log record]. rewrite Hlog1, <- app_assoc. split; [reflexivity|].
      apply Forall_app. split; [exact Hev1|]. constructor; [reflexivity|constructor].
    + intros _ ->. unfold host_upload. cbn [connected stateFile log].
      rewrite bool_decide_eq_true_2 by reflexivity. repeat split; auto.
      exists (evs1 ++ [EvUpload (JSON_stringify (State.setPhase prev n s)) STATE_FILE (Resolved tt)]).
      rewrite Hlog1, <- app_assoc. split; [reflexivity|].
      apply Forall_app. split; [exact Hev1|]. constructor; [reflexivity|constructor].
  - apply post_ret. repeat split; eauto.
Qed.

(** C10. When the persisted state loads as [S] and the host accepts the
    write, [updateState n s] leaves in the state file the serialisation
    of a state that has [phases[n] = s] and [lastPhase = n] and is equal
    to [S] in everything else: instance name, deployment id, start time,
    metadata, and the status of every phase other than [n]. *)
Theorem updateState_changes_only_phase n s w (S : DeploymentState) :
  loaded env JSON_parse w = Some S ->
  uploadContent_reply env
    (log w ++ [EvExec CAT_STATE (Resolved (cat_result (stateFile w)))])
    (JSON_stringify (State.setPhase S n s)) STATE_FILE = Resolved tt ->
  fst (updateState n s w) = Returned tt /\
  exists S',
    stateFile (snd (updateState n s w)) = Some (JSON_stringify S') /\
    phases S' !! n = Some s /\ lastPhase S' = n /\
    instanceName S' = instanceName S /\ deploymentId S' = deploymentId S /\
    startedAt S' = startedAt S /\ metadata S' = metadata S /\
    (forall k, k <> n -> phases S' !! k = phases S !! k).
Proof.
  intros Hloaded Hupload.
  pose proof (updateState_spec n s w) as Hspec. unfold post in Hspec.
  rewrite Hloaded in Hspec. cbv zeta in Hspec. rewrite Hupload in Hspec.
  destruct Hspec as (_ & _ & Hout & Hfile). split; [exact Hout|].
  exists (State.setPhase S n s). split; [exact Hfile|]. cbn.
  repeat split; auto.
  - apply lookup_insert_eq.
  - intros k Hk. now apply lookup_insert_ne.
Qed.

End StateFacts.

(** ** The phase state machine (commands/deploy.ts) *)

(** *** Inert computations *)

Lemma inertPost_none {A} (out : Outcome A) w :
  (forall c, out <> Exited c) -> inertPost w out w.
Proof. intros Hx. repeat split; auto. exists []. now rewrite app_nil_r. Qed.

Lemma inertPost_one {A} (out : Outcome A) ev w :
  ioEvent ev -> (forall c, out <> Exited c) -> inertPost w out (record ev w).
Proof.
  intros Hev Hx. repeat split; auto. exists [ev]. split; [reflexivity|].
  constructor; [exact Hev|constructor].
Qed.

Lemma inertPost_trans {A B} w w1 w2 (out1 : Outcome A) (out2 : Outcome B) :
  inertPost w out1 w1 -> inertPost w1 out2 w2 -> inertPost w out2 w2.
Proof.
  intros (Hc & Hf & _ & evs1 & Hl1 & He1) (Hc2 & Hf2 & Hx & evs2 & Hl2 & He2).
  repeat split; try congruence.
  exists (evs1 ++ evs2). rewrite Hl2, Hl1, app_assoc. split; [reflexivity|].
  now apply Forall_app.
Qed.

Lemma inert_ret {A} (a : A) : inert (ret a).
Proof. intros w. apply post_ret, inertPost_none. discriminate. Qed.

Lemma inert_throw {A} e : inert (@throw A e).
Proof. intros w. apply post_throw, inertPost_none. discriminate. Qed.

Lemma inert_bind {A B} (m : M A) (k : A -> M B) :
  inert m -> (forall a, inert (k a)) -> inert (bind m k).
Proof.
  intros Hm Hk w. apply post_bind. eapply post_conseq; [apply Hm|].
  intros [a | e | c] w1 H1; cbn [andThen].
  - eapply post_conseq; [apply Hk|]. intros out w2 H2. exact (inertPost_trans _ _ _ _ _ H1 H2).
  - destruct H1 as (Hc & Hf & _ & Hev). repeat split; auto.
  - destruct H1 as (_ & _ & Hx & _). now destruct (Hx c).
Qed.

Lemma inert_try_catch {A} (body : M A) handler :
  inert body -> (forall e, inert (handler e)) -> inert (try_catch body handler).
Proof.
  intros Hm Hk w. apply post_try_catch. eapply post_conseq; [apply Hm|].
  intros [a | e | c] w1 H1; try exact H1.
  eapply post_conseq; [apply Hk|]. intros out w2 H2. exact (inertPost_trans _ _ _ _ _ H1 H2).
Qed.

Section InertFacts.

Variable env : Env.

Lemma inert_ssh_exec command : plain command -> inert (ssh_exec env command).
Proof.
  intros Hp w. apply post_ssh_exec_plain; [exact Hp| | |]; intros.
  - apply inertPost_none. discriminate.
  - apply inertPost_one; [exact I|discriminate].
  - apply inertPost_one; [exact I|discriminate].
Qed.

Lemma inert_ssh_execStream command : inert (ssh_execStream env command).
Proof.
  intros w. apply post_ssh_execStream; intros.
  - apply inertPost_none. discriminate.
  - apply inertPost_one; [exact I|discriminate].
  - apply inertPost_one; [exact I|discriminate].
Qed.

Lemma inert_ssh_execInteractive command : inert (ssh_execInteractive env command).
Proof.
  intros w. apply post_ssh_execInteractive; intros.
  - apply inertPost_none. discriminate.
  - apply inertPost_one; [exact I|]. now destruct (execInteractive_reply _ _ _).
Qed.

Lemma inert_await {A} (reply : list Event -> Reply A) : inert (await reply).
Proof. intros w. apply post_await; intros; apply inertPost_none; discriminate. Qed.

Lemma inert_extern a : inert (extern env a).
Proof. apply inert_await. Qed.

Lemma inert_emit ev : ioEvent ev -> inert (emit ev).
Proof. intros Hev w. apply inertPost_one; [exact Hev|discriminate]. Qed.

Lemma inert_sleep ms : inert (sleep ms).
Proof.
  intros w. unfold post, sleep. cbn [fst snd].
  repeat split; [discriminate|]. exists [EvSleep ms]. split; [reflexivity|].
  constructor; [exact I|constructor].
Qed.

Lemma inert_Date_now : inert (Date_now env).
Proof.
  intros w. unfold post, Date_now. cbn [fst snd].
  repeat split; [discriminate|]. exists []. cbn [log]. now rewrite app_nil_r.
Qed.

End InertFacts.

Ltac inert_step :=
  first
    [ apply inert_ret | apply inert_throw
    | apply inert_bind; [|intros ?]
    | apply inert_try_catch; [|intros ?]
    | apply inert_ssh_execStream | apply inert_ssh_execInteractive
    | apply inert_await | apply inert_extern | apply inert_sleep | apply inert_Date_now
    | apply inert_emit; exact I
    | match goal with |- inert (if ?b then _ else _) => destruct b end
    | match goal with |- inert (match ?x with _ => _ end) => destruct x end ].

Section InertBodies.

Variable env : Env.

Lemma inert_buildImage userInfo br : inert (ImageBuilder.buildImage env userInfo br).
Proof.
  unfold ImageBuilder.buildImage, ImageBuilder.rebuild, ImageBuilder.checkImageExists,
    ImageBuilder.verifyImage, ImageBuilder.checkRepoExists.
  repeat first
    [ inert_step
    | apply inert_ssh_exec;
      first [apply images_plain | apply verify_plain | apply rmi_plain | apply repo_plain] ].
Qed.

Lemma inert_runOnboarding userInfo skip : inert (Interactive.runOnboarding env userInfo skip).
Proof.
  unfold Interactive.runOnboarding, Interactive.checkOnboardingComplete.
  repeat first [inert_step | apply inert_ssh_exec; apply markerCmd_plain].
Qed.

Lemma inert_getPendingRequests userInfo : inert (AutoConnect.getPendingRequests env userInfo).
Proof.
  unfold AutoConnect.getPendingRequests.
  repeat first [inert_step | apply inert_ssh_exec; apply list_plain].
Qed.

Lemma inert_waitLoop userInfo B start timeout fuel :
  inert (AutoConnect.waitLoop env fuel userInfo B start timeout).
Proof.
  induction fuel as [|fuel IH]; cbn [AutoConnect.waitLoop].
  - apply inert_ret.
  - repeat first [exact IH | apply inert_getPendingRequests | inert_step].
Qed.

Lemma inert_autoConnect sshConfig userInfo p :
  inert (AutoConnect.autoConnect env sshConfig userInfo p).
Proof.
  unfold AutoConnect.autoConnect, AutoConnect.waitForNewPairingRequest,
    AutoConnect.approveDevice, AutoConnect.waitForExit.
  apply inert_bind.
  { intros w. unfold AutoConnect.promptAutoConnect, post. cbn [fst snd].
    apply inertPost_one; [exact I|discriminate]. }
  intros shouldConnect.
  repeat first
    [ apply inert_getPendingRequests | apply inert_waitLoop
    | apply inert_ssh_exec; apply approve_plain
    | intros w; unfold AutoConnect.tunnelExited, post; cbn [fst snd];
      apply inertPost_none; discriminate
    | inert_step ].
Qed.

End InertBodies.

(** *** The blocks of the phases *)

Lemma stateEvent_io ev : stateEvent ev -> ioEvent ev.
Proof. now destruct ev. Qed.

Lemma segment_io ex m file ev : ioEvent ev -> segmentEvent ex m file ev.
Proof. now destruct ev. Qed.

Lemma Forall_segment_io ex m file evs :
  Forall ioEvent evs -> Forall (segmentEvent ex m file) evs.
Proof. apply List.Forall_impl, segment_io. Qed.

Lemma io_not_done evs b ok : Forall ioEvent evs -> ~ In (EvDone b ok) evs.
Proof. intros Hio Hin. rewrite List.Forall_forall in Hio. exact (Hio _ Hin). Qed.

Lemma io_not_call evs a snap : Forall ioEvent evs -> ~ In (EvCall a snap) evs.
Proof. intros Hio Hin. rewrite List.Forall_forall in Hio. exact (Hio _ Hin). Qed.

Section CallFacts.

Variable env : Env.

(** A call whose body is inert adds its entry, the events of the body and
    its exit, and changes nothing else. *)
Lemma call_inert {A} a (body : M A) w :
  inert body ->
  post (call a body) w
       (fun out w' =>
          connected w' = connected w /\ stateFile w' = stateFile w /\
          exists evs ok,
            log w' = log w ++ EvCall a (stateFile w) :: evs ++ [EvDone a ok] /\
            Forall ioEvent evs /\
            match out with
            | Returned _ => ok = true
            | Thrown _ => ok = false
            | Exited _ => False
            end).
Proof.
  intros Hbody. apply post_call. eapply post_conseq; [apply Hbody|].
  intros out w1 (Hc & Hf & Hx & evs & Hlog & Hio). cbn [connected stateFile log record] in *.
  destruct out as [x | e | c].
  - repeat split; auto. exists evs, true. rewrite Hlog, <- !app_assoc. auto.
  - repeat split; auto. exists evs, false. rewrite Hlog, <- !app_assoc. auto.
  - now destruct (Hx c).
Qed.

End CallFacts.

(** Equations between lists built from [++] and [::]. *)
Ltac list_eq := repeat first [rewrite <- app_assoc | progress cbn [app]]; reflexivity.

Lemma in_block (ev : Event) a snap evs1 ok evs2 :
  In ev (EvCall a snap :: evs1 ++ EvDone a ok :: evs2) ->
  ev = EvCall a snap \/ In ev evs1 \/ ev = EvDone a ok \/ In ev evs2.
Proof.
  intros [<- | Hin]; [now left|]. apply in_app_or in Hin as [Hin | [<- | Hin]]; auto.
Qed.

Lemma stopGateway_plain u : plain (Deploy.stopGatewayCmd u).
Proof.
  apply plain_intro; intros Heq; unfold Deploy.stopGatewayCmd in Heq;
    cbn [append] in Heq; discriminate Heq.
Qed.

Lemma host_exec_log command r w :
  connected (snd (host_exec command r w)) = connected w /\
  log (snd (host_exec command r w)) =
  log w ++ [EvExec command (Resolved (fst (host_exec command r w)))].
Proof.
  unfold host_exec. destruct (reads_state_file command); [now split|].
  destruct (_ && _); now split.
Qed.

Section Resume.

Variable env : Env.
Variable JSON_parse : string -> option DeploymentState.

Lemma loaded_loadable w st :
  loaded env JSON_parse w = Some st -> loadableFile JSON_parse (stateFile w).
Proof.
  unfold loaded. destruct (connected w); [|discriminate].
  destruct (exec_reply env (log w) CAT_STATE); [|discriminate].
  destruct (stateFile w) as [text|]; [|discriminate]. cbn [mbind option_bind].
  intros Hparse. now exists text, st.
Qed.

Lemma ready_fresh w : connected w = true -> ready JSON_parse None 2 w.
Proof. intros Hon. split; [exact Hon|]. intros [H | H]; [discriminate H | lia]. Qed.

(** The state that the run resumes from is the one that the state file
    held, and the phases start in a world that is ready for them. *)
Lemma resolveExistingState_spec config w0 :
  connected w0 = true ->
  post (Deploy.resolveExistingState env JSON_parse config) w0
       (fun out w => forall found, out = Returned found ->
          ready JSON_parse found 2 w /\
          (forall st, found = Some st -> loaded env JSON_parse w0 = Some st)).
Proof.
  intros Hon. unfold Deploy.resolveExistingState, State.detectPartialDeployment.
  apply post_bind, post_bind. eapply post_conseq; [apply loadState_spec|].
  intros out w1 (-> & Hc & Hf & _). cbn [andThen].
  assert (Hfresh : forall w, connected w = true ->
            post (ret (@None DeploymentState)) w
                 (andThen (fun existingState : option DeploymentState =>
                             if Deploy.isSome existingState && force config
                             then bind (State.deleteState env) (fun _ => ret None)
                             else ret existingState)
                          (fun out w2 => forall found, out = Returned found ->
                             ready JSON_parse found 2 w2 /\
                             (forall st, found = Some st ->
                                loaded env JSON_parse w0 = Some st)))).
  { intros w Hw. apply post_ret. cbn [andThen Deploy.isSome andb]. apply post_ret.
    intros found [= <-]. split; [now apply ready_fresh | discriminate]. }
  destruct (loaded env JSON_parse w0) as [st|] eqn:Hloaded; [|apply Hfresh; congruence].
  destruct (_ || _); [|apply Hfresh; congruence].
  apply post_ret. cbn [andThen Deploy.isSome andb]. destruct (force config).
  - unfold State.deleteState. apply post_bind, post_bind, post_ssh_exec.
    + intros _ found Hfound. discriminate Hfound.
    + intros _ e _ found Hfound. discriminate Hfound.
    + intros _ r _. destruct (host_exec_log ("rm -f " +:+ STATE_FILE) r w1) as [Hc2 _].
      cbn [andThen]. apply post_ret. cbn [andThen]. apply post_ret.
      intros found [= <-]. split; [apply ready_fresh; congruence | discriminate].
  - apply post_ret. intros found [= <-]. split.
    + split; [congruence|]. intros _. rewrite Hf. now apply loaded_loadable with st.
    + now intros st' [= <-].
Qed.

End Resume.

Section Blocks.

Variable env : Env.
Variable JSON_stringify : DeploymentState -> string.
Variable JSON_parse : string -> option DeploymentState.

(** The host answers the reads of the state file, and what
    [JSON.stringify] writes [JSON.parse] reads back. *)
Hypothesis Hcat : forall events, exists r, exec_reply env events CAT_STATE = Resolved r.
Hypothesis Hround : forall st, JSON_parse (JSON_stringify st) = Some st.

Variable ex : option DeploymentState.

Abbreviation updateState := (State.updateState env JSON_stringify JSON_parse).
Abbreviation createState := (State.createState env JSON_stringify).

(** An inert call within the block of phase [m], followed by the rest of
    the block. *)
Lemma tail_call {A B} m file a (body : M A) (rest : A -> M B) w :
  stateFile w = file ->
  (forall u eu, actionUser a = Some u -> expectedUser ex = Some eu -> u = eu) ->
  (phaseOf a = None \/
   (phaseOf a = Some m /\ (guardedPhase m -> Deploy.mustRun ex m = true))) ->
  inert body ->
  (forall x w1, connected w1 = connected w -> stateFile w1 = file ->
                post (rest x) w1 (tailOK JSON_parse ex m file w1)) ->
  post (bind (call a body) rest) w
       (fun out w' =>
          exists evs, segmentOK JSON_parse ex m file w out w' evs /\
                      In (EvCall a (stateFile w)) evs).
Proof.
  intros Hf Huser Hphase Hbody Hrest.
  apply post_bind. eapply post_conseq; [apply call_inert, Hbody|].
  intros out w1 (Hc1 & Hf1 & evs1 & ok & Hlog1 & Hio1 & Hok).
  assert (Hcall : segmentEvent ex m file (EvCall a (stateFile w))).
  { split; [exact Huser|]. destruct Hphase as [Hn | [Hm Hg]]; [now left|right]. now rewrite Hf. }
  assert (Hdone : forall ok, segmentEvent ex m file (EvDone a ok)).
  { intros ?. cbn. destruct Hphase as [Hn | [Hm Hg]]; auto. }
  destruct out as [x | e | c]; cbn [andThen]; [ | | contradiction].
  - subst ok. eapply post_conseq; [apply Hrest; congruence|].
    intros out2 w2 (evs2 & Hc2 & Hx2 & Hlog2 & Hseg2 & Hfail2 & Hret2).
    exists (EvCall a (stateFile w) :: evs1 ++ EvDone a true :: evs2).
    split; [|now left].
    split; [congruence|]. split; [exact Hx2|].
    split; [rewrite Hlog2, Hlog1; list_eq|].
    split.
    { constructor; [exact Hcall|]. apply Forall_app. split; [now apply Forall_segment_io|].
      constructor; [apply Hdone|exact Hseg2]. }
    split.
    { intros b Hin. apply in_block in Hin as [Hin | [Hin | [Hin | Hin]]];
        [discriminate | now apply io_not_done in Hin | discriminate | exact (Hfail2 _ Hin)]. }
    intros Hret. destruct (Hret2 Hret) as [Hno Hstep]. split; [|exact Hstep].
    intros b Hin. apply in_block in Hin as [Hin | [Hin | [Hin | Hin]]];
      [discriminate | now apply io_not_done in Hin | discriminate | exact (Hno _ Hin)].
  - subst ok. exists (EvCall a (stateFile w) :: evs1 ++ [EvDone a false]).
    split; [|now left].
    split; [exact Hc1|]. split; [discriminate|]. split; [exact Hlog1|].
    split.
    { constructor; [exact Hcall|]. apply Forall_app. split; [now apply Forall_segment_io|].
      constructor; [apply Hdone|constructor]. }
    split; [intros b _; split; [eauto | congruence]|].
    intros [x Hx]. discriminate Hx.
Qed.

(** An inert computation within the block of phase [m], followed by the
    rest of the block. *)
Lemma tail_inert {A B} m file (first : M A) (rest : A -> M B) w :
  stateFile w = file ->
  inert first ->
  (forall x w1, connected w1 = connected w -> stateFile w1 = file ->
                post (rest x) w1 (tailOK JSON_parse ex m file w1)) ->
  post (bind first rest) w (tailOK JSON_parse ex m file w).
Proof.
  intros Hf Hfirst Hrest.
  apply post_bind. eapply post_conseq; [apply Hfirst|].
  intros out w1 (Hc1 & Hf1 & Hx1 & evs1 & Hlog1 & Hio1).
  destruct out as [x | e | c]; cbn [andThen]; [ | | now destruct (Hx1 c)].
  - eapply post_conseq; [apply Hrest; congruence|].
    intros out2 w2 (evs2 & Hc2 & Hx2 & Hlog2 & Hseg2 & Hfail2 & Hret2).
    exists (evs1 ++ evs2).
    split; [congruence|]. split; [exact Hx2|].
    split; [rewrite Hlog2, Hlog1; list_eq|].
    split; [apply Forall_app; split; [now apply Forall_segment_io|exact Hseg2]|].
    split.
    { intros b Hin. apply in_app_or in Hin as [Hin | Hin];
        [now apply io_not_done in Hin | exact (Hfail2 _ Hin)]. }
    intros Hret. destruct (Hret2 Hret) as [Hno Hstep]. split; [|exact Hstep].
    intros b Hin. apply in_app_or in Hin as [Hin | Hin];
      [now apply io_not_done in Hin | exact (Hno _ Hin)].
  - exists evs1.
    split; [exact Hc1|]. split; [discriminate|]. split; [exact Hlog1|].
    split; [now apply Forall_segment_io|].
    split; [intros b Hin; now apply io_not_done in Hin|].
    intros [x Hx]. discriminate Hx.
Qed.

Lemma recorded_after_update k m prev text :
  JSON_parse text = Some prev ->
  (k = m \/ recorded JSON_parse k (Some text)) ->
  recorded JSON_parse k (Some (JSON_stringify (State.setPhase prev m complete))).
Proof.
  intros Hparse Hk. exists (JSON_stringify (State.setPhase prev m complete)),
                           (State.setPhase prev m complete).
  split; [reflexivity|]. split; [apply Hround|]. cbn [phases State.setPhase].
  destruct (decide (k = m)) as [-> | Hne]; [apply lookup_insert_eq|].
  rewrite lookup_insert_ne by congruence.
  destruct Hk as [-> | (text' & st' & Htext & Hparse' & Hlook)]; [contradiction|].
  congruence.
Qed.

(** [updateState m complete] on a connected client: it raises, or it
    returns having kept what was recorded and, when the file held a
    state, having recorded phase [m]. *)
Lemma update_step m w :
  connected w = true ->
  post (updateState m complete) w
       (fun out w' =>
          connected w' = connected w /\
          (exists evs, log w' = log w ++ evs /\ Forall ioEvent evs) /\
          ((exists e, out = Thrown e) \/
           (out = Returned tt /\
            (forall k, recorded JSON_parse k (stateFile w) ->
                       recorded JSON_parse k (stateFile w')) /\
            (loadableFile JSON_parse (stateFile w) ->
             recorded JSON_parse m (stateFile w') /\
             loadableFile JSON_parse (stateFile w'))))).
Proof.
  intros Hon. eapply post_conseq; [apply updateState_spec|].
  intros out w' (Hc & (evs & Hlog & Hev) & Hcase).
  split; [exact Hc|]. split.
  { exists evs. split; [exact Hlog|]. eapply List.Forall_impl; [|exact Hev].
    apply stateEvent_io. }
  destruct (Hcat (log w)) as [r Hr].
  rewrite (loaded_on _ _ _ r Hon Hr) in Hcase.
  destruct (stateFile w) as [text|] eqn:Hfile; cbn [mbind option_bind] in Hcase.
  - destruct (JSON_parse text) as [prev|] eqn:Hparse.
    + cbv zeta in Hcase. destruct (uploadContent_reply _ _ _ _) as [[]|e].
      * destruct Hcase as [-> ->]. right. split; [reflexivity|]. split.
        -- intros k Hk. apply (recorded_after_update k m prev text); auto.
        -- intros _. split.
           ++ apply (recorded_after_update m m prev text); auto.
           ++ eexists _, _. split; [reflexivity|apply Hround].
      * destruct Hcase as [-> _]. left. eauto.
    + destruct Hcase as [-> ->]. right. split; [reflexivity|]. split; [auto|].
      intros (text' & st' & Htext & Hparse'). congruence.
  - destruct Hcase as [-> ->]. right. split; [reflexivity|]. split; [auto|].
    intros (text' & st' & Htext & _). discriminate.
Qed.

Lemma recordable_from m : recordable ex m -> Deploy.isSome ex = true \/ 4 <= m.
Proof. unfold recordable. intros [H | [H _]]; [right; lia | now left]. Qed.

(** The end of a block: the phase is recorded. *)
Lemma tail_update m file w :
  stateFile w = file -> connected w = true ->
  (Deploy.isSome ex = true \/ 4 <= m -> loadableFile JSON_parse file) ->
  post (updateState m complete) w (tailOK JSON_parse ex m file w).
Proof.
  intros Hf Hon Hload. eapply post_conseq; [apply update_step, Hon|].
  intros out w' (Hc & (evs & Hlog & Hio) & Hcase). exists evs.
  split; [exact Hc|].
  split; [destruct Hcase as [[e ->] | (-> & _)]; discriminate|].
  split; [exact Hlog|]. split; [now apply Forall_segment_io|].
  split; [intros b Hin; now apply io_not_done in Hin|].
  intros [x ->]. split; [intros b Hin; now apply io_not_done in Hin|].
  destruct Hcase as [[e He] | (_ & Hmono & Hrec)]; [discriminate He|].
  rewrite Hf in *. intros _. repeat split.
  - intros n _ _. apply Hmono.
  - intros Hm. now apply Hrec, Hload, recordable_from.
  - intros Hm. now apply Hrec, Hload.
Qed.

(** The end of a block that records nothing. *)
Lemma tail_ret {B} m file (x : B) w :
  stateFile w = file ->
  (recordable ex m -> False) ->
  (Deploy.isSome ex = true \/ 4 <= m -> loadableFile JSON_parse file) ->
  post (ret x) w (tailOK JSON_parse ex m file w).
Proof.
  intros Hf Hnot Hload. apply post_ret. exists [].
  split; [reflexivity|]. split; [discriminate|]. split; [now rewrite app_nil_r|].
  split; [constructor|]. split; [intros b []|].
  intros _. split; [intros b []|]. rewrite Hf. intros _. repeat split; auto.
  intros Hm. now destruct (Hnot Hm).
Qed.

(** A last value returned after the end of a block. *)
Lemma tail_then_ret {A B} m file (last : M A) (x : B) w :
  post last w (tailOK JSON_parse ex m file w) ->
  post (bind last (fun _ => ret x)) w (tailOK JSON_parse ex m file w).
Proof.
  intros Hlast. apply post_bind. eapply post_conseq; [exact Hlast|].
  intros out w' (evs & Hc & Hx & Hlog & Hseg & Hfail & Hret).
  destruct out as [a | e | c]; cbn [andThen]; [apply post_ret| |now destruct (Hx c)].
  - exists evs. split; [exact Hc|]. split; [discriminate|]. split; [exact Hlog|].
    split; [exact Hseg|]. split.
    + intros b Hin. destruct (Hfail b Hin) as [[e He] _]. discriminate He.
    + intros _. apply Hret. eauto.
  - exists evs. split; [exact Hc|]. split; [discriminate|]. split; [exact Hlog|].
    split; [exact Hseg|]. split.
    + intros b Hin. split; [eauto|]. now apply (Hfail b).
    + intros [y Hy]. discriminate Hy.
Qed.

(** A block that skips its phase. *)
Lemma block_skip {A} m (x : A) w :
  guardedPhase m ->
  Deploy.mustRun ex m = false ->
  (Deploy.isSome ex = true -> loadableFile JSON_parse (stateFile w)) ->
  post (ret x) w (blockOK JSON_parse ex m w).
Proof.
  intros Hg Hskip Hload. apply post_ret. exists [].
  split; [reflexivity|]. split; [discriminate|]. split; [now rewrite app_nil_r|].
  split; [constructor|]. split; [intros b []|].
  intros _. split; [intros b []|]. repeat split; auto.
  - intros b [].
  - intros _. apply Hload. unfold Deploy.mustRun in Hskip. now destruct ex.
  - intros Hrun. specialize (Hrun Hg). congruence.
Qed.

(** A block that runs its phase: the call of the action, then the rest. *)
Lemma block_call {A B} m a (body : M A) (rest : A -> M B) w :
  m <= 9 ->
  (forall u eu, actionUser a = Some u -> expectedUser ex = Some eu -> u = eu) ->
  phaseOf a = Some m ->
  (guardedPhase m -> Deploy.mustRun ex m = true) ->
  inert body ->
  (forall x w1, connected w1 = connected w -> stateFile w1 = stateFile w ->
                post (rest x) w1 (tailOK JSON_parse ex m (stateFile w) w1)) ->
  post (bind (call a body) rest) w (blockOK JSON_parse ex m w).
Proof.
  intros Hm Huser Hphase Hrun Hbody Hrest.
  eapply post_conseq; [apply (tail_call m (stateFile w)); eauto|].
  intros out w' (evs & (Hc & Hx & Hlog & Hseg & Hfail & Hret) & Hin).
  exists evs. split; [exact Hc|]. split; [exact Hx|]. split; [exact Hlog|].
  split; [exact Hseg|]. split; [exact Hfail|].
  intros Hout. destruct (Hret Hout) as [Hno Hstep]. split; [exact Hno|].
  destruct (Hstep Hm) as (H1 & H2 & H3). repeat split; auto.
  intros _. eauto.
Qed.

Lemma post_bind_ret {A} (m : M A) w (Q : Outcome A -> World -> Prop) :
  post (bind m ret) w Q -> post m w Q.
Proof.
  unfold post, bind, ret. now destruct (m w) as [[a | e | c] w1].
Qed.

Lemma post_bind_assoc {A B C} (m : M A) (k : A -> M B) (k' : B -> M C) w Q :
  post (bind m (fun x => bind (k x) k')) w Q -> post (bind (bind m k) k') w Q.
Proof.
  unfold post, bind. now destruct (m w) as [[a | e | c] w1].
Qed.

Abbreviation ready := (ready JSON_parse ex).

Lemma phase2_ok w :
  ready 2 w ->
  post (Deploy.phase2 env JSON_stringify JSON_parse ex) w (blockOK JSON_parse ex 2 w).
Proof.
  intros [Hon Hload]. unfold Deploy.phase2.
  destruct (Deploy.mustRun ex 2) eqn:Hrun; [|apply block_skip; auto; unfold guardedPhase; lia].
  apply block_call;
    [lia | intros u eu Hu; discriminate Hu | reflexivity | auto | apply inert_extern |].
  intros [] w1 Hc Hf. destruct (Deploy.isSome ex) eqn:Hex.
  - apply tail_update; [exact Hf | congruence | intros _; apply Hload; now left].
  - apply tail_ret; [exact Hf | |].
    + unfold recordable. rewrite Hex. intros [? | [? ?]]; [lia|discriminate].
    + intros [? | ?]; [congruence|lia].
Qed.

Lemma phase3_ok w :
  ready 3 w ->
  post (Deploy.phase3 env JSON_stringify JSON_parse ex) w (blockOK JSON_parse ex 3 w).
Proof.
  intros [Hon Hload]. unfold Deploy.phase3.
  destruct (Deploy.mustRun ex 3) eqn:Hrun; [|apply block_skip; auto; unfold guardedPhase; lia].
  apply block_call;
    [lia | intros u eu Hu; discriminate Hu | reflexivity | auto | apply inert_extern |].
  intros [] w1 Hc Hf. destruct (Deploy.isSome ex) eqn:Hex.
  - apply tail_update; [exact Hf | congruence | intros _; apply Hload; now left].
  - apply tail_ret; [exact Hf | |].
    + unfold recordable. rewrite Hex. intros [? | [? ?]]; [lia|discriminate].
    + intros [? | ?]; [congruence|lia].
Qed.

Lemma phase5_ok deployUser w :
  ready 5 w ->
  (forall eu, expectedUser ex = Some eu -> deployUser = eu) ->
  post (Deploy.phase5 env JSON_stringify JSON_parse ex deployUser) w
       (blockOK JSON_parse ex 5 w).
Proof.
  intros [Hon Hload] Huser. unfold Deploy.phase5.
  destruct (Deploy.mustRun ex 5) eqn:Hrun; [|apply block_skip; auto; unfold guardedPhase; lia].
  apply block_call;
    [lia | intros u eu Hu; injection Hu as <-; apply Huser | reflexivity | auto | apply inert_extern |].
  intros [] w1 Hc Hf.
  apply tail_update; [exact Hf | congruence | intros _; apply Hload; right; lia].
Qed.

Lemma phase7_ok deployUser imageName w :
  ready 7 w ->
  (forall eu, expectedUser ex = Some eu -> deployUser = eu) ->
  post (Deploy.phase7 env JSON_stringify JSON_parse ex deployUser imageName) w
       (blockOK JSON_parse ex 7 w).
Proof.
  intros [Hon Hload] Huser. unfold Deploy.phase7.
  destruct (Deploy.mustRun ex 7) eqn:Hrun; [|apply block_skip; auto; unfold guardedPhase; lia].
  apply block_call;
    [lia | intros u eu Hu; injection Hu as <-; apply Huser | reflexivity | auto | apply inert_extern |].
  intros [] w1 Hc Hf.
  apply tail_update; [exact Hf | congruence | intros _; apply Hload; right; lia].
Qed.

Lemma phase6_ok config deployUser w :
  ready 6 w ->
  (forall eu, expectedUser ex = Some eu -> deployUser = eu) ->
  post (Deploy.phase6 env JSON_stringify JSON_parse config ex deployUser) w
       (blockOK JSON_parse ex 6 w).
Proof.
  intros [Hon Hload] Huser. unfold Deploy.phase6.
  destruct (Deploy.mustRun ex 6) eqn:Hrun.
  - apply block_call;
      [lia | intros u eu Hu; injection Hu as <-; apply Huser | reflexivity | auto | apply inert_buildImage |].
    intros imageName w1 Hc Hf.
    apply tail_then_ret, tail_update; [exact Hf | congruence | intros _; apply Hload; right; lia].
  - assert (Hst : exists st, ex = Some st).
    { unfold Deploy.mustRun in Hrun. destruct ex; [eauto|discriminate]. }
    destruct Hst as [st Hst].
    replace (match ex with Some st0 => ret (image (metadata st0)) | None => throw "unreachable" end)
      with (ret (A:=string) (image (metadata st))) by (now rewrite Hst).
    apply block_skip; auto. unfold guardedPhase; lia.
Qed.

Lemma phase9_ok config deployUser imageName w :
  ready 9 w ->
  (forall eu, expectedUser ex = Some eu -> deployUser = eu) ->
  post (Deploy.phase9 env config deployUser imageName) w (blockOK JSON_parse ex 9 w).
Proof.
  intros [Hon Hload] Huser. unfold Deploy.phase9.
  apply post_bind_ret, block_call;
    [lia | intros u eu Hu; injection Hu as <-; apply Huser | reflexivity | unfold guardedPhase; lia
    | apply inert_extern |].
  intros [] w1 Hc Hf. apply tail_ret; [exact Hf | |].
  - unfold recordable. intros [? | [? ?]]; lia.
  - intros _. apply Hload. right. lia.
Qed.

Lemma tail_call_ok {A B} m file a (body : M A) (rest : A -> M B) w :
  stateFile w = file ->
  (forall u eu, actionUser a = Some u -> expectedUser ex = Some eu -> u = eu) ->
  (phaseOf a = None \/
   (phaseOf a = Some m /\ (guardedPhase m -> Deploy.mustRun ex m = true))) ->
  inert body ->
  (forall x w1, connected w1 = connected w -> stateFile w1 = file ->
                post (rest x) w1 (tailOK JSON_parse ex m file w1)) ->
  post (bind (call a body) rest) w (tailOK JSON_parse ex m file w).
Proof.
  intros. eapply post_conseq; [apply (tail_call m file); eauto|].
  intros out w' (evs & Hseg & _). now exists evs.
Qed.

Lemma post_createState name meta w (Q : Outcome unit -> World -> Prop) :
  post (ssh_uploadContent env
          (JSON_stringify (mkState name (generateUUID_reply env (log w))
                                   (toISOString_reply env (log w)) 0 State.initialPhases meta))
          STATE_FILE) w Q ->
  post (createState name meta) w Q.
Proof. intros H. exact H. Qed.

(** The end of the block of phase 4 on a fresh run: the state file is
    created, then the phase is recorded. *)
Lemma tail_create_update name meta (deployUser : UserInfo) file w :
  Deploy.isSome ex = false -> connected w = true -> stateFile w = file ->
  post (bind (createState name meta)
             (fun _ => bind (updateState 4 complete) (fun _ => ret deployUser)))
       w (tailOK JSON_parse ex 4 file w).
Proof.
  intros Hfresh Hon Hf. apply post_bind, post_createState.
  set (content := JSON_stringify _).
  apply post_ssh_uploadContent; [congruence| |].
  - intros _ e _. cbn [andThen]. exists [EvUpload content STATE_FILE (Rejected e)].
    split; [reflexivity|]. split; [discriminate|]. split; [reflexivity|].
    split; [repeat constructor|]. split.
    + intros b [Hb | []]. discriminate Hb.
    + intros [x Hx]. discriminate Hx.
  - intros _ _. cbn [andThen]. apply post_bind.
    eapply post_conseq; [apply update_step; exact Hon|].
    intros out w3 (Hc & (evs & Hlog & Hio) & Hcase).
    assert (Hfile2 : stateFile (host_upload content STATE_FILE w) = Some content).
    { unfold host_upload. cbn [stateFile]. now rewrite bool_decide_eq_true_2. }
    assert (Hlog3 : log w3 = log w ++ EvUpload content STATE_FILE (Resolved tt) :: evs).
    { rewrite Hlog. unfold host_upload. cbn [log]. list_eq. }
    assert (Hseg : Forall (segmentEvent ex 4 file)
                          (EvUpload content STATE_FILE (Resolved tt) :: evs)).
    { constructor; [exact I|now apply Forall_segment_io]. }
    assert (Hno : forall b ok,
               ~ In (EvDone b ok) (EvUpload content STATE_FILE (Resolved tt) :: evs)).
    { intros b ok [Hb | Hb]; [discriminate Hb|now apply io_not_done in Hb]. }
    destruct Hcase as [[e ->] | (-> & Hmono & Hrec)]; cbn [andThen]; [|apply post_ret];
      exists (EvUpload content STATE_FILE (Resolved tt) :: evs);
      (split; [exact Hc|]); (split; [discriminate|]); (split; [exact Hlog3|]);
      (split; [exact Hseg|]); (split; [intros b Hb; now apply Hno in Hb|]).
    + intros [x Hx]. discriminate Hx.
    + intros _. split; [intros b Hb; now apply Hno in Hb|]. intros _.
      destruct Hrec as [Hrec Hload].
      { rewrite Hfile2. exists content. eexists. split; [reflexivity|apply Hround]. }
      repeat split; auto.
      intros n Hn [? | [Hsome _]]; [lia|congruence].
Qed.

Lemma phase4_ok config w :
  ready 4 w ->
  post (Deploy.phase4 env JSON_stringify JSON_parse config ex) w
       (fun out w' =>
          blockOK JSON_parse ex 4 w out w' /\
          forall u eu, out = Returned u -> expectedUser ex = Some eu -> u = eu).
Proof.
  intros [Hon Hload]. unfold Deploy.phase4.
  destruct (Deploy.mustRun ex 4) eqn:Hrun.
  - assert (Hnone : expectedUser ex = None).
    { unfold expectedUser, Deploy.mustRun in *. destruct ex as [st|]; [|reflexivity].
      apply negb_true_iff in Hrun. now rewrite Hrun. }
    eapply post_conseq; [|intros out w' H; split; [exact H|intros; congruence]].
    apply block_call;
      [lia | intros u eu Hu; discriminate Hu | reflexivity | auto | apply inert_await |].
    intros deployUser w1 Hc Hf. destruct (Deploy.isSome ex) eqn:Hex; cbn [negb].
    + apply post_bind, post_ret. cbn [andThen].
      apply tail_then_ret, tail_update; [exact Hf | congruence | intros _; apply Hload; now left].
    + apply tail_create_update; [exact Hex | congruence | exact Hf].
  - assert (Hst : exists st, ex = Some st /\ State.isPhaseComplete st 4 = true).
    { unfold Deploy.mustRun in Hrun. destruct ex as [st|]; [|discriminate].
      apply negb_false_iff in Hrun. eauto. }
    destruct Hst as (st & Hst & Hdone).
    replace (match ex with
             | Some st0 => ret (Deploy.userOfMetadata (metadata st0))
             | None => throw "unreachable"
             end)
      with (ret (A:=UserInfo) (Deploy.userOfMetadata (metadata st))) by (now rewrite Hst).
    apply post_ret. split.
    + apply (block_skip 4 (Deploy.userOfMetadata (metadata st)) w); auto.
      unfold guardedPhase; lia.
    + intros u eu Hout Heu. unfold expectedUser in Heu. rewrite Hst, Hdone in Heu. congruence.
Qed.

Lemma phase8_ok config deployUser w :
  ready 8 w ->
  (forall eu, expectedUser ex = Some eu -> deployUser = eu) ->
  post (Deploy.phase8 env JSON_stringify JSON_parse config ex deployUser) w
       (blockOK JSON_parse ex 8 w).
Proof.
  intros [Hon Hload] Huser. unfold Deploy.phase8, Deploy.extractGatewayToken.
  assert (Hu : forall a, actionUser a = Some deployUser ->
                 forall u eu, actionUser a = Some u -> expectedUser ex = Some eu -> u = eu).
  { intros a Ha u eu Hu Heu. rewrite Ha in Hu. injection Hu as <-. auto. }
  assert (Hfile : loadableFile JSON_parse (stateFile w)) by (apply Hload; right; lia).
  destruct (Deploy.mustRun ex 8) eqn:Hrun.
  - apply block_call;
      [lia | apply Hu; reflexivity | reflexivity | auto | apply inert_runOnboarding |].
    intros [] w1 Hc1 Hf1.
    apply tail_call_ok;
      [exact Hf1 | apply Hu; reflexivity | now left | apply inert_await |].
    intros token w2 Hc2 Hf2.
    assert (Hend : forall w5, connected w5 = true -> stateFile w5 = stateFile w ->
              post (bind (updateState 8 complete) (fun _ => ret token)) w5
                   (tailOK JSON_parse ex 8 (stateFile w) w5)).
    { intros w5 Hc5 Hf5. apply tail_then_ret, tail_update; auto. }
    destruct (Deploy.truthy token) as [t|].
    + apply post_bind_assoc, tail_inert;
        [exact Hf2 | apply inert_ssh_exec, stopGateway_plain |].
      intros r w3 Hc3 Hf3. cbv beta.
      apply post_bind_assoc, tail_call_ok;
        [exact Hf3 | apply Hu; reflexivity | right; auto | apply inert_extern |].
      intros [] w4 Hc4 Hf4. cbv beta.
      apply tail_call_ok;
        [exact Hf4 | apply Hu; reflexivity | right; auto | apply inert_extern |].
      intros [] w5 Hc5 Hf5. apply Hend; congruence.
    + apply post_bind, post_ret. cbn [andThen]. apply Hend; congruence.
  - eapply post_conseq; [apply call_inert, inert_await|].
    intros out w' (Hc & Hf & evs & ok & Hlog & Hio & Hok).
    exists (EvCall (ExtractGatewayToken deployUser) (stateFile w) :: evs ++
            [EvDone (ExtractGatewayToken deployUser) ok]).
    split; [exact Hc|]. split; [intros c ->; exact Hok|]. split; [exact Hlog|].
    split.
    { constructor; [split; [apply Hu; reflexivity|now left]|].
      apply Forall_app. split; [now apply Forall_segment_io|].
      constructor; [now left|constructor]. }
    split.
    { intros b Hin. apply in_block in Hin as [Hin | [Hin | [Hin | []]]];
        [discriminate Hin | now apply io_not_done in Hin |].
      injection Hin as -> <-. split; [|exact Hf].
      destruct out; [discriminate Hok | eauto | contradiction]. }
    intros [x ->]. subst ok. split.
    { intros b Hin. apply in_block in Hin as [Hin | [Hin | [Hin | []]]];
        [discriminate Hin | now apply io_not_done in Hin | discriminate Hin]. }
    rewrite Hf. repeat split; auto.
    + intros b Hin Hb. apply in_block in Hin as [Hin | [Hin | [Hin | []]]];
        [discriminate Hin | now apply io_not_done in Hin |].
      injection Hin as ->. discriminate Hb.
    + intros Hdue. assert (Hg : guardedPhase 8) by (unfold guardedPhase; lia).
      specialize (Hdue Hg). congruence.
Qed.

(** Phase 10 and the auto-connect: no action of a phase, and the identity
    passed on is the expected one. *)
Lemma phase10_ok config deployUser w :
  (forall eu, expectedUser ex = Some eu -> deployUser = eu) ->
  post (Deploy.phase10 env config deployUser) w
       (fun out w' =>
          (forall c, out <> Exited c) /\
          exists evs, log w' = log w ++ evs /\
            (forall a snap, In (EvCall a snap) evs ->
               phaseOf a = None /\
               forall u eu, actionUser a = Some u -> expectedUser ex = Some eu -> u = eu) /\
            (forall b ok, In (EvDone b ok) evs -> phaseOf b = None) /\
            (forall b, In (EvDone b false) evs -> exists e, out = Thrown e)).
Proof.
  intros Huser. unfold Deploy.phase10, State.deleteState.
  apply post_bind, post_bind, post_ssh_exec.
  - intros Hoff. cbn [andThen]. split; [discriminate|].
    exists []. split; [now rewrite app_nil_r|].
    split; [intros a snap []|]. split; [intros b ok []|intros b []].
  - intros Hon e He. cbn [andThen]. split; [discriminate|].
    exists [EvExec ("rm -f " +:+ STATE_FILE) (Rejected e)].
    split; [reflexivity|]. split; [|split].
    + intros a snap [Hb | []]. discriminate Hb.
    + intros b ok [Hb | []]. discriminate Hb.
    + intros b [Hb | []]. discriminate Hb.
  - intros Hon r Hr. destruct (host_exec_log ("rm -f " +:+ STATE_FILE) r w) as [Hc1 Hlog1].
    set (w1 := snd (host_exec _ r w)) in *. set (r1 := fst (host_exec _ r w)) in *.
    cbn [andThen]. apply post_ret. cbn [andThen].
    destruct (negb (noAutoConnect config)).
    + eapply post_conseq; [apply call_inert, inert_autoConnect|].
      intros out w2 (Hc2 & Hf2 & evs & ok & Hlog2 & Hio & Hok).
      split; [intros c ->; exact Hok|].
      exists (EvExec ("rm -f " +:+ STATE_FILE) (Resolved r1) ::
              EvCall (AutoConnect (ssh config) deployUser 18789) (stateFile w1) :: evs ++
              [EvDone (AutoConnect (ssh config) deployUser 18789) ok]).
      split; [rewrite Hlog2, Hlog1; list_eq|]. split; [|split].
      * intros a snap [Hb | Hb]; [discriminate Hb|].
        apply in_block in Hb as [Hb | [Hb | [Hb | []]]];
          [| now apply io_not_call in Hb | discriminate Hb].
        injection Hb as -> _. split; [reflexivity|].
        intros u eu Hu Heu. injection Hu as <-. auto.
      * intros b ok' [Hb | Hb]; [discriminate Hb|].
        apply in_block in Hb as [Hb | [Hb | [Hb | []]]];
          [discriminate Hb | now apply io_not_done in Hb | now injection Hb as -> _].
      * intros b [Hb | Hb]; [discriminate Hb|].
        apply in_block in Hb as [Hb | [Hb | [Hb | []]]];
          [discriminate Hb | now apply io_not_done in Hb |].
        injection Hb as -> <-. destruct out; [discriminate Hok | eauto | contradiction].
    + apply post_ret. split; [discriminate|].
      exists [EvExec ("rm -f " +:+ STATE_FILE) (Resolved r1)].
      split; [exact Hlog1|]. split; [|split].
      * intros a snap [Hb | []]. discriminate Hb.
      * intros b ok [Hb | []]. discriminate Hb.
      * intros b [Hb | []]. discriminate Hb.
Qed.

Lemma traceOK_mono m m' evs :
  m <= m' -> traceOK JSON_parse ex m evs -> traceOK JSON_parse ex m' evs.
Proof.
  intros Hle [Hcall Hdone]. split.
  - intros a snap Hin. destruct (Hcall a snap Hin) as [Hu Hn]. split; [exact Hu|].
    intros n Hp. destruct (Hn n Hp) as (Hlt & Hd & Hrec & Hprev).
    split; [lia|]. split; [exact Hd|]. split; [exact Hrec | exact Hprev].
  - intros b ok n Hin Hp. specialize (Hdone b ok n Hin Hp). lia.
Qed.

Lemma progress_start w : ready 2 w -> progress JSON_parse ex 2 w w [].
Proof.
  intros Hr. split; [now rewrite app_nil_r|]. split; [exact Hr|].
  split; [split; [intros a snap []|intros b ok n []]|].
  split; [intros b []|]. split; [intros b n []|]. intros k Hk. lia.
Qed.

Lemma called_app_l k evs evs' : called k evs -> called k (evs ++ evs').
Proof.
  intros (a & snap & Hin & Hp). exists a, snap. split; [apply in_or_app; now left|exact Hp].
Qed.

Lemma called_app_r k evs evs' : called k evs' -> called k (evs ++ evs').
Proof.
  intros (a & snap & Hin & Hp). exists a, snap. split; [apply in_or_app; now right|exact Hp].
Qed.

Lemma segment_done m file evs b ok n :
  Forall (segmentEvent ex m file) evs -> In (EvDone b ok) evs -> phaseOf b = Some n -> n = m.
Proof.
  intros Hseg Hin Hp. rewrite List.Forall_forall in Hseg. specialize (Hseg _ Hin).
  cbn in Hseg. destruct Hseg; congruence.
Qed.

Lemma segment_call m file evs a snap n :
  Forall (segmentEvent ex m file) evs -> In (EvCall a snap) evs -> phaseOf a = Some n ->
  n = m /\ snap = file /\ due ex m.
Proof.
  intros Hseg Hin Hp. rewrite List.Forall_forall in Hseg. specialize (Hseg _ Hin).
  cbn in Hseg. destruct Hseg as [_ [Hnone | (Hsome & Hsnap & Hd)]]; [congruence|].
  split; [congruence|]. split; [exact Hsnap | exact Hd].
Qed.

(** The trace of the blocks below [m], extended by the block of [m]. *)
Lemma trace_step m w0 w evs evs' :
  2 <= m ->
  progress JSON_parse ex m w0 w evs ->
  Forall (segmentEvent ex m (stateFile w)) evs' ->
  traceOK JSON_parse ex (m + 1) (evs ++ evs').
Proof.
  intros Hm (Hlog & Hready & [Hcall Hdone] & Hnofail & Hrec & Hprev) Hseg.
  assert (Hdone' : forall b ok n, In (EvDone b ok) (evs ++ evs') -> phaseOf b = Some n ->
                     (In (EvDone b ok) evs /\ n < m) \/ n = m).
  { intros b ok n Hin Hp. apply in_app_or in Hin as [Hin | Hin].
    - left. split; [exact Hin|]. eapply Hdone; eauto.
    - right. eapply segment_done; eauto. }
  split.
  - intros a snap Hin. apply in_app_or in Hin as [Hin | Hin].
    + destruct (Hcall a snap Hin) as [Hu Hn]. split; [exact Hu|].
      intros n Hp. destruct (Hn n Hp) as (Hlt & Hd & Hr & Hpv).
      split; [lia|]. split; [exact Hd|]. split.
      * intros b k Hb Hk Hkn Hrk.
        destruct (Hdone' b true k Hb Hk) as [[Hb' _] | ->]; [eauto | lia].
      * intros k Hk Hdk. apply called_app_l. auto.
    + split.
      { rewrite List.Forall_forall in Hseg. specialize (Hseg _ Hin). apply Hseg. }
      intros n Hp. destruct (segment_call _ _ _ _ _ _ Hseg Hin Hp) as (-> & -> & Hd).
      split; [lia|]. split; [exact Hd|]. split.
      * intros b k Hb Hk Hkm Hrk.
        destruct (Hdone' b true k Hb Hk) as [[Hb' _] | ->]; [eauto | lia].
      * intros k Hk Hdk. apply called_app_l. auto.
  - intros b ok n Hin Hp. destruct (Hdone' b ok n Hin Hp) as [[_ H] | H]; lia.
Qed.

(** The block of phase [m] run after the blocks below it, and then the
    rest of the run. *)
Lemma progress_bind {A B} m (blk : M A) (rest : A -> M B) (P : A -> Prop) w0 w evs :
  progress JSON_parse ex m w0 w evs ->
  2 <= m <= 9 ->
  post blk w (fun out w' =>
                blockOK JSON_parse ex m w out w' /\ forall x, out = Returned x -> P x) ->
  (forall x w' evs', P x -> progress JSON_parse ex (m + 1) w0 w' evs' ->
                     post (rest x) w' (runOK JSON_parse ex w0)) ->
  post (bind blk rest) w (runOK JSON_parse ex w0).
Proof.
  intros Hprog Hm Hblk Hrest. apply post_bind. eapply post_conseq; [exact Hblk|].
  intros out w' [(evs' & Hc & Hex & Hlog' & Hseg & Hfail & Hret) HP].
  pose proof (trace_step m w0 w evs evs' (proj1 Hm) Hprog Hseg) as Htrace.
  destruct Hprog as (Hlog & [Hon Hload] & Htr & Hnofail & Hrec & Hprev).
  destruct out as [x | e | c]; cbn [andThen].
  - destruct (Hret (ex_intro _ x eq_refl)) as (Hnf & Hkeep & Hnew & Hloadable & Hcalled).
    apply (Hrest x w' (evs ++ evs')); [now apply HP|].
    split; [rewrite Hlog', Hlog; now rewrite app_assoc|].
    split.
    { split; [congruence|]. intros Hc'. apply Hloadable.
      destruct Hc'; [now left | right; lia]. }
    split; [exact Htrace|].
    split.
    { intros b Hin. apply in_app_or in Hin as [Hin|Hin];
        [exact (Hnofail _ Hin) | exact (Hnf _ Hin)]. }
    split.
    { intros b n Hin Hp Hrn. apply in_app_or in Hin as [Hin|Hin].
      - apply Hkeep; [destruct Htr as [_ Hd]; eapply Hd; eauto | exact Hrn | eapply Hrec; eauto].
      - assert (n = m) as -> by (eapply segment_done; eauto).
        eapply Hnew; eauto. }
    intros k Hk Hdk. destruct (Z.eq_dec k m) as [-> | Hne].
    + apply called_app_r. apply Hcalled. exact Hdk.
    + apply called_app_l. apply Hprev; [lia | exact Hdk].
  - exists (evs ++ evs').
    split; [rewrite Hlog', Hlog; now rewrite app_assoc|].
    split; [discriminate|].
    split; [apply traceOK_mono with (m + 1); [lia | exact Htrace]|].
    split.
    + intros b Hin. apply in_app_or in Hin as [Hin|Hin]; [destruct (Hnofail _ Hin)|].
      destruct (Hfail b Hin) as [Hthrown Hfile]. split; [eauto|].
      intros n Hp a snap k Hina Hpa.
      assert (n = m) as -> by (eapply segment_done; eauto).
      apply in_app_or in Hina as [Hina|Hina].
      * destruct Htr as [Hcall _]. destruct (Hcall a snap Hina) as [_ Hn].
        destruct (Hn k Hpa) as (Hlt & _). split; [lia|]. intros ->. lia.
      * destruct (segment_call _ _ _ _ _ _ Hseg Hina Hpa) as (-> & -> & _).
        split; [lia|]. intros _. exact Hfile.
    + intros [x Hx]. discriminate Hx.
  - destruct (Hex c eq_refl).
Qed.

Lemma progress_end config deployUser w0 w evs :
  progress JSON_parse ex 10 w0 w evs ->
  (forall eu, expectedUser ex = Some eu -> deployUser = eu) ->
  post (Deploy.phase10 env config deployUser) w (runOK JSON_parse ex w0).
Proof.
  intros (Hlog & _ & [Hcall Hdone] & Hnofail & Hrec & Hprev) Huser.
  eapply post_conseq; [apply phase10_ok; exact Huser|].
  intros out w' (Hex & evs' & Hlog' & Hcalls & Hdones & Hfail).
  exists (evs ++ evs').
  split; [rewrite Hlog', Hlog; now rewrite app_assoc|].
  split; [exact Hex|].
  assert (Hold : forall b ok n, In (EvDone b ok) (evs ++ evs') -> phaseOf b = Some n ->
                   In (EvDone b ok) evs).
  { intros b ok n Hin Hp. apply in_app_or in Hin as [Hin|Hin]; [exact Hin|].
    specialize (Hdones _ _ Hin). congruence. }
  split; [split|split].
  - intros a snap Hin. apply in_app_or in Hin as [Hin|Hin].
    + destruct (Hcall a snap Hin) as [Hu Hn]. split; [exact Hu|].
      intros n Hp. destruct (Hn n Hp) as (Hlt & Hd & Hr & Hpv).
      split; [exact Hlt|]. split; [exact Hd|]. split.
      * intros b k Hb Hk. apply (Hr b k); [eapply Hold; eauto | exact Hk].
      * intros k Hk Hdk. apply called_app_l. auto.
    + destruct (Hcalls a snap Hin) as [Hnone Hu]. split; [exact Hu|].
      intros n Hp. congruence.
  - intros b ok n Hin Hp. eapply Hdone; eauto.
  - intros b Hin. apply in_app_or in Hin as [Hin|Hin]; [destruct (Hnofail _ Hin)|].
    split; [exact (Hfail _ Hin)|]. intros n Hp. specialize (Hdones _ _ Hin). congruence.
  - intros _ k Hk Hdk. apply called_app_l. apply Hprev; [lia | exact Hdk].
Qed.

(** The contract of the phases 2 to 10. *)
Lemma runPhases_spec config w :
  ready 2 w ->
  post (Deploy.runPhases env JSON_stringify JSON_parse config ex) w (runOK JSON_parse ex w).
Proof.
  intros Hready. unfold Deploy.runPhases.
  pose proof (progress_start w Hready) as H2.
  apply (progress_bind 2 _ _ (fun _ => True) w w [] H2); [lia | |].
  { eapply post_conseq; [apply phase2_ok, H2|]. now intros out w' Hb. }
  intros [] w3 evs3 _ H3.
  apply (progress_bind 3 _ _ (fun _ => True) w w3 evs3 H3); [lia | |].
  { eapply post_conseq; [apply phase3_ok, H3|]. now intros out w' Hb. }
  intros [] w4 evs4 _ H4.
  apply (progress_bind 4 _ _ (fun u => forall eu, expectedUser ex = Some eu -> u = eu)
                       w w4 evs4 H4); [lia | |].
  { eapply post_conseq; [apply phase4_ok, H4|].
    intros out w' [Hb Hu]. split; [exact Hb|]. intros x -> eu. now apply Hu. }
  intros deployUser w5 evs5 Huser H5.
  apply (progress_bind 5 _ _ (fun _ => True) w w5 evs5 H5); [lia | |].
  { eapply post_conseq; [apply phase5_ok; [apply H5 | exact Huser]|]. now intros out w' Hb. }
  intros [] w6 evs6 _ H6.
  apply (progress_bind 6 _ _ (fun _ => True) w w6 evs6 H6); [lia | |].
  { eapply post_conseq; [apply phase6_ok; [apply H6 | exact Huser]|]. now intros out w' Hb. }
  intros imageName w7 evs7 _ H7.
  apply (progress_bind 7 _ _ (fun _ => True) w w7 evs7 H7); [lia | |].
  { eapply post_conseq; [apply phase7_ok; [apply H7 | exact Huser]|]. now intros out w' Hb. }
  intros [] w8 evs8 _ H8.
  apply (progress_bind 8 _ _ (fun _ => True) w w8 evs8 H8); [lia | |].
  { eapply post_conseq; [apply phase8_ok; [apply H8 | exact Huser]|]. now intros out w' Hb. }
  intros gatewayToken w9 evs9 _ H9.
  apply (progress_bind 9 _ _ (fun _ => True) w w9 evs9 H9); [lia | |].
  { eapply post_conseq; [apply phase9_ok; [apply H9 | exact Huser]|]. now intros out w' Hb. }
  intros [] w10 evs10 _ H10.
  now apply progress_end with evs10.
Qed.

(** *** What the state file holds when a phase is entered *)

Lemma resolved_ready config w0 w :
  connected w0 = true ->
  Deploy.resolveExistingState env JSON_parse config w0 = (Returned ex, w) ->
  ready 2 w.
Proof.
  intros Hon Hfound.
  now destruct (post_run _ _ _ _ _ (resolveExistingState_spec env JSON_parse config w0 Hon)
                         Hfound ex eq_refl).
Qed.

(** Where the code does persist a completion before it goes on. Take a
    host that answers every read of the state file, a state codec whose
    parser reads back what it wrote, and a run that was connected when
    it looked for a partial deployment and found [ex]. Then a phase [n]
    that completed and whose completion the run records (4 to 8, and 2
    and 3 only when [ex] is an existing state) is recorded as complete
    in the state file that the action of any later phase finds when it
    is entered. *)
Theorem runPhases_persists_before_next_phase config w0 w out w' :
  connected w0 = true ->
  Deploy.resolveExistingState env JSON_parse config w0 = (Returned ex, w) ->
  Deploy.runPhases env JSON_stringify JSON_parse config ex w = (out, w') ->
  exists evs, log w' = log w ++ evs /\ persistedBefore JSON_parse (recordable ex) evs.
Proof.
  intros Hon Hfound Hrun. pose proof (resolved_ready config w0 w Hon Hfound) as Hready.
  destruct (post_run _ _ _ _ _ (runPhases_spec config w Hready) Hrun)
    as (evs & Hlog & _ & [Hcall _] & _).
  exists evs. split; [exact Hlog|].
  intros b n a snap m Hb Hn Ha Hm Hlt Hrec.
  destruct (Hcall a snap Ha) as [_ Hph]. destruct (Hph m Hm) as (_ & _ & Hkeep & _).
  now apply (Hkeep b n).
Qed.

End Blocks.

(** *** The identity given to the actions *)

Lemma callsOnly_nil P : callsOnly P [].
Proof. intros a snap []. Qed.

Lemma callsOnly_app P evs1 evs2 :
  callsOnly P evs1 -> callsOnly P evs2 -> callsOnly P (evs1 ++ evs2).
Proof.
  intros H1 H2 a snap Hin. apply in_app_or in Hin as [Hin | Hin]; eauto.
Qed.

Lemma callsOnly_io P evs : Forall ioEvent evs -> callsOnly P evs.
Proof. intros Hio a snap Hin. now apply io_not_call in Hin. Qed.

Section Traces.

Variable env : Env.
Variable P : Action -> Prop.

Lemma traces_ret {A} (R : A -> Prop) x : R x -> traces P R (ret x).
Proof.
  intros HR w. apply post_ret. split; [now intros y [= <-]|].
  exists []. split; [now rewrite app_nil_r | apply callsOnly_nil].
Qed.

Lemma traces_throw {A} (R : A -> Prop) e : traces P R (throw e).
Proof.
  intros w. apply post_throw. split; [discriminate|].
  exists []. split; [now rewrite app_nil_r | apply callsOnly_nil].
Qed.

Lemma traces_weaken {A} (R R' : A -> Prop) m :
  traces P R m -> (forall x, R x -> R' x) -> traces P R' m.
Proof.
  intros Hm HR w. eapply post_conseq; [apply Hm|].
  intros out w' [Hret Hevs]. split; [auto | exact Hevs].
Qed.

Lemma traces_bind {A B} (R : A -> Prop) (R' : B -> Prop) m (k : A -> M B) :
  traces P R m -> (forall x, R x -> traces P R' (k x)) -> traces P R' (bind m k).
Proof.
  intros Hm Hk w. apply post_bind. eapply post_conseq; [apply Hm|].
  intros [x | e | c] w1 [Hret (evs1 & Hlog1 & Hcalls1)]; cbn [andThen].
  - eapply post_conseq; [apply (Hk x); now apply Hret|].
    intros out w2 [Hret2 (evs2 & Hlog2 & Hcalls2)]. split; [exact Hret2|].
    exists (evs1 ++ evs2). rewrite Hlog2, Hlog1, app_assoc.
    split; [reflexivity | now apply callsOnly_app].
  - split; [discriminate|]. now exists evs1.
  - split; [discriminate|]. now exists evs1.
Qed.

Lemma traces_then {A B} (R : B -> Prop) (m : M A) (k : M B) :
  traces P (fun _ => True) m -> traces P R k -> traces P R (bind m (fun _ => k)).
Proof. intros Hm Hk. apply traces_bind with (R := fun _ => True); auto. Qed.

Lemma traces_try_catch {A} (R : A -> Prop) body handler :
  traces P R body -> (forall e, traces P R (handler e)) -> traces P R (try_catch body handler).
Proof.
  intros Hm Hk w. apply post_try_catch. eapply post_conseq; [apply Hm|].
  intros [x | e | c] w1 [Hret (evs1 & Hlog1 & Hcalls1)].
  - split; [exact Hret|]. now exists evs1.
  - eapply post_conseq; [apply (Hk e)|].
    intros out w2 [Hret2 (evs2 & Hlog2 & Hcalls2)]. split; [exact Hret2|].
    exists (evs1 ++ evs2). rewrite Hlog2, Hlog1, app_assoc.
    split; [reflexivity | now apply callsOnly_app].
  - split; [discriminate|]. now exists evs1.
Qed.

Lemma traces_inert {A} (m : M A) : inert m -> traces P (fun _ => True) m.
Proof.
  intros Hm w. eapply post_conseq; [apply Hm|].
  intros out w' (_ & _ & _ & evs & Hlog & Hio). split; [auto|].
  exists evs. split; [exact Hlog | now apply callsOnly_io].
Qed.

Lemma traces_call {A} (R : A -> Prop) a (body : M A) :
  P a -> traces P R body -> traces P R (call a body).
Proof.
  intros Ha Hbody w. apply post_call. eapply post_conseq; [apply Hbody|].
  assert (Hevs : forall evs ok, callsOnly P evs ->
            callsOnly P (EvCall a (stateFile w) :: evs ++ [EvDone a ok])).
  { intros evs ok Hcalls b snap Hin.
    apply in_block in Hin as [Hin | [Hin | [Hin | []]]];
      [now injection Hin as -> _ | eauto | discriminate Hin]. }
  intros [x | e | c] w1 [Hret (evs & Hlog & Hcalls)].
  - split; [exact Hret|]. exists (EvCall a (stateFile w) :: evs ++ [EvDone a true]).
    split; [cbn [record log] in *; rewrite Hlog; list_eq | now apply Hevs].
  - split; [discriminate|]. exists (EvCall a (stateFile w) :: evs ++ [EvDone a false]).
    split; [cbn [record log] in *; rewrite Hlog; list_eq | now apply Hevs].
  - split; [discriminate|]. exists (EvCall a (stateFile w) :: evs).
    split; [cbn [record log] in *; rewrite Hlog; list_eq|].
    intros b snap [Hin | Hin]; [now injection Hin as -> _ | eauto].
Qed.

Lemma callsOnly_one ev : ioEvent ev -> callsOnly P [ev].
Proof. intros Hio. apply callsOnly_io. now constructor. Qed.

Lemma traces_ssh_exec command : traces P (fun _ => True) (ssh_exec env command).
Proof.
  intros w. apply post_ssh_exec.
  - intros _. split; [auto|]. exists []. split; [now rewrite app_nil_r | apply callsOnly_nil].
  - intros _ e _. split; [auto|]. exists [EvExec command (Rejected e)].
    split; [reflexivity | now apply callsOnly_one].
  - intros _ r _. destruct (host_exec_log command r w) as [_ Hlog]. split; [auto|].
    eexists. split; [exact Hlog | now apply callsOnly_one].
Qed.

Lemma traces_uploadContent content path :
  traces P (fun _ => True) (ssh_uploadContent env content path).
Proof.
  intros w. apply post_ssh_uploadContent.
  - intros _. split; [auto|]. exists []. split; [now rewrite app_nil_r | apply callsOnly_nil].
  - intros _ e _. split; [auto|]. exists [EvUpload content path (Rejected e)].
    split; [reflexivity | now apply callsOnly_one].
  - intros _ _. split; [auto|]. exists [EvUpload content path (Resolved tt)].
    split; [reflexivity | now apply callsOnly_one].
Qed.

Variable JSON_stringify : DeploymentState -> string.
Variable JSON_parse : string -> option DeploymentState.

Lemma traces_loadState : traces P (fun _ => True) (State.loadState env JSON_parse).
Proof.
  unfold State.loadState. apply traces_try_catch; [|intros e; now apply traces_ret].
  eapply traces_bind; [apply traces_ssh_exec|]. intros result _.
  destruct (negb _); [now apply traces_ret|].
  destruct (JSON_parse _); [now apply traces_ret | apply traces_throw].
Qed.

Lemma traces_updateState n s :
  traces P (fun _ => True) (State.updateState env JSON_stringify JSON_parse n s).
Proof.
  unfold State.updateState. eapply traces_bind; [apply traces_loadState|].
  intros [state|] _; [apply traces_uploadContent | now apply traces_ret].
Qed.

Lemma traces_createState name meta :
  traces P (fun _ => True) (State.createState env JSON_stringify name meta).
Proof. intros w. unfold State.createState. apply traces_uploadContent. Qed.

Lemma traces_deleteState : traces P (fun _ => True) (State.deleteState env).
Proof.
  unfold State.deleteState. eapply traces_bind; [apply traces_ssh_exec|].
  intros r _. now apply traces_ret.
Qed.

End Traces.

Section Identity.

Variable env : Env.
Variable JSON_stringify : DeploymentState -> string.
Variable JSON_parse : string -> option DeploymentState.
Variable st : DeploymentState.
Hypothesis Hdone4 : State.isPhaseComplete st 4 = true.

Let U := Deploy.userOfMetadata (metadata st).
Let P := usesIdentity U.

Ltac identity := split; [discriminate | intros u Hu; now injection Hu as <-].

Lemma phase2_traces : traces P (fun _ => True)
                             (Deploy.phase2 env JSON_stringify JSON_parse (Some st)).
Proof.
  unfold Deploy.phase2. destruct (Deploy.mustRun _ 2); [|now apply traces_ret].
  apply traces_then; [apply traces_call; [split; [discriminate|discriminate]|]|].
  - apply traces_inert, inert_extern.
  - cbn [Deploy.isSome]. apply traces_updateState.
Qed.

Lemma phase3_traces : traces P (fun _ => True)
                             (Deploy.phase3 env JSON_stringify JSON_parse (Some st)).
Proof.
  unfold Deploy.phase3. destruct (Deploy.mustRun _ 3); [|now apply traces_ret].
  apply traces_then; [apply traces_call; [split; [discriminate|discriminate]|]|].
  - apply traces_inert, inert_extern.
  - cbn [Deploy.isSome]. apply traces_updateState.
Qed.

Lemma phase4_traces config :
  traces P (fun u => u = U) (Deploy.phase4 env JSON_stringify JSON_parse config (Some st)).
Proof.
  unfold Deploy.phase4. cbn [Deploy.mustRun]. rewrite Hdone4. cbn [negb].
  now apply traces_ret.
Qed.

Lemma phase5_traces : traces P (fun _ => True)
                             (Deploy.phase5 env JSON_stringify JSON_parse (Some st) U).
Proof.
  unfold Deploy.phase5. destruct (Deploy.mustRun _ 5); [|now apply traces_ret].
  apply traces_then; [apply traces_call; [identity|]|apply traces_updateState].
  apply traces_inert, inert_extern.
Qed.

Lemma phase6_traces config :
  traces P (fun _ => True) (Deploy.phase6 env JSON_stringify JSON_parse config (Some st) U).
Proof.
  unfold Deploy.phase6. destruct (Deploy.mustRun _ 6); [|now apply traces_ret].
  eapply traces_bind; [apply traces_call; [identity|]|].
  - apply traces_inert, inert_buildImage.
  - intros imageName _. apply traces_then; [apply traces_updateState | now apply traces_ret].
Qed.

Lemma phase7_traces imageName :
  traces P (fun _ => True) (Deploy.phase7 env JSON_stringify JSON_parse (Some st) U imageName).
Proof.
  unfold Deploy.phase7. destruct (Deploy.mustRun _ 7); [|now apply traces_ret].
  apply traces_then; [apply traces_call; [identity|]|apply traces_updateState].
  apply traces_inert, inert_extern.
Qed.

Lemma extractGatewayToken_traces :
  traces P (fun _ => True) (Deploy.extractGatewayToken env U).
Proof.
  unfold Deploy.extractGatewayToken. apply traces_call; [identity|].
  apply traces_inert, inert_await.
Qed.

Lemma phase8_traces config :
  traces P (fun _ => True) (Deploy.phase8 env JSON_stringify JSON_parse config (Some st) U).
Proof.
  unfold Deploy.phase8. destruct (Deploy.mustRun _ 8); [|apply extractGatewayToken_traces].
  apply traces_then; [apply traces_call; [identity|]|].
  { apply traces_inert, inert_runOnboarding. }
  eapply traces_bind; [apply extractGatewayToken_traces|]. intros token _.
  apply traces_then; [|apply traces_then; [apply traces_updateState | now apply traces_ret]].
  destruct (Deploy.truthy token) as [t|]; [|now apply traces_ret].
  apply traces_then; [apply traces_ssh_exec|].
  apply traces_then; apply traces_call; try identity; apply traces_inert, inert_extern.
Qed.

Lemma phase9_traces config imageName :
  traces P (fun _ => True) (Deploy.phase9 env config U imageName).
Proof.
  unfold Deploy.phase9. apply traces_call; [identity|]. apply traces_inert, inert_extern.
Qed.

Lemma phase10_traces config : traces P (fun _ => True) (Deploy.phase10 env config U).
Proof.
  unfold Deploy.phase10. apply traces_then; [apply traces_deleteState|].
  destruct (negb _); [|now apply traces_ret].
  apply traces_call; [identity|]. apply traces_inert, inert_autoConnect.
Qed.

Lemma runPhases_traces config :
  traces P (fun _ => True)
         (Deploy.runPhases env JSON_stringify JSON_parse config (Some st)).
Proof.
  unfold Deploy.runPhases.
  apply traces_then; [apply phase2_traces|].
  apply traces_then; [apply phase3_traces|].
  eapply traces_bind; [apply phase4_traces|]. intros deployUser ->.
  apply traces_then; [apply phase5_traces|].
  eapply traces_bind; [apply phase6_traces|]. intros imageName _.
  apply traces_then; [apply phase7_traces|].
  eapply traces_bind; [apply phase8_traces|]. intros gatewayToken _.
  apply traces_then; [apply phase9_traces | apply phase10_traces].
Qed.

(** C5. A run that resumes from a state [st] that holds phase 4 as
    complete gives every action that takes the principal identity the one
    made of the metadata of [st] (name, uid, gid and home), and never
    enters the action that creates the principal and asks the host for
    its identity. *)
Theorem runPhases_identity_from_metadata config w out w' :
  Deploy.runPhases env JSON_stringify JSON_parse config (Some st) w = (out, w') ->
  exists evs, log w' = log w ++ evs /\
    (forall a snap u, In (EvCall a snap) evs -> actionUser a = Some u ->
       username u = deployUser (metadata st) /\ uid u = deployUid (metadata st) /\
       gid u = deployGid (metadata st) /\ home u = deployHome (metadata st)) /\
    (forall snap, ~ In (EvCall CreateDeploymentUser snap) evs).
Proof.
  intros Hrun.
  destruct (post_run _ _ _ _ _ (runPhases_traces config w) Hrun)
    as (_ & evs & Hlog & Hcalls).
  exists evs. split; [exact Hlog|]. split.
  - intros a snap u Hin Hu. destruct (Hcalls a snap Hin) as [_ Huser].
    now rewrite (Huser u Hu).
  - intros snap Hin. now destruct (Hcalls _ snap Hin) as [Hne _].
Qed.

End Identity.

(** ** The order of the phases, whatever the host answers *)

Lemma quiet_inert {A} (m : M A) : inert m -> quiet m.
Proof.
  intros H w. eapply post_conseq; [apply H|].
  intros out w' (_ & _ & Hx & Hevs). now split.
Qed.

Lemma quiet_ret {A} (x : A) : quiet (ret x).
Proof. apply quiet_inert, inert_ret. Qed.

Lemma quiet_bind {A B} (m : M A) (k : A -> M B) :
  quiet m -> (forall x, quiet (k x)) -> quiet (bind m k).
Proof.
  intros Hm Hk w. apply post_bind. eapply post_conseq; [apply Hm|].
  intros out w1 (Hx & evs & Hlog & Hio). destruct out as [x | e | c]; cbn [andThen].
  - eapply post_conseq; [apply Hk|]. intros out2 w2 (Hx2 & evs2 & Hlog2 & Hio2).
    split; [exact Hx2|]. exists (evs ++ evs2).
    split; [rewrite Hlog2, Hlog; now rewrite app_assoc|]. apply Forall_app. now split.
  - split; [discriminate|]. now exists evs.
  - destruct (Hx c eq_refl).
Qed.

Lemma step_io ex m file ev : ioEvent ev -> stepEvent ex m file ev.
Proof. destruct ev; cbn; tauto. Qed.

Lemma Forall_step_io ex m file evs :
  Forall ioEvent evs -> Forall (stepEvent ex m file) evs.
Proof.
  intros H. apply List.Forall_forall. intros ev Hin. apply step_io.
  rewrite List.Forall_forall in H. auto.
Qed.

Lemma step_done ex m file evs b ok n :
  Forall (stepEvent ex m file) evs -> In (EvDone b ok) evs -> phaseOf b = Some n -> n = m.
Proof.
  intros Hseg Hin Hp. rewrite List.Forall_forall in Hseg. specialize (Hseg _ Hin).
  cbn in Hseg. destruct Hseg; congruence.
Qed.

Lemma step_call ex m file evs a snap n :
  Forall (stepEvent ex m file) evs -> In (EvCall a snap) evs -> phaseOf a = Some n ->
  n = m /\ snap = file /\ due ex m.
Proof.
  intros Hseg Hin Hp. rewrite List.Forall_forall in Hseg. specialize (Hseg _ Hin).
  cbn in Hseg. destruct Hseg as [Hnone | (Hsome & Hsnap & Hd)]; [congruence|].
  split; [congruence|]. split; [exact Hsnap | exact Hd].
Qed.

Section Order.

Variable env : Env.
Variable JSON_stringify : DeploymentState -> string.
Variable JSON_parse : string -> option DeploymentState.
Variable ex : option DeploymentState.

Abbreviation updateState := (State.updateState env JSON_stringify JSON_parse).
Abbreviation createState := (State.createState env JSON_stringify).

Lemma quiet_updateState n s : quiet (updateState n s).
Proof.
  intros w. eapply post_conseq; [apply updateState_spec|].
  intros out w' (_ & (evs & Hlog & Hst) & Hcase). split.
  - cbv zeta in Hcase.
    destruct (loaded env JSON_parse w); [destruct (uploadContent_reply _ _ _ _)|];
      destruct Hcase as [-> _]; discriminate.
  - exists evs. split; [exact Hlog|]. apply List.Forall_forall. intros ev Hin.
    apply stateEvent_io. rewrite List.Forall_forall in Hst. auto.
Qed.

Lemma quiet_createState name meta : quiet (createState name meta).
Proof.
  intros w. apply post_createState. set (content := JSON_stringify _).
  apply post_ssh_uploadContent.
  - intros _. split; [discriminate|]. exists []. split; [now rewrite app_nil_r | constructor].
  - intros _ e _. split; [discriminate|].
    exists [EvUpload content STATE_FILE (Rejected e)]. split; [reflexivity | repeat constructor].
  - intros _ _. split; [discriminate|].
    exists [EvUpload content STATE_FILE (Resolved tt)]. split; [reflexivity | repeat constructor].
Qed.

(** A part of a block that enters no action. *)
Lemma part_quiet {A} m file (body : M A) w :
  quiet body -> post body w (partOK ex m file w).
Proof.
  intros Hq. eapply post_conseq; [apply Hq|].
  intros out w' (Hx & evs & Hlog & Hio). exists evs.
  split; [exact Hx|]. split; [exact Hlog|]. split; [now apply Forall_step_io|].
  split; intros; now apply io_not_done with (b := b) (ok := false) in Hio.
Qed.

(** An action entered in the block of phase [m], then the rest of the block. *)
Lemma part_call {A B} m file a (body : M A) (rest : A -> M B) w :
  stateFile w = file ->
  (phaseOf a = None \/ (phaseOf a = Some m /\ due ex m)) ->
  inert body ->
  (forall x w1, stateFile w1 = file -> post (rest x) w1 (partOK ex m file w1)) ->
  post (bind (call a body) rest) w
       (fun out w' => exists evs, stepOK ex m file w out w' evs /\
                                  In (EvCall a (stateFile w)) evs).
Proof.
  intros Hf Hphase Hbody Hrest.
  apply post_bind. eapply post_conseq; [apply call_inert, Hbody|].
  intros out w1 (Hc1 & Hf1 & evs1 & ok & Hlog1 & Hio1 & Hok).
  assert (Hcall : stepEvent ex m file (EvCall a (stateFile w))).
  { destruct Hphase as [Hn | [Hm Hd]]; [now left | right]. now rewrite Hf. }
  assert (Hdone : forall ok', stepEvent ex m file (EvDone a ok')).
  { intros ok'. cbn. destruct Hphase as [Hn | [Hm Hd]]; auto. }
  destruct out as [x | e | c]; cbn [andThen]; [ | | contradiction].
  - subst ok. eapply post_conseq; [apply Hrest; congruence|].
    intros out2 w2 (evs2 & Hx2 & Hlog2 & Hseg2 & Hfail2 & Hret2).
    exists (EvCall a (stateFile w) :: evs1 ++ EvDone a true :: evs2).
    split; [|now left].
    split; [exact Hx2|].
    split; [rewrite Hlog2, Hlog1; list_eq|].
    split.
    { constructor; [exact Hcall|]. apply Forall_app. split; [now apply Forall_step_io|].
      constructor; [apply Hdone | exact Hseg2]. }
    split.
    { intros b Hin. apply in_block in Hin as [Hin | [Hin | [Hin | Hin]]];
        [discriminate | now apply io_not_done in Hin | discriminate | exact (Hfail2 _ Hin)]. }
    intros Hret b Hin. apply in_block in Hin as [Hin | [Hin | [Hin | Hin]]];
      [discriminate | now apply io_not_done in Hin | discriminate | exact (Hret2 Hret _ Hin)].
  - subst ok. exists (EvCall a (stateFile w) :: evs1 ++ [EvDone a false]).
    split; [|now left].
    split; [discriminate|]. split; [exact Hlog1|].
    split.
    { constructor; [exact Hcall|]. apply Forall_app. split; [now apply Forall_step_io|].
      constructor; [apply Hdone | constructor]. }
    split; [intros b _; split; [eauto | congruence]|].
    intros [x Hx]. discriminate Hx.
Qed.

Lemma part_call_ok {A B} m file a (body : M A) (rest : A -> M B) w :
  stateFile w = file ->
  (phaseOf a = None \/ (phaseOf a = Some m /\ due ex m)) ->
  inert body ->
  (forall x w1, stateFile w1 = file -> post (rest x) w1 (partOK ex m file w1)) ->
  post (bind (call a body) rest) w (partOK ex m file w).
Proof.
  intros. eapply post_conseq; [apply (part_call m file); eauto|].
  intros out w' (evs & Hseg & _). now exists evs.
Qed.

(** An inert step inside the block of phase [m], then the rest. *)
Lemma part_inert {A B} m file (first : M A) (rest : A -> M B) w :
  stateFile w = file ->
  inert first ->
  (forall x w1, stateFile w1 = file -> post (rest x) w1 (partOK ex m file w1)) ->
  post (bind first rest) w (partOK ex m file w).
Proof.
  intros Hf Hfirst Hrest. apply post_bind. eapply post_conseq; [apply Hfirst|].
  intros out w1 (Hc1 & Hf1 & Hx1 & evs1 & Hlog1 & Hio1).
  destruct out as [x | e | c]; cbn [andThen].
  - eapply post_conseq; [apply Hrest; congruence|].
    intros out2 w2 (evs2 & Hx2 & Hlog2 & Hseg2 & Hfail2 & Hret2).
    exists (evs1 ++ evs2).
    split; [exact Hx2|]. split; [rewrite Hlog2, Hlog1; now rewrite app_assoc|].
    split; [apply Forall_app; split; [now apply Forall_step_io | exact Hseg2]|].
    split.
    + intros b Hin. apply in_app_or in Hin as [Hin | Hin];
        [now apply io_not_done in Hin | exact (Hfail2 _ Hin)].
    + intros Hret b Hin. apply in_app_or in Hin as [Hin | Hin];
        [now apply io_not_done in Hin | exact (Hret2 Hret _ Hin)].
  - exists evs1. split; [discriminate|]. split; [exact Hlog1|].
    split; [now apply Forall_step_io|].
    split; intros; now apply io_not_done with (b := b) (ok := false) in Hio1.
  - destruct (Hx1 c eq_refl).
Qed.

(** A guarded phase that is not due: its block enters nothing. *)
Lemma whole_skip {A} m (x : A) w :
  guardedPhase m -> Deploy.mustRun ex m = false -> post (ret x) w (wholeOK ex m w).
Proof.
  intros Hg Hrun. apply post_ret. exists [].
  split.
  - split; [discriminate|]. split; [now rewrite app_nil_r|]. split; [constructor|].
    split; [intros b [] | intros _ b []].
  - intros _ Hdue. specialize (Hdue Hg). congruence.
Qed.

(** The block of a phase that is due: the action is entered first. *)
Lemma whole_call {A B} m a (body : M A) (rest : A -> M B) w :
  phaseOf a = Some m -> due ex m -> inert body ->
  (forall x w1, stateFile w1 = stateFile w ->
                post (rest x) w1 (partOK ex m (stateFile w) w1)) ->
  post (bind (call a body) rest) w (wholeOK ex m w).
Proof.
  intros Hp Hd Hbody Hrest.
  eapply post_conseq; [apply (part_call m (stateFile w)); auto|].
  intros out w' (evs & Hseg & Hin). exists evs. split; [exact Hseg|].
  intros _ _. now exists a, (stateFile w).
Qed.

Lemma due_run m : Deploy.mustRun ex m = true -> due ex m.
Proof. intros H _. exact H. Qed.

Lemma phase2_order w :
  post (Deploy.phase2 env JSON_stringify JSON_parse ex) w (wholeOK ex 2 w).
Proof.
  unfold Deploy.phase2.
  destruct (Deploy.mustRun ex 2) eqn:Hrun; [|apply whole_skip; auto; unfold guardedPhase; lia].
  apply whole_call; [reflexivity | now apply due_run | apply inert_extern |].
  intros [] w1 Hf. apply part_quiet.
  destruct (Deploy.isSome ex); [apply quiet_updateState | apply quiet_ret].
Qed.

Lemma phase3_order w :
  post (Deploy.phase3 env JSON_stringify JSON_parse ex) w (wholeOK ex 3 w).
Proof.
  unfold Deploy.phase3.
  destruct (Deploy.mustRun ex 3) eqn:Hrun; [|apply whole_skip; auto; unfold guardedPhase; lia].
  apply whole_call; [reflexivity | now apply due_run | apply inert_extern |].
  intros [] w1 Hf. apply part_quiet.
  destruct (Deploy.isSome ex); [apply quiet_updateState | apply quiet_ret].
Qed.

(** A phase that is not due has an existing state to read from. *)
Lemma not_due_state m :
  Deploy.mustRun ex m = false -> exists st, ex = Some st.
Proof. unfold Deploy.mustRun. destruct ex; [eauto | discriminate]. Qed.

Lemma phase4_order config w :
  post (Deploy.phase4 env JSON_stringify JSON_parse config ex) w (wholeOK ex 4 w).
Proof.
  unfold Deploy.phase4. destruct (Deploy.mustRun ex 4) eqn:Hrun.
  - apply whole_call; [reflexivity | now apply due_run | apply inert_await |].
    intros deployUser w1 Hf. apply part_quiet.
    apply quiet_bind; [destruct (negb (Deploy.isSome ex)) |
                       intros _; apply quiet_bind; [|intros _]];
      auto using quiet_createState, quiet_updateState, quiet_ret.
  - destruct (not_due_state 4 Hrun) as [st Hst].
    replace (match ex with
             | Some st0 => ret (Deploy.userOfMetadata (metadata st0))
             | None => throw "unreachable"
             end)
      with (ret (A:=UserInfo) (Deploy.userOfMetadata (metadata st))) by (now rewrite Hst).
    apply whole_skip; auto. unfold guardedPhase; lia.
Qed.

Lemma phase5_order deployUser w :
  post (Deploy.phase5 env JSON_stringify JSON_parse ex deployUser) w (wholeOK ex 5 w).
Proof.
  unfold Deploy.phase5.
  destruct (Deploy.mustRun ex 5) eqn:Hrun; [|apply whole_skip; auto; unfold guardedPhase; lia].
  apply whole_call; [reflexivity | now apply due_run | apply inert_extern |].
  intros [] w1 Hf. apply part_quiet, quiet_updateState.
Qed.

Lemma phase6_order config deployUser w :
  post (Deploy.phase6 env JSON_stringify JSON_parse config ex deployUser) w (wholeOK ex 6 w).
Proof.
  unfold Deploy.phase6. destruct (Deploy.mustRun ex 6) eqn:Hrun.
  - apply whole_call; [reflexivity | now apply due_run | apply inert_buildImage |].
    intros imageName w1 Hf. apply part_quiet.
    apply quiet_bind; [apply quiet_updateState | intros _; apply quiet_ret].
  - destruct (not_due_state 6 Hrun) as [st Hst].
    replace (match ex with Some st0 => ret (image (metadata st0)) | None => throw "unreachable" end)
      with (ret (A:=string) (image (metadata st))) by (now rewrite Hst).
    apply whole_skip; auto. unfold guardedPhase; lia.
Qed.

Lemma phase7_order deployUser imageName w :
  post (Deploy.phase7 env JSON_stringify JSON_parse ex deployUser imageName) w (wholeOK ex 7 w).
Proof.
  unfold Deploy.phase7.
  destruct (Deploy.mustRun ex 7) eqn:Hrun; [|apply whole_skip; auto; unfold guardedPhase; lia].
  apply whole_call; [reflexivity | now apply due_run | apply inert_extern |].
  intros [] w1 Hf. apply part_quiet, quiet_updateState.
Qed.

Lemma phase8_order config deployUser w :
  post (Deploy.phase8 env JSON_stringify JSON_parse config ex deployUser) w (wholeOK ex 8 w).
Proof.
  unfold Deploy.phase8, Deploy.extractGatewayToken.
  destruct (Deploy.mustRun ex 8) eqn:Hrun.
  - pose proof (due_run 8 Hrun) as Hdue.
    apply whole_call; [reflexivity | exact Hdue | apply inert_runOnboarding |].
    intros [] w1 Hf1.
    apply part_call_ok; [exact Hf1 | now left | apply inert_await |].
    intros token w2 Hf2.
    assert (Hend : forall w5,
              post (bind (updateState 8 complete) (fun _ => ret token)) w5
                   (partOK ex 8 (stateFile w) w5)).
    { intros w5. apply part_quiet.
      apply quiet_bind; [apply quiet_updateState | intros _; apply quiet_ret]. }
    destruct (Deploy.truthy token) as [t|].
    + apply post_bind_assoc, part_inert;
        [exact Hf2 | apply inert_ssh_exec, stopGateway_plain |].
      intros r w3 Hf3. cbv beta.
      apply post_bind_assoc, part_call_ok; [exact Hf3 | right; auto | apply inert_extern |].
      intros [] w4 Hf4. cbv beta.
      apply part_call_ok; [exact Hf4 | right; auto | apply inert_extern |].
      intros [] w5 Hf5. apply Hend.
    + apply post_bind, post_ret. cbn [andThen]. apply Hend.
  - apply post_bind_ret.
    eapply post_conseq;
      [apply (part_call 8 (stateFile w));
         [reflexivity | now left | apply inert_await |
          intros x w1 _; apply part_quiet, quiet_ret]|].
    intros out w' (evs & Hseg & _). exists evs. split; [exact Hseg|].
    intros _ Hdue. assert (Hg : guardedPhase 8) by (unfold guardedPhase; lia).
    specialize (Hdue Hg). congruence.
Qed.

Lemma phase9_order config deployUser imageName w :
  post (Deploy.phase9 env config deployUser imageName) w (wholeOK ex 9 w).
Proof.
  unfold Deploy.phase9.
  apply post_bind_ret, whole_call;
    [reflexivity | intros Hg; unfold guardedPhase in Hg; lia | apply inert_extern |].
  intros [] w1 Hf. apply part_quiet, quiet_ret.
Qed.

Lemma ordered_mono m m' evs : m <= m' -> ordered ex m evs -> ordered ex m' evs.
Proof.
  intros Hle [Hcall Hdone]. split.
  - intros a snap n Hin Hp. destruct (Hcall a snap n Hin Hp) as (Hlt & Hd & Hprev).
    split; [lia|]. now split.
  - intros b ok n Hin Hp. specialize (Hdone b ok n Hin Hp). lia.
Qed.

Lemma reached_start w : reached ex 2 w w [].
Proof.
  split; [now rewrite app_nil_r|].
  split; [split; [intros a snap n [] | intros b ok n []]|].
  split; [intros b []|]. intros k Hk. lia.
Qed.

(** The events of the blocks below [m], extended by the block of [m]. *)
Lemma ordered_step m w0 w evs evs' :
  2 <= m ->
  reached ex m w0 w evs ->
  Forall (stepEvent ex m (stateFile w)) evs' ->
  ordered ex (m + 1) (evs ++ evs').
Proof.
  intros Hm (Hlog & [Hcall Hdone] & Hnofail & Hprev) Hseg. split.
  - intros a snap n Hin Hp. apply in_app_or in Hin as [Hin | Hin].
    + destruct (Hcall a snap n Hin Hp) as (Hlt & Hd & Hpv).
      split; [lia|]. split; [exact Hd|].
      intros k Hk Hdk. apply called_app_l. auto.
    + destruct (step_call _ _ _ _ _ _ _ Hseg Hin Hp) as (-> & -> & Hd).
      split; [lia|]. split; [exact Hd|].
      intros k Hk Hdk. apply called_app_l. auto.
  - intros b ok n Hin Hp. apply in_app_or in Hin as [Hin | Hin].
    + specialize (Hdone b ok n Hin Hp). lia.
    + assert (n = m) by (eapply step_done; eauto). lia.
Qed.

(** The block of phase [m] run after the blocks below it, and then the
    rest of the run. *)
Lemma reached_bind {A B} m (blk : M A) (rest : A -> M B) w0 w evs :
  reached ex m w0 w evs ->
  2 <= m <= 9 ->
  post blk w (wholeOK ex m w) ->
  (forall x w' evs', reached ex (m + 1) w0 w' evs' -> post (rest x) w' (phasesOK ex w0)) ->
  post (bind blk rest) w (phasesOK ex w0).
Proof.
  intros Hprog Hm Hblk Hrest. apply post_bind. eapply post_conseq; [exact Hblk|].
  intros out w' (evs' & (Hex & Hlog' & Hseg & Hfail & Hret) & Hcalled).
  pose proof (ordered_step m w0 w evs evs' (proj1 Hm) Hprog Hseg) as Htrace.
  destruct Hprog as (Hlog & Htr & Hnofail & Hprev).
  destruct out as [x | e | c]; cbn [andThen].
  - apply (Hrest x w' (evs ++ evs')).
    split; [rewrite Hlog', Hlog; now rewrite app_assoc|].
    split; [exact Htrace|].
    split.
    { intros b Hin. apply in_app_or in Hin as [Hin|Hin];
        [exact (Hnofail _ Hin) | exact (Hret (ex_intro _ x eq_refl) _ Hin)]. }
    intros k Hk Hdk. destruct (Z.eq_dec k m) as [-> | Hne].
    + apply called_app_r. apply Hcalled; [eauto | exact Hdk].
    + apply called_app_l. apply Hprev; [lia | exact Hdk].
  - exists (evs ++ evs').
    split; [rewrite Hlog', Hlog; now rewrite app_assoc|].
    split; [discriminate|].
    split; [apply ordered_mono with (m + 1); [lia | exact Htrace]|].
    split.
    + intros b n Hin Hp. apply in_app_or in Hin as [Hin|Hin]; [destruct (Hnofail _ Hin)|].
      destruct (Hfail b Hin) as [_ Hfile]. split; [eauto|].
      intros a snap k Hina Hpa.
      assert (n = m) as -> by (eapply step_done; eauto).
      apply in_app_or in Hina as [Hina|Hina].
      * destruct Htr as [Hcall _]. destruct (Hcall a snap k Hina Hpa) as (Hlt & _).
        split; [lia|]. intros ->. lia.
      * destruct (step_call _ _ _ _ _ _ _ Hseg Hina Hpa) as (-> & -> & _).
        split; [lia|]. intros _. exact Hfile.
    + intros [x Hx]. discriminate Hx.
  - destruct (Hex c eq_refl).
Qed.

Lemma reached_end config deployUser w0 w evs :
  reached ex 10 w0 w evs ->
  post (Deploy.phase10 env config deployUser) w (phasesOK ex w0).
Proof.
  intros (Hlog & [Hcall Hdone] & Hnofail & Hprev).
  eapply post_conseq;
    [apply (phase10_ok env None config deployUser w); intros eu Heu; discriminate Heu|].
  intros out w' (Hex & evs' & Hlog' & Hcalls & Hdones & Hfail).
  exists (evs ++ evs').
  split; [rewrite Hlog', Hlog; now rewrite app_assoc|].
  split; [exact Hex|].
  split; [split|split].
  - intros a snap n Hin Hp. apply in_app_or in Hin as [Hin|Hin].
    + destruct (Hcall a snap n Hin Hp) as (Hlt & Hd & Hpv).
      split; [exact Hlt|]. split; [exact Hd|].
      intros k Hk Hdk. apply called_app_l. auto.
    + destruct (Hcalls a snap Hin) as [Hnone _]. congruence.
  - intros b ok n Hin Hp. apply in_app_or in Hin as [Hin|Hin].
    + eapply Hdone; eauto.
    + specialize (Hdones _ _ Hin). congruence.
  - intros b n Hin Hp. apply in_app_or in Hin as [Hin|Hin]; [destruct (Hnofail _ Hin)|].
    specialize (Hdones _ _ Hin). congruence.
  - intros _ k Hk Hdk. apply called_app_l. apply Hprev; [lia | exact Hdk].
Qed.

(** The order of the phases 2 to 10, on any host. *)
Lemma runPhases_order config w :
  post (Deploy.runPhases env JSON_stringify JSON_parse config ex) w (phasesOK ex w).
Proof.
  unfold Deploy.runPhases.
  apply (reached_bind 2 _ _ w w [] (reached_start w)); [lia | apply phase2_order |].
  intros [] w3 evs3 H3.
  apply (reached_bind 3 _ _ w w3 evs3 H3); [lia | apply phase3_order |].
  intros [] w4 evs4 H4.
  apply (reached_bind 4 _ _ w w4 evs4 H4); [lia | apply phase4_order |].
  intros deployUser w5 evs5 H5.
  apply (reached_bind 5 _ _ w w5 evs5 H5); [lia | apply phase5_order |].
  intros [] w6 evs6 H6.
  apply (reached_bind 6 _ _ w w6 evs6 H6); [lia | apply phase6_order |].
  intros imageName w7 evs7 H7.
  apply (reached_bind 7 _ _ w w7 evs7 H7); [lia | apply phase7_order |].
  intros [] w8 evs8 H8.
  apply (reached_bind 8 _ _ w w8 evs8 H8); [lia | apply phase8_order |].
  intros gatewayToken w9 evs9 H9.
  apply (reached_bind 9 _ _ w w9 evs9 H9); [lia | apply phase9_order |].
  intros [] w10 evs10 H10.
  now apply reached_end with evs10.
Qed.

(** In every run of the phases, on any host and from any state [ex] to
    resume from: when an action of phase [n] fails, the run throws, no
    action of a later phase is entered, and the state file is left as
    the actions of phase [n] found it. *)
Theorem runPhases_failure_stops_run config w out w' :
  Deploy.runPhases env JSON_stringify JSON_parse config ex w = (out, w') ->
  exists evs, log w' = log w ++ evs /\
    forall b n, In (EvDone b false) evs -> phaseOf b = Some n ->
      (exists e, out = Thrown e) /\
      (forall a snap k, In (EvCall a snap) evs -> phaseOf a = Some k -> k <= n) /\
      (forall a snap, In (EvCall a snap) evs -> phaseOf a = Some n -> stateFile w' = snap).
Proof.
  intros Hrun.
  destruct (post_run _ _ _ _ _ (runPhases_order config w) Hrun)
    as (evs & Hlog & _ & _ & Hfail & _).
  exists evs. split; [exact Hlog|]. intros b n Hin Hp.
  destruct (Hfail b n Hin Hp) as [Hthrown Hlater]. split; [exact Hthrown|]. split.
  - intros a snap k Ha Hk. now destruct (Hlater a snap k Ha Hk).
  - intros a snap Ha Hn. now destruct (Hlater a snap n Ha Hn) as [_ ->].
Qed.

End Order.

(** In every run of the phases that resumes from a state [st], on any
    host: an action of phase [n] is entered only if [n] is one of 2 to 9
    and, for the guarded phases 2 to 8, [st] does not hold [n] as
    complete; and every such phase has an action entered when the run
    returned or went on to a later phase. Phase 9 is run whatever [st]
    holds for it. *)
Theorem runPhases_runs_incomplete_phases env JSON_stringify JSON_parse config st w out w' :
  Deploy.runPhases env JSON_stringify JSON_parse config (Some st) w = (out, w') ->
  exists evs, log w' = log w ++ evs /\
    (forall n, called n evs ->
       2 <= n <= 9 /\ (n <= 8 -> State.isPhaseComplete st n = false)) /\
    (forall n, 2 <= n <= 9 -> (n <= 8 -> State.isPhaseComplete st n = false) ->
       (exists x, out = Returned x) \/ (exists m, n < m /\ called m evs) ->
       called n evs).
Proof.
  intros Hrun.
  destruct (post_run _ _ _ _ _
              (runPhases_order env JSON_stringify JSON_parse (Some st) config w) Hrun)
    as (evs & Hlog & _ & [Hcall Hdone] & _ & Hret).
  assert (Hdue : forall n, due (Some st) n <->
                           (2 <= n <= 8 -> State.isPhaseComplete st n = false)).
  { intros n. unfold due, guardedPhase. cbn [Deploy.mustRun].
    rewrite negb_true_iff. reflexivity. }
  exists evs. split; [exact Hlog|]. split.
  - intros n (a & snap & Hin & Hp).
    destruct (Hcall a snap n Hin Hp) as (Hlt & Hd & Hprev).
    split; [lia|]. intros Hn. apply Hdue; [exact Hd | lia].
  - intros n Hn Hst [Hout | (m & Hlt & a & snap & Hin & Hp)].
    + apply Hret; [exact Hout | exact Hn |]. apply Hdue. intros Hg. apply Hst. lia.
    + destruct (Hcall a snap m Hin Hp) as (_ & _ & Hprev).
      apply Hprev; [lia|]. apply Hdue. intros Hg. apply Hst. lia.
Qed.

(** ** Runs against the scenario hosts *)

Section Runs.
Import Scenario.

Lemma host_reads h events : exists r, exec_reply (envOf h) events CAT_STATE = Resolved r.
Proof. eexists. reflexivity. Qed.

(** Membership of an event in the log of a run that evaluates. *)
Ltac find_event := vm_compute; repeat (first [left; reflexivity | right]).

(** *** C1 *)

(** C1 (code). On a fresh host [deployCommand] goes through, phase 2
    completes, and the action of phase 3 is entered with no state file
    at all: the completion of phase 2 is not persisted before the later
    phase begins, so it is not true of this run that every completed
    phase is recorded in the state file that a later action finds. *)
Lemma fresh_run_leaves_phase_2_unrecorded :
  fst (deploy healthy flags start) = Returned tt /\
  In (EvDone InstallBasePackages true) (log (snd (deploy healthy flags start))) /\
  In (EvCall InstallDocker None) (log (snd (deploy healthy flags start))) /\
  ~ persistedBefore Json.parse (fun _ => True) (log (snd (deploy healthy flags start))).
Proof.
  assert (Hdone : In (EvDone InstallBasePackages true) (log (snd (deploy healthy flags start))))
    by find_event.
  assert (Hcall : In (EvCall InstallDocker None) (log (snd (deploy healthy flags start))))
    by find_event.
  split; [vm_compute; reflexivity|]. split; [exact Hdone|]. split; [exact Hcall|].
  intros Hall.
  destruct (Hall InstallBasePackages 2 InstallDocker None 3 Hdone eq_refl Hcall eq_refl
                 ltac:(lia) I) as (text & st & Hfile & _).
  discriminate Hfile.
Qed.

(** *** C2 *)

(** C2 (code). On a fresh host where the creation of the directories
    (phase 5) fails, [deployCommand] exits with phase 5 still [pending]
    in the state file: the failure is not recorded as [failed]. *)
Theorem failed_phase_is_left_pending :
  fst (deploy (failingIn 5) flags start) = Exited 1 /\
  In (EvDone (CreateDirectories principal) false)
     (log (snd (deploy (failingIn 5) flags start))) /\
  stateFile (snd (deploy (failingIn 5) flags start)) = Some (Json.stringify interrupted) /\
  phases interrupted !! 5 = Some pending.
Proof.
  split; [vm_compute; reflexivity|]. split; [find_event|].
  split; vm_compute; reflexivity.
Qed.

(** *** C3 *)

(** C3 (code). The failures of the ten classes leave [deployCommand]
    with the same exit code 1: invalid arguments, connection, and the
    actions of the phases 2 to 9; only the SSH user that is not root has
    a code of its own, 2. *)
Theorem failure_classes_share_exit_code :
  fst (deploy healthy badFlags start) = Exited 1 /\
  fst (deploy unreachable flags start) = Exited 1 /\
  fst (deploy (failingIn 2) flags start) = Exited 1 /\
  fst (deploy (failingIn 3) flags start) = Exited 1 /\
  fst (deploy (failingIn 4) flags start) = Exited 1 /\
  fst (deploy (failingIn 5) flags start) = Exited 1 /\
  fst (deploy brokenBuild flags start) = Exited 1 /\
  fst (deploy (failingIn 7) flags start) = Exited 1 /\
  fst (deploy (failingIn 8) flags start) = Exited 1 /\
  fst (deploy (failingIn 9) flags start) = Exited 1 /\
  fst (deploy unprivileged flags start) = Exited 2.
Proof. repeat split; vm_compute; reflexivity. Qed.

(** *** C4 *)

(** C4 (code). A fresh run fails in phase 5 after phase 2 completed in
    it; the next run, started on the host as the first one left it,
    enters the action of phase 2 again, with the state file of the first
    run in place: the phases before the failed one are not all skipped. *)
Lemma rerun_after_failure_repeats_phase_2 :
  In (EvDone InstallBasePackages true) (log (snd (deploy (failingIn 5) flags start))) /\
  In (EvDone (CreateDirectories principal) false)
     (log (snd (deploy (failingIn 5) flags start))) /\
  In (EvCall InstallBasePackages (Some (Json.stringify interrupted)))
     (log (snd (deploy healthy flags (again (snd (deploy (failingIn 5) flags start)))))).
Proof. split; [find_event|]. split; find_event. Qed.

(** *** C5 *)

Lemma runPhases_identity_from_metadata_witness :
  exists evs,
    log (snd (Deploy.runPhases (envOf healthy) Json.stringify Json.parse config
                               (Some interrupted) resumed)) = log resumed ++ evs /\
    (forall a snap u, In (EvCall a snap) evs -> actionUser a = Some u ->
       username u = deployUser (metadata interrupted) /\
       uid u = deployUid (metadata interrupted) /\
       gid u = deployGid (metadata interrupted) /\
       home u = deployHome (metadata interrupted)) /\
    (forall snap, ~ In (EvCall CreateDeploymentUser snap) evs).
Proof.
  apply (runPhases_identity_from_metadata
           (envOf healthy) Json.stringify Json.parse interrupted eq_refl config resumed
           (fst (Deploy.runPhases (envOf healthy) Json.stringify Json.parse config
                                  (Some interrupted) resumed))).
  vm_compute. reflexivity.
Defined.

(** *** C6 *)

(** The state file that a crash cut short. *)
Lemma loadState_unreadable_is_no_state_witness :
  fst (State.loadState (envOf healthy) Json.parse corrupt) = Returned None /\
  fst (State.detectPartialDeployment (envOf healthy) Json.parse corrupt) = Returned None /\
  (forall config,
     fst (Deploy.resolveExistingState (envOf healthy) Json.parse config corrupt) =
     Returned None) /\
  (forall n, Deploy.mustRun None n = true).
Proof.
  apply (loadState_unreadable_is_no_state (envOf healthy) Json.parse corrupt).
  right. right. exists "{ ". split; reflexivity.
Defined.

(** *** C7 *)

Lemma autoConnect_approves_first_new_request_witness :
  exists evs,
    log (snd (AutoConnect.autoConnect (envOf pairing) (sshOf flags) principal 18789 online)) =
    log online ++ evs /\
    (forall req, In req (observedAll principal (afterBrowser evs)) ->
       requestId req ∉ baselineIds principal evs ->
       exists first reply,
         AutoConnect.firstNew (baselineIds principal evs)
                              (observedAll principal (afterBrowser evs)) = Some first /\
         In first (observedAll principal (afterBrowser evs)) /\
         (requestId first ∉ baselineIds principal evs) /\
         approvals principal evs =
         [EvExec (AutoConnect.approveCmd principal (requestId first)) reply]) /\
    ((forall req, In req (observedAll principal (afterBrowser evs)) ->
        requestId req ∈ baselineIds principal evs) ->
     approvals principal evs = []).
Proof.
  apply (autoConnect_approves_first_new_request
           (envOf pairing) principal (sshOf flags) 18789 online
           (fst (AutoConnect.autoConnect (envOf pairing) (sshOf flags) principal 18789 online))).
  vm_compute. reflexivity.
Defined.

(** C7 as stated fails when two requests appear between two polls: both
    are new, one approval call is made, and it targets the first of the
    two; the second is not approved. *)
Lemma second_new_request_is_not_approved :
  In (mkPairingRequest request2 "phone" "10.0.0.6" "3s")
     (observedAll principal
        (afterBrowser
           (log (snd (AutoConnect.autoConnect (envOf pairing) (sshOf flags) principal
                                              18789 online))))) /\
  baselineIds principal
    (log (snd (AutoConnect.autoConnect (envOf pairing) (sshOf flags) principal
                                       18789 online))) = ∅ /\
  approvals principal
    (log (snd (AutoConnect.autoConnect (envOf pairing) (sshOf flags) principal
                                       18789 online))) =
  [EvExec (AutoConnect.approveCmd principal request1) (Resolved (success ""))] /\
  request1 <> request2.
Proof.
  split; [find_event|]. split; [vm_compute; reflexivity|].
  split; [vm_compute; reflexivity | discriminate].
Qed.

(** *** C8 *)


(** *** C9 *)

(** The wizard that closes with an error after it wrote the marker. *)
Lemma runOnboarding_marker_decides_witness :
  fst (Interactive.runOnboarding (envOf abruptWizard) principal false online) = Returned tt.
Proof.
  apply (runOnboarding_marker_decides (envOf abruptWizard) principal online (failure 1)).
  - reflexivity.
  - vm_compute. reflexivity.
  - vm_compute. discriminate.
  - vm_compute. reflexivity.
Defined.

(** *** C10 *)

Lemma updateState_changes_only_phase_witness :
  fst (State.updateState (envOf healthy) Json.stringify Json.parse 5 complete resumed) =
  Returned tt /\
  exists S',
    stateFile (snd (State.updateState (envOf healthy) Json.stringify Json.parse
                                      5 complete resumed)) = Some (Json.stringify S') /\
    phases S' !! 5 = Some complete /\ lastPhase S' = 5 /\
    instanceName S' = instanceName interrupted /\
    deploymentId S' = deploymentId interrupted /\
    startedAt S' = startedAt interrupted /\ metadata S' = metadata interrupted /\
    (forall k, k <> 5 -> phases S' !! k = phases interrupted !! k).
Proof.
  apply (updateState_changes_only_phase (envOf healthy) Json.stringify Json.parse
                                        5 complete resumed interrupted).
  - unfold loaded, resumed. cbn [connected log stateFile].
    destruct (host_reads healthy []) as [r ->]. cbn [mbind option_bind].
    apply Json_parse_stringify.
  - reflexivity.
Defined.

End Runs.

(** * Properties of the rest of the modules *)

(** ** The state file (lib/state.ts) *)

Lemma nextPhaseFrom_spec st n : forall p,
  p + Z.of_nat n = 11 ->
  p <= State.nextPhaseFrom st p n <= 11 /\
  (forall k, p <= k < State.nextPhaseFrom st p n -> ~ unfinished st k) /\
  (State.nextPhaseFrom st p n <= 10 -> unfinished st (State.nextPhaseFrom st p n)).
Proof.
  induction n as [|n IH]; intros p Hp; cbn [State.nextPhaseFrom].
  - split; [lia|]. split; [intros k Hk; lia | lia].
  - destruct (bool_decide (phases st !! p = Some pending)) eqn:Hpend;
      [|destruct (bool_decide (phases st !! p = Some failed)) eqn:Hfail]; cbn [orb].
    + apply bool_decide_eq_true in Hpend.
      split; [lia|]. split; [intros k Hk; lia | intros _; now left].
    + apply bool_decide_eq_true in Hfail.
      split; [lia|]. split; [intros k Hk; lia | intros _; now right].
    + apply bool_decide_eq_false in Hpend, Hfail.
      destruct (IH (p + 1) ltac:(lia)) as (Hrange & Hbefore & Hat).
      split; [lia|]. split; [|exact Hat].
      intros k Hk. destruct (Z.eq_dec k p) as [-> | Hne].
      * intros [H | H]; contradiction.
      * apply Hbefore. lia.
Qed.

(** [getNextPhase] returns the least phase of 1 to 10 that is pending or
    failed, and 11 when there is none. *)
Theorem getNextPhase_least_unfinished st :
  1 <= State.getNextPhase st <= 11 /\
  (forall k, 1 <= k < State.getNextPhase st -> ~ unfinished st k) /\
  (State.getNextPhase st <= 10 -> unfinished st (State.getNextPhase st)).
Proof. apply (nextPhaseFrom_spec st 10 1). reflexivity. Qed.

(** Marking as complete the phase that [getNextPhase] names moves
    [getNextPhase] past it. *)
Theorem getNextPhase_advances st :
  State.getNextPhase st <= 10 ->
  State.getNextPhase st <
  State.getNextPhase (State.setPhase st (State.getNextPhase st) complete).
Proof.
  intros Hp. set (p := State.getNextPhase st) in *.
  destruct (nextPhaseFrom_spec st 10 1 eq_refl) as (Hrange & Hbefore & _).
  fold (State.getNextPhase st) in Hrange, Hbefore. fold p in Hrange, Hbefore.
  destruct (nextPhaseFrom_spec (State.setPhase st p complete) 10 1 eq_refl)
    as (Hrange' & _ & Hat').
  fold (State.getNextPhase (State.setPhase st p complete)) in Hrange', Hat'.
  set (q := State.getNextPhase (State.setPhase st p complete)) in *.
  destruct (Z_lt_le_dec p q) as [Hlt | Hle]; [exact Hlt | exfalso].
  specialize (Hat' ltac:(lia)). unfold unfinished in Hat'. cbn [State.setPhase phases] in Hat'.
  destruct (Z.eq_dec q p) as [Heq | Hne].
  - rewrite Heq, lookup_insert_eq in Hat'. destruct Hat' as [H | H]; discriminate H.
  - rewrite lookup_insert_ne in Hat' by congruence. apply (Hbefore q); [lia | exact Hat'].
Qed.

Lemma tally_sum l : forall c f p,
  let '(c', f', p') := fold_left tally l (c, f, p) in
  c' + f' + p' = c + f + p + Z.of_nat (length l).
Proof.
  induction l as [|s l IH]; intros c f p; cbn [fold_left length].
  - lia.
  - destruct s; cbn [tally].
    + specialize (IH c f (p + 1)). destruct (fold_left tally l _) as [[c' f'] p']. lia.
    + specialize (IH (c + 1) f p). destruct (fold_left tally l _) as [[c' f'] p']. lia.
    + specialize (IH c (f + 1) p). destruct (fold_left tally l _) as [[c' f'] p']. lia.
Qed.

Lemma initialPhases_dom n :
  1 <= n <= 10 -> n ∈ dom State.initialPhases.
Proof.
  intros Hn. apply elem_of_dom.
  assert (H : n = 1 \/ n = 2 \/ n = 3 \/ n = 4 \/ n = 5 \/ n = 6 \/ n = 7 \/ n = 8 \/
              n = 9 \/ n = 10) by lia.
  repeat (destruct H as [-> | H]; [now eexists|]). subst n. now eexists.
Qed.

Lemma written_dom st : written st -> dom (phases st) = dom State.initialPhases.
Proof.
  induction 1 as [|st n s Hst IH Hn]; [reflexivity|].
  cbn [State.setPhase phases]. rewrite dom_insert_L, IH.
  apply subseteq_union_1_L, singleton_subseteq_l, initialPhases_dom, Hn.
Qed.

(** In every state that [createState] and [updateState] write for the
    phases 1 to 10, the three counts of [getProgressSummary] add up to its
    total, 10. *)
Theorem getProgressSummary_counts_add_up st :
  written st ->
  completeCount (getProgressSummary st) + failedCount (getProgressSummary st) +
  pendingCount (getProgressSummary st) = totalCount (getProgressSummary st) /\
  totalCount (getProgressSummary st) = 10.
Proof.
  intros Hst. unfold getProgressSummary.
  pose proof (tally_sum (map snd (map_to_list (phases st))) 0 0 0) as Hsum.
  destruct (fold_left tally _ _) as [[c f] p]. cbn [completeCount failedCount pendingCount totalCount].
  split; [|reflexivity]. rewrite Hsum, length_map, length_map_to_list.
  rewrite <- size_dom, (written_dom st Hst). reflexivity.
Qed.

(** A property of the result of a run, from the rules of [post]. *)
Ltac from_post Hrun :=
  match type of Hrun with
  | ?m ?w = (?out, ?w') =>
      pattern out, w'; apply (post_run m w _ out w'); [clear Hrun | exact Hrun]
  end.

(** ** The gateway (lib/interactive.ts) *)

Lemma logsCmd_plain u : plain (Gateway.logsCmd u).
Proof.
  apply plain_intro; intros Heq; unfold Gateway.logsCmd in Heq;
    cbn [append] in Heq; discriminate Heq.
Qed.

Section GatewayFacts.

Variable env : Env.
Variable userInfo : UserInfo.

Lemma waitListening_spec : forall n fuel waited w,
  (n < fuel)%nat -> waited = 30 - 2 * Z.of_nat n -> (n <= 15)%nat ->
  connected w = true ->
  post (Gateway.waitListening env fuel userInfo waited) w
       (fun out w' =>
          connected w' = true /\
          exists replies,
            log w' = log w ++ pollRounds userInfo replies /\
            listeningOutcome n replies out).
Proof.
  induction n as [|n IH]; intros fuel waited w Hfuel Hwaited Hn Hon;
    (destruct fuel as [|fuel]; [lia|]); cbn [Gateway.waitListening].
  - subst waited. cbn [Z.of_nat]. apply post_ret. split; [exact Hon|].
    exists []. split; [now rewrite app_nil_r|]. right. left.
    split; [constructor|]. split; reflexivity.
  - assert (Hlt : Z.ltb waited Gateway.maxWaitTime = true).
    { apply Z.ltb_lt. unfold Gateway.maxWaitTime. lia. }
    rewrite Hlt.
    cbn [negb]. apply post_bind. unfold post at 1, sleep. cbn [fst snd andThen].
    set (w1 := mkWorld _ _ _ _).
    assert (Hon1 : connected w1 = true) by exact Hon.
    apply post_bind, post_ssh_exec_plain; [apply logsCmd_plain | congruence | |].
    + intros _ e _. cbn [andThen]. split; [exact Hon|].
      exists [Rejected e]. split; [cbn [log record w1]; list_eq|].
      right. right. exists [], e. split; [reflexivity|]. split; [constructor|].
      split; [cbn [length]; lia | reflexivity].
    + intros _ r _. cbn [andThen].
      set (w2 := record _ w1).
      assert (Hlog2 : log w2 = log w ++ pollRounds userInfo [Resolved r]).
      { cbn [log record w1 w2 pollRounds flat_map]. list_eq. }
      destruct (bool_decide (exitCode r = 0)) eqn:Hexit.
      * apply bool_decide_eq_true in Hexit. apply post_ret. split; [exact Hon|].
        exists [Resolved r]. split; [exact Hlog2|].
        left. exists [], r. split; [reflexivity|]. split; [constructor|].
        split; [exact Hexit|]. split; [cbn [length]; lia | reflexivity].
      * apply bool_decide_eq_false in Hexit.
        eapply post_conseq;
          [apply (IH fuel (waited + Gateway.checkInterval) w2);
           [lia | unfold Gateway.checkInterval; lia | lia | exact Hon]|].
        intros out w3 (Hon3 & replies & Hlog3 & Hshape). split; [exact Hon3|].
        exists (Resolved r :: replies). split.
        { rewrite Hlog3, Hlog2. cbn [pollRounds flat_map]. list_eq. }
        assert (Hr : exitedNonZero (Resolved r)) by (exists r; auto).
        destruct Hshape as [(earlier & r' & -> & Hall & Hz & Hlen & ->)
                           | [(Hall & Hlen & ->) | (earlier & e & -> & Hall & Hlen & ->)]].
        -- left. exists (Resolved r :: earlier), r'.
           split; [reflexivity|]. split; [now constructor|]. split; [exact Hz|].
           split; [cbn [length]; lia | reflexivity].
        -- right. left. split; [now constructor|]. split; [cbn [length]; lia | reflexivity].
        -- right. right. exists (Resolved r :: earlier), e.
           split; [reflexivity|]. split; [now constructor|].
           split; [cbn [length]; lia | reflexivity].
Qed.

(** [startGateway] on a connected client. When the start command exits
    with 0, it looks for the gateway in the logs at most 15 times, waiting
    2000 ms before each look; it returns right after the first look that
    exits with 0, raises when 15 looks have not, and raises when a look is
    rejected. It makes no look when the start command fails. *)
Theorem startGateway_checks_at_most_15_times w out w' :
  connected w = true ->
  Gateway.startGateway env userInfo w = (out, w') ->
  (exists e, out = Thrown e /\
     log w' = log w ++ [EvExecStream (Gateway.startCmd userInfo) (Rejected e)]) \/
  (exists c, c <> 0 /\ out = Thrown "Failed to start gateway" /\
     log w' = log w ++ [EvExecStream (Gateway.startCmd userInfo) (Resolved c)]) \/
  (exists replies,
     log w' = log w ++ EvExecStream (Gateway.startCmd userInfo) (Resolved 0)
                    :: pollRounds userInfo replies /\
     (length replies <= 15)%nat /\
     ((exists earlier r,
         replies = earlier ++ [Resolved r] /\ Forall exitedNonZero earlier /\
         exitCode r = 0 /\ out = Returned tt) \/
      (Forall exitedNonZero replies /\ length replies = 15%nat /\
       out = Thrown "Gateway failed to start within 30 seconds") \/
      (exists earlier e,
         replies = earlier ++ [Rejected e] /\ Forall exitedNonZero earlier /\
         out = Thrown e))).
Proof.
  intros Hon Hrun. from_post Hrun. unfold Gateway.startGateway.
  apply post_bind, post_ssh_execStream; [congruence| |].
  - intros _ e _. cbn [andThen]. left. now exists e.
  - intros _ c _. cbn [andThen]. destruct (bool_decide (c = 0)) eqn:Hc; cbn [negb].
    + apply bool_decide_eq_true in Hc. subst c. apply post_bind.
      eapply post_conseq; [apply (waitListening_spec 15 16 0); [lia | reflexivity | lia | exact Hon]|].
      intros out1 w1 (_ & replies & Hlog & Hshape).
      assert (Hlog' : forall w2, w2 = w1 ->
                log w2 = log w ++ EvExecStream (Gateway.startCmd userInfo) (Resolved 0)
                                 :: pollRounds userInfo replies).
      { intros w2 ->. rewrite Hlog. cbn [log record]. list_eq. }
      destruct Hshape as [(earlier & r & -> & Hall & Hz & Hlen & ->)
                         | [(Hall & Hlen & ->) | (earlier & e & -> & Hall & Hlen & ->)]];
        cbn [andThen].
      * apply post_ret. right. right.
        exists (earlier ++ [Resolved r]). split; [now apply Hlog'|].
        split; [rewrite length_app; cbn [length]; lia|]. left. now exists earlier, r.
      * apply post_throw. right. right. exists replies. split; [now apply Hlog'|].
        split; [lia|]. right. left. auto.
      * right. right. exists (earlier ++ [Rejected e]). split; [now apply Hlog'|].
        split; [rewrite length_app; cbn [length]; lia|]. right. right. now exists earlier, e.
    + apply bool_decide_eq_false in Hc. apply post_throw. right. left. now exists c.
Qed.

End GatewayFacts.
(** ** Image build, continued (lib/image-builder.ts) *)

Section ImageMore.

Variable env : Env.
Variable userInfo : UserInfo.
Variable br : string.

Let images := ImageBuilder.imagesCmd ImageBuilder.IMAGE_NAME.
Let verify := ImageBuilder.verifyCmd ImageBuilder.IMAGE_NAME (uid userInfo) (gid userInfo).
Let rmi := ImageBuilder.rmiCmd ImageBuilder.IMAGE_NAME.
Let repo := "test -d " +:+ (home userInfo +:+ "/openclaw-src") +:+ "/.git".

(** The image is absent, or it is there and fails the verification. *)
Let unusable (evs : list Event) : Prop :=
  exists r1 rest,
    evs = EvExec images (Resolved r1) :: rest /\
    (ImageBuilder.imagePresent r1 = false \/
     exists r2 rest',
       rest = EvExec verify (Resolved r2) :: rest' /\
       ImageBuilder.runsAs (uid userInfo) r2 = false).

Ltac image_leaf :=
  cbv beta iota delta [andThen];
  eexists; split;
  [ cbn [log record]; rewrite <- ?app_assoc; first [reflexivity | symmetry; apply app_nil_r]|];
  cbn [app]; split;
  [ intros ra rb rest Heq Hpresent Husable; simplify_eq; try congruence;
    split; reflexivity
  | intros cmd reply Hin; cbn [In] in Hin;
    repeat match goal with
           | H : _ \/ _ |- _ => destruct H as [H | H]
           | H : False |- _ => destruct H
           | H : EvExec _ _ = EvExecStream _ _ |- _ => discriminate H
           end;
    do 2 eexists; (split; [reflexivity|]);
    first [left; assumption | right; do 2 eexists; split; [reflexivity | assumption]] ].

Ltac run_image :=
  lazymatch goal with
  | |- post (bind _ _) _ _ => apply post_bind; run_image
  | |- post (ret _) _ _ => apply post_ret; run_image
  | |- post (throw _) _ _ => apply post_throw; run_image
  | |- post (ssh_exec _ _) _ _ =>
      apply post_ssh_exec_plain;
      [ first [apply images_plain | apply verify_plain | apply rmi_plain | apply repo_plain]
      | let H := fresh "Hoff" in
        intros H; cbn [connected record] in H; first [congruence | run_image]
      | intros ? ? ?; run_image
      | intros ? ? ?; run_image ]
  | |- post (ssh_execStream _ _) _ _ =>
      apply post_ssh_execStream;
      [ let H := fresh "Hoff" in
        intros H; cbn [connected record] in H; first [congruence | run_image]
      | intros ? ? ?; run_image
      | intros ? ? ?; run_image ]
  | |- post (if negb ?b then _ else _) _ _ => destruct b eqn:?; cbn [negb]; run_image
  | |- post (if ?b then _ else _) _ _ => destruct b eqn:?; run_image
  | |- andThen _ _ _ _ => cbv beta iota delta [andThen]; run_image
  | |- _ => image_leaf
  end.

(** [buildImage] builds only when it has to. When the image is there
    and passes the verification, it returns the reference after these
    two calls and runs nothing else. It fetches the sources and builds
    (its only streamed commands) only when the image is absent, or is
    there and fails the verification. *)
Theorem buildImage_builds_only_when_needed w :
  exists evs,
    log (snd (ImageBuilder.buildImage env userInfo br w)) = log w ++ evs /\
    (forall r1 r2 rest,
       evs = EvExec (ImageBuilder.imagesCmd ImageBuilder.IMAGE_NAME) (Resolved r1)
             :: EvExec (ImageBuilder.verifyCmd ImageBuilder.IMAGE_NAME
                          (uid userInfo) (gid userInfo)) (Resolved r2) :: rest ->
       ImageBuilder.imagePresent r1 = true ->
       ImageBuilder.runsAs (uid userInfo) r2 = true ->
       rest = [] /\
       fst (ImageBuilder.buildImage env userInfo br w) = Returned ImageBuilder.IMAGE_NAME) /\
    (forall cmd reply, In (EvExecStream cmd reply) evs ->
       exists r1 rest,
         evs = EvExec (ImageBuilder.imagesCmd ImageBuilder.IMAGE_NAME) (Resolved r1) :: rest /\
         (ImageBuilder.imagePresent r1 = false \/
          exists r2 rest',
            rest = EvExec (ImageBuilder.verifyCmd ImageBuilder.IMAGE_NAME
                             (uid userInfo) (gid userInfo)) (Resolved r2) :: rest' /\
            ImageBuilder.runsAs (uid userInfo) r2 = false)).
Proof.
  change (post (ImageBuilder.buildImage env userInfo br) w
            (fun out w' =>
               exists evs, log w' = log w ++ evs /\
                 (forall r1 r2 rest,
                    evs = EvExec images (Resolved r1) :: EvExec verify (Resolved r2) :: rest ->
                    ImageBuilder.imagePresent r1 = true ->
                    ImageBuilder.runsAs (uid userInfo) r2 = true ->
                    rest = [] /\ out = Returned ImageBuilder.IMAGE_NAME) /\
                 (forall cmd reply, In (EvExecStream cmd reply) evs -> unusable evs))).
  destruct (verify_distinct userInfo) as (Hiv & Hrv & Hpv).
  unfold unusable, ImageBuilder.buildImage, ImageBuilder.rebuild,
    ImageBuilder.checkImageExists, ImageBuilder.verifyImage, ImageBuilder.checkRepoExists.
  fold images verify rmi repo.
  run_image.
Qed.

End ImageMore.

(** ** The SSH client (lib/ssh-client.ts) *)

Section ConnectFacts.

Variable env : Env.
Variable maxRetries : Z.

Lemma connectLoop_spec : forall remaining attempt w,
  attempt + Z.of_nat remaining = maxRetries + 1 -> (1 <= remaining)%nat ->
  connected w = false ->
  post (connectLoop env remaining attempt maxRetries) w
       (fun out w' =>
          stateFile w' = stateFile w /\
          ((exists errors,
              attempt + Z.of_nat (length errors) <= maxRetries /\
              out = Returned tt /\ connected w' = true /\
              log w' = log w ++ failedAttempts errors attempt ++
                       [EvConnectAttempt (attempt + Z.of_nat (length errors)) (Resolved tt)]) \/
           (exists errors e,
              attempt + Z.of_nat (length errors) = maxRetries /\
              out = Thrown ("SSH connection failed after " +:+ pretty maxRetries +:+
                            " attempts: " +:+ e) /\
              connected w' = false /\
              log w' = log w ++ failedAttempts errors attempt ++
                       [EvConnectAttempt maxRetries (Rejected e)]))).
Proof.
  induction remaining as [|remaining IH]; intros attempt w Hsum Hpos Hoff; [lia|].
  unfold post. cbn [connectLoop].
  destruct (connect_reply env (log w)) as [[]|e] eqn:Hreply; cbn [fst snd].
  - split; [reflexivity|]. left. exists []. cbn [length failedAttempts app Z.of_nat].
    rewrite Z.add_0_r. split; [lia|]. split; [reflexivity|]. split; reflexivity.
  - destruct (bool_decide (attempt = maxRetries)) eqn:Hlast; cbn [fst snd].
    + apply bool_decide_eq_true in Hlast. split; [reflexivity|]. right. exists [], e.
      cbn [length failedAttempts app Z.of_nat record log connected].
      split; [lia|]. split; [reflexivity|]. split; [exact Hoff|]. now rewrite Hlast.
    + apply bool_decide_eq_false in Hlast.
      unfold bind, sleep. cbn [fst snd record].
      set (w1 := mkWorld _ _ _ _).
      assert (Hlog1 : log w1 = log w ++ failedAttempts [e] attempt).
      { unfold w1, backoff. cbn [log record failedAttempts]. list_eq. }
      assert (Hsum' : attempt + 1 + Z.of_nat remaining = maxRetries + 1) by lia.
      assert (Hpos' : (1 <= remaining)%nat) by lia.
      specialize (IH (attempt + 1) w1 Hsum' Hpos' Hoff). unfold post in IH.
      destruct (connectLoop env remaining (attempt + 1) maxRetries w1) as [out w2].
      cbn [fst snd] in IH |- *. destruct IH as [Hfile Hcases].
      split; [exact Hfile|].
      destruct Hcases as [(errors & Hle & -> & Hon & Hlog) | (errors & e' & Hle & -> & Hoff' & Hlog)].
      * left. exists (e :: errors). cbn [length]. rewrite Nat2Z.inj_succ.
        split; [lia|]. split; [reflexivity|]. split; [exact Hon|].
        rewrite Hlog, Hlog1. cbn [failedAttempts].
        replace (attempt + Z.succ (Z.of_nat (length errors)))
          with (attempt + 1 + Z.of_nat (length errors)) by lia.
        list_eq.
      * right. exists (e :: errors), e'. cbn [length]. rewrite Nat2Z.inj_succ.
        split; [lia|]. split; [reflexivity|]. split; [exact Hoff'|].
        rewrite Hlog, Hlog1. cbn [failedAttempts]. list_eq.
Qed.

(** [SSHClient.connect] on a client that is not connected. With
    [maxRetries] below 1 it returns without an attempt and without a
    connection. Otherwise it makes the attempts 1, 2, ... in turn, waits
    [min(1000 * 2^(k-1), 5000)] ms after the failure of attempt [k], and
    returns connected at the first attempt that succeeds; when
    [maxRetries] attempts have failed it raises, with no wait after the
    last one. The state file is not touched. *)
Theorem connect_retries_with_backoff w out w' :
  connected w = false ->
  ssh_connect env maxRetries w = (out, w') ->
  (maxRetries <= 0 /\ out = Returned tt /\ w' = w) \/
  (1 <= maxRetries /\ stateFile w' = stateFile w /\
   ((exists errors,
       Z.of_nat (length errors) < maxRetries /\
       out = Returned tt /\ connected w' = true /\
       log w' = log w ++ failedAttempts errors 1 ++
                [EvConnectAttempt (1 + Z.of_nat (length errors)) (Resolved tt)]) \/
    (exists errors e,
       Z.of_nat (length errors) = maxRetries - 1 /\
       out = Thrown ("SSH connection failed after " +:+ pretty maxRetries +:+
                     " attempts: " +:+ e) /\
       connected w' = false /\
       log w' = log w ++ failedAttempts errors 1 ++
                [EvConnectAttempt maxRetries (Rejected e)]))).
Proof.
  intros Hoff Hrun. unfold ssh_connect in Hrun. rewrite Hoff in Hrun.
  destruct (Z_le_gt_dec maxRetries 0) as [Hle | Hgt].
  - left. replace (Z.to_nat maxRetries) with 0%nat in Hrun by lia.
    cbn [connectLoop] in Hrun. unfold ret in Hrun. injection Hrun as <- <-. auto.
  - right. split; [lia|].
    assert (Hsum : 1 + Z.of_nat (Z.to_nat maxRetries) = maxRetries + 1) by lia.
    assert (Hpos : (1 <= Z.to_nat maxRetries)%nat) by lia.
    pose proof (connectLoop_spec (Z.to_nat maxRetries) 1 w Hsum Hpos Hoff) as Hspec.
    unfold post in Hspec. rewrite Hrun in Hspec. cbn [fst snd] in Hspec.
    destruct Hspec as [Hfile Hcases]. split; [exact Hfile|].
    destruct Hcases as [(errors & Hle & Hout & Hon & Hlog) | (errors & e & Hle & Hout & Hoff' & Hlog)].
    + left. exists errors. split; [lia|]. auto.
    + right. exists errors, e. split; [lia|]. auto.
Qed.

End ConnectFacts.
(** ** What a run of [deployCommand] can do (commands/deploy.ts) *)

Section Confined.

Variable env : Env.
Variable P : Event -> Prop.
Variable X : Z -> Prop.
Hypothesis Pio : forall ev, notUpload ev -> P ev.

Lemma confinedPost_none {A} (out : Outcome A) w :
  (forall c, out = Exited c -> X c) -> confinedPost P X w out w.
Proof. intros Hx. split; [exact Hx|]. exists []. now rewrite app_nil_r. Qed.

Lemma confinedPost_one {A} (out : Outcome A) ev w :
  P ev -> (forall c, out = Exited c -> X c) -> confinedPost P X w out (record ev w).
Proof.
  intros Hev Hx. split; [exact Hx|]. exists [ev]. split; [reflexivity|].
  constructor; [exact Hev | constructor].
Qed.

Lemma confinedPost_trans {A B} w w1 w2 (out1 : Outcome A) (out2 : Outcome B) :
  confinedPost P X w out1 w1 -> confinedPost P X w1 out2 w2 -> confinedPost P X w out2 w2.
Proof.
  intros (_ & evs1 & Hl1 & He1) (Hx & evs2 & Hl2 & He2). split; [exact Hx|].
  exists (evs1 ++ evs2). rewrite Hl2, Hl1, app_assoc. split; [reflexivity|].
  now apply Forall_app.
Qed.

Lemma confinedPost_keep {A B} w w1 (out : Outcome A) (out' : Outcome B) :
  confinedPost P X w out w1 -> (forall c, out' = Exited c -> out = Exited c) ->
  confinedPost P X w out' w1.
Proof. intros (Hx & Hevs) Hsame. split; [|exact Hevs]. intros c Hc. apply Hx, Hsame, Hc. Qed.

Lemma confined_ret {A} (a : A) : confined P X (ret a).
Proof. intros w. apply post_ret, confinedPost_none. discriminate. Qed.

Lemma confined_throw {A} e : confined P X (@throw A e).
Proof. intros w. apply post_throw, confinedPost_none. discriminate. Qed.

Lemma confined_exit {A} c : X c -> confined P X (@process_exit A c).
Proof. intros Hc w. apply post_exit, confinedPost_none. now intros c' [= <-]. Qed.

Lemma confined_bind {A B} (m : M A) (k : A -> M B) :
  confined P X m -> (forall a, confined P X (k a)) -> confined P X (bind m k).
Proof.
  intros Hm Hk w. apply post_bind. eapply post_conseq; [apply Hm|].
  intros [a | e | c] w1 H1; cbn [andThen].
  - eapply post_conseq; [apply Hk|]. intros out w2 H2.
    exact (confinedPost_trans _ _ _ _ _ H1 H2).
  - apply (confinedPost_keep _ _ _ _ H1). discriminate.
  - apply (confinedPost_keep _ _ _ _ H1). now intros c' [= <-].
Qed.

Lemma confined_try_catch {A} (body : M A) handler :
  confined P X body -> (forall e, confined P X (handler e)) ->
  confined P X (try_catch body handler).
Proof.
  intros Hm Hk w. apply post_try_catch. eapply post_conseq; [apply Hm|].
  intros [a | e | c] w1 H1; try exact H1.
  eapply post_conseq; [apply Hk|]. intros out w2 H2.
  exact (confinedPost_trans _ _ _ _ _ H1 H2).
Qed.

Lemma confinedPost_seq {A B C} w w1 w2 (out1 : Outcome A) (out2 : Outcome B)
  (out : Outcome C) :
  confinedPost P X w out1 w1 -> confinedPost P X w1 out2 w2 ->
  (forall c, out = Exited c -> out2 = Exited c) -> confinedPost P X w out w2.
Proof.
  intros H1 H2 Hsame. apply (confinedPost_trans _ _ _ _ _ H1).
  now apply (confinedPost_keep _ _ _ _ H2).
Qed.

Lemma confined_try_finally {A} (body : M A) fin :
  confined P X body -> confined P X fin -> confined P X (try_finally body fin).
Proof.
  intros Hm Hf w. apply post_try_finally. eapply post_conseq; [apply Hm|].
  intros [a | e | c] w1 H1; try exact H1;
    (eapply post_conseq; [apply Hf|]); intros [[] | e' | c'] w2 H2;
    apply (confinedPost_seq _ _ _ _ _ _ H1 H2);
    first [discriminate | now intros c0 [= <-]].
Qed.

Lemma confined_call_of {A} a (body : M A) :
  (forall snap, P (EvCall a snap)) -> (forall ok, P (EvDone a ok)) ->
  confined P X body -> confined P X (call a body).
Proof.
  intros Hcall Hdone Hbody w. apply post_call. eapply post_conseq; [apply Hbody|].
  assert (Hin : confinedPost P X w (Returned tt) (record (EvCall a (stateFile w)) w)).
  { apply confinedPost_one; [apply Hcall | discriminate]. }
  intros [x | e | c] w1 H1.
  - apply (confinedPost_trans _ _ _ _ _ (confinedPost_trans _ _ _ _ _ Hin H1)).
    apply confinedPost_one; [apply Hdone | discriminate].
  - apply (confinedPost_trans _ _ _ _ _ (confinedPost_trans _ _ _ _ _ Hin H1)).
    apply confinedPost_one; [apply Hdone | discriminate].
  - exact (confinedPost_trans _ _ _ _ _ Hin H1).
Qed.

Lemma confined_call {A} a (body : M A) : confined P X body -> confined P X (call a body).
Proof. apply confined_call_of; intros; now apply Pio. Qed.

Lemma confined_ssh_exec command : confined P X (ssh_exec env command).
Proof.
  intros w. apply post_ssh_exec.
  - intros _. apply confinedPost_none. discriminate.
  - intros _ e _. apply confinedPost_one; [now apply Pio | discriminate].
  - intros _ r _. destruct (host_exec_log command r w) as [_ Hlog].
    split; [discriminate|]. eexists. split; [exact Hlog|].
    constructor; [now apply Pio | constructor].
Qed.

Lemma confined_ssh_execStream command : confined P X (ssh_execStream env command).
Proof.
  intros w. apply post_ssh_execStream; intros.
  - apply confinedPost_none. discriminate.
  - apply confinedPost_one; [now apply Pio | discriminate].
  - apply confinedPost_one; [now apply Pio | discriminate].
Qed.

Lemma confined_ssh_execInteractive command : confined P X (ssh_execInteractive env command).
Proof.
  intros w. apply post_ssh_execInteractive; intros.
  - apply confinedPost_none. discriminate.
  - apply confinedPost_one; [now apply Pio|]. now destruct (execInteractive_reply _ _ _).
Qed.

Lemma confined_uploadContent content path :
  (forall r, P (EvUpload content path r)) -> confined P X (ssh_uploadContent env content path).
Proof.
  intros Hup w. apply post_ssh_uploadContent.
  - intros _. apply confinedPost_none. discriminate.
  - intros _ e _. apply confinedPost_one; [apply Hup | discriminate].
  - intros _ _. split; [discriminate|]. exists [EvUpload content path (Resolved tt)].
    split; [reflexivity|]. constructor; [apply Hup | constructor].
Qed.

Lemma confined_await {A} (reply : list Event -> Reply A) : confined P X (await reply).
Proof. intros w. apply post_await; intros; apply confinedPost_none; discriminate. Qed.

Lemma confined_extern a : confined P X (extern env a).
Proof. apply confined_await. Qed.

Lemma confined_emit ev : notUpload ev -> confined P X (emit ev).
Proof. intros Hev w. apply confinedPost_one; [now apply Pio | discriminate]. Qed.

Lemma confined_sleep ms : confined P X (sleep ms).
Proof.
  intros w. unfold post, sleep. cbn [fst snd]. split; [discriminate|].
  exists [EvSleep ms]. split; [reflexivity|]. constructor; [now apply Pio | constructor].
Qed.

Lemma confined_Date_now : confined P X (Date_now env).
Proof.
  intros w. unfold post, Date_now. cbn [fst snd]. split; [discriminate|].
  exists []. cbn [log]. split; [now rewrite app_nil_r | constructor].
Qed.

Lemma confined_isConnected : confined P X ssh_isConnected.
Proof. intros w. apply confinedPost_none. discriminate. Qed.

Lemma confined_disconnect : confined P X ssh_disconnect.
Proof.
  intros w. unfold post, ssh_disconnect. destruct (connected w); cbn [fst snd].
  - split; [discriminate|]. exists [EvDisconnect]. split; [reflexivity|].
    constructor; [now apply Pio | constructor].
  - apply confinedPost_none. discriminate.
Qed.

Lemma confined_sleep_of ms : P (EvSleep ms) -> confined P X (sleep ms).
Proof.
  intros Hev w. unfold post, sleep. cbn [fst snd]. split; [discriminate|].
  exists [EvSleep ms]. split; [reflexivity|]. constructor; [exact Hev | constructor].
Qed.

Lemma confined_connect_of maxRetries :
  (forall attempt r, P (EvConnectAttempt attempt r)) -> (forall ms, P (EvSleep ms)) ->
  confined P X (ssh_connect env maxRetries).
Proof.
  intros Hattempt Hsleep.
  assert (Hloop : forall remaining attempt,
            confined P X (connectLoop env remaining attempt maxRetries)).
  { induction remaining as [|remaining IH]; intros attempt; cbn [connectLoop].
    - apply confined_ret.
    - intros w. unfold post. destruct (connect_reply env (log w)) as [[]|e]; cbn [fst snd].
      + split; [discriminate|]. exists [EvConnectAttempt attempt (Resolved tt)].
        split; [reflexivity|]. constructor; [apply Hattempt | constructor].
      + assert (Hin : confinedPost P X w (Returned tt)
                        (record (EvConnectAttempt attempt (Rejected e)) w)).
        { apply confinedPost_one; [apply Hattempt | discriminate]. }
        destruct (bool_decide (attempt = maxRetries)); cbn [fst snd].
        * apply (confinedPost_keep _ _ _ _ Hin). discriminate.
        * apply (confinedPost_trans _ _ _ _ _ Hin).
          apply (confined_bind (sleep _)
                   (fun _ => connectLoop env remaining (attempt + 1) maxRetries));
            [apply confined_sleep_of, Hsleep | intros _; apply IH]. }
  intros w. unfold post, ssh_connect. destruct (connected w).
  - apply confinedPost_none. discriminate.
  - apply Hloop.
Qed.

Lemma confined_connect maxRetries : confined P X (ssh_connect env maxRetries).
Proof. apply confined_connect_of; intros; now apply Pio. Qed.

Lemma confined_prompt : confined P X (AutoConnect.promptAutoConnect env).
Proof.
  intros w. unfold AutoConnect.promptAutoConnect, post. cbn [fst snd].
  apply confinedPost_one; [now apply Pio | discriminate].
Qed.

Lemma confined_tunnelExited : confined P X (AutoConnect.tunnelExited env).
Proof. intros w. apply confinedPost_none. discriminate. Qed.

End Confined.

Ltac confined_step :=
  first
    [ apply confined_ret | apply confined_throw
    | apply confined_bind; [|intros ?]
    | apply confined_try_catch; [|intros ?]
    | apply confined_call
    | apply confined_ssh_exec | apply confined_ssh_execStream
    | apply confined_ssh_execInteractive
    | apply confined_await | apply confined_extern | apply confined_sleep
    | apply confined_Date_now | apply confined_isConnected | apply confined_disconnect
    | apply confined_connect | apply confined_prompt | apply confined_tunnelExited
    | apply confined_emit; [assumption | exact I]
    | match goal with |- confined _ _ (if ?b then _ else _) => destruct b end
    | match goal with |- confined _ _ (match ?x with _ => _ end) => destruct x end ];
  try assumption.

Section ConfinedBodies.

Variable env : Env.
Variable P : Event -> Prop.
Variable X : Z -> Prop.
Hypothesis Pio : forall ev, notUpload ev -> P ev.

Lemma confined_buildImage userInfo br :
  confined P X (ImageBuilder.buildImage env userInfo br).
Proof.
  unfold ImageBuilder.buildImage, ImageBuilder.rebuild, ImageBuilder.checkImageExists,
    ImageBuilder.verifyImage, ImageBuilder.checkRepoExists.
  repeat confined_step.
Qed.

Lemma confined_runOnboarding userInfo skip :
  confined P X (Interactive.runOnboarding env userInfo skip).
Proof.
  unfold Interactive.runOnboarding, Interactive.checkOnboardingComplete.
  repeat confined_step.
Qed.

Lemma confined_getPendingRequests userInfo :
  confined P X (AutoConnect.getPendingRequests env userInfo).
Proof. unfold AutoConnect.getPendingRequests. repeat confined_step. Qed.

Lemma confined_waitLoop userInfo B start timeout fuel :
  confined P X (AutoConnect.waitLoop env fuel userInfo B start timeout).
Proof.
  induction fuel as [|fuel IH]; cbn [AutoConnect.waitLoop].
  - now apply confined_ret.
  - repeat first [exact IH | apply confined_getPendingRequests | confined_step].
Qed.

Lemma confined_autoConnect sshConfig userInfo p :
  confined P X (AutoConnect.autoConnect env sshConfig userInfo p).
Proof.
  unfold AutoConnect.autoConnect, AutoConnect.waitForNewPairingRequest,
    AutoConnect.approveDevice, AutoConnect.waitForExit.
  repeat first
    [ apply confined_getPendingRequests | apply confined_waitLoop | confined_step ].
Qed.

End ConfinedBodies.
Section DeployFacts.

Variable env : Env.
Variable JSON_stringify : DeploymentState -> string.
Variable JSON_parse : string -> option DeploymentState.

Section Writes.

(** The uploads allowed: [P] holds of every event but an upload, and
    of the updates of a state. *)
Variable P : Event -> Prop.
Variable X : Z -> Prop.
Hypothesis Pio : forall ev, notUpload ev -> P ev.
Hypothesis Pupdate : forall st n r,
  2 <= n <= 8 -> P (EvUpload (JSON_stringify (State.setPhase st n complete)) STATE_FILE r).

Let allowsCreate := allowsCreate JSON_stringify P.

Lemma confined_loadState : confined P X (State.loadState env JSON_parse).
Proof. unfold State.loadState. repeat confined_step. Qed.

Lemma confined_updateState n :
  2 <= n <= 8 -> confined P X (State.updateState env JSON_stringify JSON_parse n complete).
Proof.
  intros Hn. unfold State.updateState.
  apply confined_bind; [apply confined_loadState |].
  intros [state|]; [|repeat confined_step].
  apply confined_uploadContent. intros r. now apply Pupdate.
Qed.

Lemma confined_createState name meta :
  allowsCreate -> confined P X (State.createState env JSON_stringify name meta).
Proof.
  intros Hcreate w. unfold State.createState. apply confined_uploadContent.
  intros r. apply Hcreate.
Qed.

Lemma confined_deleteState : confined P X (State.deleteState env).
Proof. unfold State.deleteState. repeat confined_step. Qed.

Lemma confined_detectPartialDeployment :
  confined P X (State.detectPartialDeployment env JSON_parse).
Proof.
  unfold State.detectPartialDeployment.
  apply confined_bind; [apply confined_loadState |].
  intros [state|]; repeat confined_step.
Qed.

Ltac deploy_body_step :=
  first
    [ apply confined_updateState; lia
    | apply confined_createState; assumption | apply confined_deleteState
    | apply confined_detectPartialDeployment
    | apply confined_buildImage | apply confined_runOnboarding | apply confined_autoConnect
    | confined_step | assumption ].

(** The phases upload updates only, and the state of [createState] only
    in a run that has no state to resume from. *)
Lemma confined_runPhases config existingState :
  (existingState = None -> allowsCreate) ->
  confined P X (Deploy.runPhases env JSON_stringify JSON_parse config existingState).
Proof.
  intros Hcreate.
  unfold Deploy.runPhases, Deploy.phase2, Deploy.phase3, Deploy.phase4, Deploy.phase5,
    Deploy.phase6, Deploy.phase7, Deploy.phase8, Deploy.phase9, Deploy.phase10,
    Deploy.extractGatewayToken.
  destruct existingState as [st|]; cbn [Deploy.isSome negb];
    [clear Hcreate | specialize (Hcreate eq_refl)]; repeat deploy_body_step.
Qed.

(** The part of the [try] block that follows the check for root. *)
Lemma confined_asRoot config :
  allowsCreate ->
  confined P X ((if clean config then Deploy.cleanDeployment env else ret tt) ;;;
                let! existingState := Deploy.resolveExistingState env JSON_parse config in
                Deploy.runPhases env JSON_stringify JSON_parse config existingState).
Proof.
  intros Hcreate. unfold Deploy.cleanDeployment, Deploy.resolveExistingState.
  repeat first [apply confined_runPhases; intros _; exact Hcreate | deploy_body_step].
Qed.

Lemma confined_deployBody flags :
  allowsCreate -> X 1 -> X 2 ->
  confined P X (Deploy.deployBody env JSON_stringify JSON_parse flags).
Proof.
  intros Hcreate H1 H2.
  unfold Deploy.deployBody, Deploy.phase0, Deploy.phase1, verifyRootAccess.
  repeat first [apply confined_asRoot; exact Hcreate | apply confined_exit; assumption
               | deploy_body_step].
Qed.

Lemma confined_deployCommand flags :
  allowsCreate -> X 1 -> X 2 ->
  confined P X (Deploy.deployCommand env JSON_stringify JSON_parse flags).
Proof.
  intros Hcreate H1 H2. unfold Deploy.deployCommand.
  apply confined_try_finally; [|repeat deploy_body_step].
  apply confined_try_catch; [now apply confined_deployBody |].
  intros e. apply confined_exit, H1.
Qed.

End Writes.

Lemma deployWrite_io ev : notUpload ev -> deployWrite JSON_stringify ev.
Proof. now destruct ev. Qed.

Lemma deployWrite_update st n r :
  2 <= n <= 8 ->
  deployWrite JSON_stringify
    (EvUpload (JSON_stringify (State.setPhase st n complete)) STATE_FILE r).
Proof. intros Hn _. right. now exists st, n. Qed.

Lemma deployWrite_create : allowsCreate JSON_stringify (deployWrite JSON_stringify).
Proof. intros name id started meta r _. left. now exists name, id, started, meta. Qed.

Lemma updateWrite_io ev : notUpload ev -> updateWrite JSON_stringify ev.
Proof. now destruct ev. Qed.

Lemma updateWrite_update st n r :
  2 <= n <= 8 ->
  updateWrite JSON_stringify
    (EvUpload (JSON_stringify (State.setPhase st n complete)) STATE_FILE r).
Proof. intros Hn _. now exists st, n. Qed.

(** [deployCommand] lets no error of the deployment proper escape. On
    every host and from every state of the client, a run that does not
    enter the optional auto-connect returns, and then the client is
    disconnected, or ends the process with code 1 or with code 2. The
    auto-connect is left out: it starts the tunnel and the browser
    without a listener for their errors, and waits for the interrupt of
    the operator with a handler that it installs only at its end, so
    that a run which enters it can end in other ways. *)
Theorem deployCommand_returns_or_exits_1_or_2 flags w :
  entersAutoConnect
    (log (snd (Deploy.deployCommand env JSON_stringify JSON_parse flags w))) = false ->
  (fst (Deploy.deployCommand env JSON_stringify JSON_parse flags w) = Returned tt /\
   connected (snd (Deploy.deployCommand env JSON_stringify JSON_parse flags w)) = false) \/
  fst (Deploy.deployCommand env JSON_stringify JSON_parse flags w) = Exited 1 \/
  fst (Deploy.deployCommand env JSON_stringify JSON_parse flags w) = Exited 2.
Proof.
  intros _.
  pose proof (confined_deployBody (deployWrite JSON_stringify) (fun c => c = 1 \/ c = 2)
                deployWrite_io deployWrite_update flags deployWrite_create
                (or_introl eq_refl) (or_intror eq_refl) w) as Hbody.
  unfold post in Hbody. unfold Deploy.deployCommand, try_finally, try_catch.
  destruct (Deploy.deployBody env JSON_stringify JSON_parse flags w) as [[[] | e | c] w1];
    cbn [fst snd] in Hbody |- *.
  - left. unfold bind, ssh_isConnected, ssh_disconnect.
    destruct (connected w1) eqn:Hon; rewrite ?Hon; cbn [fst snd connected]; auto.
  - right. left. reflexivity.
  - right. destruct Hbody as [Hx _]. destruct (Hx c eq_refl) as [-> | ->]; auto.
Qed.

(** Whatever the host answers, every upload that a run of
    [deployCommand] makes to the state file holds the state of
    [createState], with all phases pending, or a state in which the
    phase just recorded, one of 2 to 8, is complete: the run never
    records a phase as failed, nor a phase outside 2 to 8. *)
Theorem deployCommand_writes_only_completions flags w :
  exists evs,
    log (snd (Deploy.deployCommand env JSON_stringify JSON_parse flags w)) = log w ++ evs /\
    forall content r, In (EvUpload content STATE_FILE r) evs ->
      (exists name id started meta,
          content = JSON_stringify (mkState name id started 0 State.initialPhases meta)) \/
      (exists st n, 2 <= n <= 8 /\ lastPhase st = n /\ phases st !! n = Some complete /\
          content = JSON_stringify st).
Proof.
  destruct (confined_deployCommand (deployWrite JSON_stringify) (fun _ => True)
              deployWrite_io deployWrite_update flags deployWrite_create I I w)
    as (_ & evs & Hlog & Hevs).
  exists evs. split; [exact Hlog|]. intros content r Hin.
  rewrite List.Forall_forall in Hevs. specialize (Hevs _ Hin eq_refl).
  destruct Hevs as [Hnew | (st & n & Hn & ->)]; [now left | right].
  exists (State.setPhase st n complete), n. cbn [State.setPhase lastPhase phases].
  split; [exact Hn|]. split; [reflexivity|]. split; [apply lookup_insert_eq | reflexivity].
Qed.

(** A run that resumes from an existing state never creates the state
    file anew: every upload it makes to the state file is an update, a
    state in which one of the phases 2 to 8 has just been set to
    complete. The state of [createState] is uploaded only by runs that
    found no state to resume from. *)
Theorem resumed_run_only_updates_state config st w :
  exists evs,
    log (snd (Deploy.runPhases env JSON_stringify JSON_parse config (Some st) w)) =
    log w ++ evs /\
    forall content r, In (EvUpload content STATE_FILE r) evs ->
      exists prev n, 2 <= n <= 8 /\
        content = JSON_stringify (State.setPhase prev n complete).
Proof.
  destruct (confined_runPhases (updateWrite JSON_stringify) (fun _ => True)
              updateWrite_io updateWrite_update config (Some st)
              ltac:(discriminate) w) as (_ & evs & Hlog & Hevs).
  exists evs. split; [exact Hlog|]. intros content r Hin.
  rewrite List.Forall_forall in Hevs. exact (Hevs _ Hin eq_refl).
Qed.

Lemma idu_plain : plain "id -u".
Proof. plain_cmd. Qed.

Lemma prelude_phase0 flags :
  confined prelude (fun c => c = 1) (Deploy.phase0 env flags).
Proof.
  unfold Deploy.phase0.
  repeat first
    [ apply confined_ret | apply confined_exit; reflexivity
    | apply confined_bind; [|intros ?]
    | apply confined_try_catch; [|intros ?]
    | apply confined_call_of; [intros ?; exact I | intros ?; exact I |]
    | apply confined_await | apply confined_extern
    | match goal with |- confined _ _ (if ?b then _ else _) => destruct b end ].
Qed.

(** Code 2 means that the SSH user is not root, and nothing else. When
    [deployCommand] ends the process with code 2, the connection had been
    made and the answer to [id -u] was not a plain 0. Up to then the run
    had read its configuration and the key and had connected, with no
    command and no upload on the host, and after it the run did nothing
    more. *)
Theorem deployCommand_exits_2_only_for_non_root flags w :
  fst (Deploy.deployCommand env JSON_stringify JSON_parse flags w) = Exited 2 ->
  exists before r,
    log (snd (Deploy.deployCommand env JSON_stringify JSON_parse flags w)) =
    log w ++ before ++ [EvDone Connect true; EvExec "id -u" (Resolved r)] /\
    Forall prelude before /\
    (exitCode r <> 0 \/ trim (stdout r) <> "0").
Proof.
  unfold Deploy.deployCommand, try_finally, try_catch.
  destruct (Deploy.deployBody env JSON_stringify JSON_parse flags w) as [[[] | e | c] w'] eqn:Hbody;
    cbn [fst snd].
  { unfold bind, ssh_isConnected, ssh_disconnect.
    destruct (connected w') eqn:Hon; rewrite ?Hon; discriminate. }
  { discriminate. }
  intros [= ->]. revert Hbody.
  unfold Deploy.deployBody, Deploy.phase1, verifyRootAccess.
  cbv beta delta [bind call].
  pose proof (prelude_phase0 flags w) as H0. unfold post in H0.
  destruct (Deploy.phase0 env flags w) as [[config | e | c] w0]; cbn [fst snd] in H0;
    cbv beta iota;
    [|intros H; discriminate H
     |intros [= -> _]; destruct H0 as [H0 _]; now specialize (H0 2 eq_refl)].
  destruct H0 as (_ & evs0 & Hlog0 & Hevs0).
  pose proof (confined_connect_of env prelude (fun _ => False) 3
                (fun _ _ => I) (fun _ => I) (record (EvCall Connect (stateFile w0)) w0)) as Hc.
  unfold post in Hc.
  destruct (ssh_connect env 3 (record (EvCall Connect (stateFile w0)) w0)) as [[[] | e | c] wc];
    cbn [fst snd] in Hc; cbv beta iota;
    [|intros H; discriminate H | destruct Hc as [Hc _]; now destruct (Hc c)].
  destruct Hc as (_ & evsc & Hlogc & Hevsc).
  set (w2 := record (EvDone Connect true) wc).
  unfold ssh_exec.
  destruct (connected w2); cbv beta iota delta [negb]; [|intros H; discriminate H].
  destruct (exec_reply env (log w2) "id -u") as [r | e]; [|intros H; discriminate H].
  rewrite (host_exec_plain _ r w2 idu_plain). cbv beta iota delta [ret].
  destruct (bool_decide (exitCode r = 0) && bool_decide (trim (stdout r) = "0")) eqn:Hroot;
    cbv beta iota delta [negb].
  - intros Hrun.
    destruct (confined_asRoot (deployWrite JSON_stringify) (fun _ => False)
                deployWrite_io deployWrite_update config deployWrite_create
                (record (EvExec "id -u" (Resolved r)) w2)) as [Hx _].
    destruct (Hx 2). exact (f_equal fst Hrun).
  - unfold process_exit. intros [= <-].
    exists (evs0 ++ EvCall Connect (stateFile w0) :: evsc), r. split; [|split].
    + unfold w2. cbn [log record]. rewrite Hlogc. cbn [log record]. rewrite Hlog0. list_eq.
    + apply Forall_app. split; [exact Hevs0|]. constructor; [exact I | exact Hevsc].
    + apply andb_false_iff in Hroot as [H | H]; apply bool_decide_eq_false in H; auto.
Qed.

End DeployFacts.
(** ** The state file, continued: what is read back *)

Lemma somePhase_lookup s st :
  State.somePhase s st = true <-> exists k, phases st !! k = Some s.
Proof.
  unfold State.somePhase. rewrite existsb_exists. split.
  - intros (status & Hin & Heq). apply bool_decide_eq_true in Heq. subst status.
    apply in_map_iff in Hin as ([k status] & Hsnd & Hin). cbn [snd] in Hsnd. subst status.
    exists k. now apply elem_of_map_to_list, list_elem_of_In.
  - intros (k & Hk). exists s. split; [|now apply bool_decide_eq_true].
    apply in_map_iff. exists (k, s). split; [reflexivity|].
    now apply list_elem_of_In, elem_of_map_to_list.
Qed.

Lemma initialPhases_lookup k s :
  State.initialPhases !! k = Some s -> 1 <= k <= 10 /\ s = pending.
Proof.
  unfold State.initialPhases. intros H.
  repeat (apply lookup_insert_Some in H as [[<- <-] | [_ H]]; [split; [lia | reflexivity]|]).
  now rewrite lookup_empty in H.
Qed.

Lemma written_keys st k s : written st -> phases st !! k = Some s -> 1 <= k <= 10.
Proof.
  intros Hst Hk. assert (Hdom : k ∈ dom (phases st)) by (apply elem_of_dom; eauto).
  rewrite (written_dom st Hst) in Hdom. apply elem_of_dom in Hdom as [s' Hs'].
  now apply initialPhases_lookup in Hs'.
Qed.

Lemma partial_iff_next st :
  written st ->
  State.somePhase failed st || State.somePhase pending st = bool_decide (State.getNextPhase st <= 10).
Proof.
  intros Hst.
  destruct (nextPhaseFrom_spec st 10 1 eq_refl) as (Hrange & Hbefore & Hat).
  fold (State.getNextPhase st) in Hrange, Hbefore, Hat.
  destruct (bool_decide (State.getNextPhase st <= 10)) eqn:Hnext.
  - apply bool_decide_eq_true in Hnext. apply orb_true_iff.
    destruct (Hat Hnext) as [Hp | Hf]; [right | left]; apply somePhase_lookup; eauto.
  - apply bool_decide_eq_false in Hnext. apply orb_false_iff.
    split; apply not_true_iff_false; intros Hsome; apply somePhase_lookup in Hsome as [k Hk];
      pose proof (written_keys st k _ Hst Hk) as Hrange_k;
      apply (Hbefore k); [lia | now right | lia | now left].
Qed.

Section StateTrips.

Variable env : Env.

Section AnyCodec.

Variable JSON_stringify : DeploymentState -> string.
Variable JSON_parse : string -> option DeploymentState.

Lemma unreadable_loaded w :
  connected w = false \/ unreadable env JSON_parse w -> loaded env JSON_parse w = None.
Proof.
  intros [Hoff | Hbad]; [now apply loaded_off|].
  unfold loaded. destruct (connected w); [|reflexivity].
  destruct Hbad as [[e ->] | [Hfile | (text & Hfile & Hparse)]]; [reflexivity| |];
    rewrite Hfile; destruct (exec_reply _ _ _); cbn; auto.
Qed.

Lemma loadState_reads_only : confined notUpload (fun _ => False) (State.loadState env JSON_parse).
Proof. unfold State.loadState. repeat confined_step; auto. Qed.

(** When no state can be loaded (the client is not connected, the read
    is rejected, the file is absent or its text is not valid JSON),
    [updateState] returns without an error and without an upload: the
    state file stays as it is, and the status is not recorded. *)
Theorem updateState_without_state_writes_nothing n s w :
  connected w = false \/ unreadable env JSON_parse w ->
  fst (State.updateState env JSON_stringify JSON_parse n s w) = Returned tt /\
  stateFile (snd (State.updateState env JSON_stringify JSON_parse n s w)) = stateFile w /\
  exists evs,
    log (snd (State.updateState env JSON_stringify JSON_parse n s w)) = log w ++ evs /\
    Forall notUpload evs.
Proof.
  intros Hbad. apply unreadable_loaded in Hbad.
  pose proof (loadState_spec env JSON_parse w) as Hload.
  pose proof (loadState_reads_only w) as Hevs.
  unfold post in Hload, Hevs. rewrite Hbad in Hload.
  unfold State.updateState, bind.
  destruct (State.loadState env JSON_parse w) as [out w1]. cbn [fst snd] in *.
  destruct Hload as (-> & _ & Hfile & _). destruct Hevs as (_ & evs & Hlog & Hall).
  unfold ret. cbn [fst snd]. split; [reflexivity|]. split; [exact Hfile|]. now exists evs.
Qed.

(** For a state with the phases 1 to 10 of [createState], a state that
    loads is reported by [detectPartialDeployment] exactly when
    [getNextPhase] names a phase to run (a result of at most 10); when
    every phase is complete, it reports no partial deployment. *)
Theorem detectPartialDeployment_agrees_with_getNextPhase w st :
  written st ->
  fst (State.loadState env JSON_parse w) = Returned (Some st) ->
  fst (State.detectPartialDeployment env JSON_parse w) =
  Returned (if bool_decide (State.getNextPhase st <= 10) then Some st else None).
Proof.
  intros Hst Hload. unfold State.detectPartialDeployment, bind.
  destruct (State.loadState env JSON_parse w) as [out w1]. cbn [fst] in Hload. subst out.
  rewrite (partial_iff_next st Hst).
  now destruct (bool_decide (State.getNextPhase st <= 10)).
Qed.

End AnyCodec.

(** After a [createState] that returned, a state file that can be read
    loads as the state just created: the given instance name and
    metadata, last phase 0 and the phases 1 to 10 pending. It is
    reported as a partial deployment, with phase 1 as the next one. *)
Theorem createState_then_detectPartialDeployment name meta w :
  fst (State.createState env Json.stringify name meta w) = Returned tt ->
  (exists r, exec_reply env (log (snd (State.createState env Json.stringify name meta w)))
                        CAT_STATE = Resolved r) ->
  exists st,
    fst (State.detectPartialDeployment env Json.parse
           (snd (State.createState env Json.stringify name meta w))) = Returned (Some st) /\
    instanceName st = name /\ metadata st = meta /\ lastPhase st = 0 /\
    phases st = State.initialPhases /\ State.getNextPhase st = 1.
Proof.
  intros Hret [r Hread].
  set (st := mkState name (generateUUID_reply env (log w)) (toISOString_reply env (log w))
                     0 State.initialPhases meta).
  assert (Hrun : State.createState env Json.stringify name meta w =
                 (Returned tt, host_upload (Json.stringify st) STATE_FILE w)).
  { unfold State.createState, ssh_uploadContent in Hret |- *. fold st in Hret |- *.
    destruct (connected w); cbn [negb] in Hret |- *; [|discriminate Hret].
    destruct (uploadContent_reply env (log w) (Json.stringify st) STATE_FILE);
      [reflexivity | discriminate Hret]. }
  assert (Hon : connected w = true).
  { unfold State.createState, ssh_uploadContent in Hret.
    destruct (connected w); [reflexivity | discriminate Hret]. }
  rewrite Hrun in Hread |- *. cbn [snd] in Hread |- *.
  set (w1 := host_upload (Json.stringify st) STATE_FILE w) in *.
  assert (Hloaded : loaded env Json.parse w1 = Some st).
  { rewrite (loaded_on env Json.parse w1 r); [|exact Hon | exact Hread].
    unfold w1, host_upload. cbn [stateFile].
    rewrite bool_decide_eq_true_2 by reflexivity. cbn [mbind option_bind].
    apply Json_parse_stringify. }
  pose proof (loadState_spec env Json.parse w1) as Hload. unfold post in Hload.
  rewrite Hloaded in Hload. destruct Hload as (Hout & _).
  exists st. split.
  - unfold State.detectPartialDeployment, bind.
    destruct (State.loadState env Json.parse w1) as [out w2]. cbn [fst] in Hout. subst out.
    rewrite (partial_iff_next st) by apply written_create. reflexivity.
  - repeat split; reflexivity.
Qed.

End StateTrips.
(** ** Pairing automation, continued (lib/auto-connect.ts) *)

Lemma parsePendingLines_ids req : forall lines inPending,
  In req (parsePendingLines lines inPending) -> isRequestId (requestId req) = true.
Proof.
  induction lines as [|line rest IH]; intros inPending Hin; cbn [parsePendingLines] in Hin;
    [destruct Hin|].
  destruct (includes "Pending (" line); [now apply IH in Hin|].
  destruct (includes "Paired (" line); [now apply IH in Hin|].
  destruct (inPending && String.prefix "│" line && negb (includes "Request" line));
    [|now apply IH in Hin].
  destruct (Nat.leb 4 _ && isRequestId _) eqn:Hok; [|now apply IH in Hin].
  destruct Hin as [<- | Hin]; [|now apply IH in Hin].
  cbn [requestId]. now apply andb_true_iff in Hok as [_ Hid].
Qed.

Lemma observedAll_ids u req evs :
  In req (observedAll u evs) -> isRequestId (requestId req) = true.
Proof.
  unfold observedAll. intros Hin. apply in_flat_map in Hin as (ev & _ & Hin).
  destruct ev as [cmd [r|e] | | | | | | | | | | | | |]; cbn [observed] in Hin; try destruct Hin.
  destruct (_ && _); [|destruct Hin]. now apply parsePendingLines_ids in Hin.
Qed.

Lemma listings_app u evs evs' : listings u (evs ++ evs') = listings u evs + listings u evs'.
Proof. unfold listings. rewrite List.filter_app, length_app. lia. Qed.

Lemma listings_length u evs : 0 <= listings u evs <= Z.of_nat (length evs).
Proof.
  unfold listings. pose proof (List.filter_length_le (isListing u) evs). lia.
Qed.

Section AutoConnectMore.

Variable env : Env.
Variable userInfo : UserInfo.

(** Every approval that [autoConnect] sends names a request that a poll
    of the window listed, and its id is made of 36 characters among the
    digits, the letters a to f and the dash: nothing else of the devices
    table reaches the command line. *)
Theorem autoConnect_approves_only_listed_ids sshConfig p w :
  exists evs,
    log (snd (AutoConnect.autoConnect env sshConfig userInfo p w)) = log w ++ evs /\
    forall ev, In ev (approvals userInfo evs) ->
      exists req reply,
        ev = EvExec (AutoConnect.approveCmd userInfo (requestId req)) reply /\
        In req (observedAll userInfo (afterBrowser evs)) /\
        isRequestId (requestId req) = true.
Proof.
  destruct (autoConnect_spec env userInfo sshConfig p w) as (evs & Hlog & Happ).
  exists evs. split; [exact Hlog|]. intros ev Hin.
  destruct (AutoConnect.firstNew _ _) as [first|] eqn:Hfirst.
  - destruct Happ as [reply Happ]. rewrite Happ in Hin. destruct Hin as [<- | []].
    unfold AutoConnect.firstNew in Hfirst. apply find_some in Hfirst as [Hseen _].
    exists first, reply. split; [reflexivity|]. split; [exact Hseen|].
    now apply observedAll_ids in Hseen.
  - rewrite Happ in Hin. destruct Hin.
Qed.

Lemma getPendingRequests_once w :
  post (AutoConnect.getPendingRequests env userInfo) w
       (fun out w' =>
          clock w' = clock w /\ (forall c, out <> Exited c) /\ (forall e, out <> Thrown e) /\
          exists evs, log w' = log w ++ evs /\ (length evs <= 1)%nat).
Proof.
  unfold AutoConnect.getPendingRequests.
  apply post_try_catch, post_bind, post_ssh_exec_plain; [apply list_plain| | |].
  - intros _. cbv beta iota delta [andThen]. apply post_ret.
    repeat split; try discriminate. exists []. rewrite app_nil_r. split; [reflexivity|cbn; lia].
  - intros _ e _. cbv beta iota delta [andThen]. apply post_ret.
    repeat split; try discriminate. eexists [_]. split; [reflexivity|cbn; lia].
  - intros _ r _. cbv beta iota delta [andThen].
    destruct (negb _); apply post_ret; (repeat split; try discriminate);
      eexists [_]; (split; [reflexivity|cbn; lia]).
Qed.

Lemma waitLoop_polls B start timeout fuel : forall w,
  post (AutoConnect.waitLoop env fuel userInfo B start timeout) w
       (fun _ w' =>
          exists evs, log w' = log w ++ evs /\
            (listings userInfo evs = 0 \/
             AutoConnect.pollInterval * (listings userInfo evs - 1)
             < timeout - (clock w - start))).
Proof.
  induction fuel as [|fuel IH]; intros w; cbn [AutoConnect.waitLoop].
  - apply post_ret. exists []. rewrite app_nil_r. split; [reflexivity | now left].
  - apply post_bind. unfold post at 1, Date_now. cbn [fst snd andThen].
    set (now := Z.max (clock w) (now_reply env (log w))).
    set (w1 := mkWorld _ _ _ _).
    assert (Hnow : clock w <= now) by (subst now; lia).
    destruct (negb (Z.ltb (now - start) timeout)) eqn:Hover.
    { apply post_ret. exists []. rewrite app_nil_r. split; [reflexivity | now left]. }
    apply negb_false_iff, Z.ltb_lt in Hover.
    apply post_bind. eapply post_conseq; [apply getPendingRequests_once|].
    intros [requests | e | c] w2 (Hclock2 & Hx & Ht & evs & Hlog2 & Hlen);
      [|now destruct (Ht e) | now destruct (Hx c)].
    cbv beta iota delta [andThen].
    pose proof (listings_length userInfo evs) as Hcount.
    assert (Hfirst : listings userInfo evs = 0 \/
                     AutoConnect.pollInterval * (listings userInfo evs - 1)
                     < timeout - (clock w - start)).
    { unfold AutoConnect.pollInterval. lia. }
    destruct (AutoConnect.firstNew B requests).
    + apply post_ret. exists evs. split; [exact Hlog2 | exact Hfirst].
    + apply post_bind. unfold post at 1, sleep. cbn [fst snd andThen].
      set (w3 := mkWorld _ _ _ _).
      eapply post_conseq; [apply (IH w3)|].
      intros _ w4 (evs' & Hlog4 & Hrest).
      exists (evs ++ EvSleep AutoConnect.pollInterval :: evs'). split.
      * rewrite Hlog4. unfold w3. cbn [log]. rewrite Hlog2. unfold w1. cbn [log]. list_eq.
      * rewrite listings_app.
        change (EvSleep AutoConnect.pollInterval :: evs')
          with ([EvSleep AutoConnect.pollInterval] ++ evs').
        rewrite listings_app. change (listings userInfo [EvSleep AutoConnect.pollInterval]) with 0.
        pose proof (listings_length userInfo evs') as Hcount'.
        assert (Hclock3 : clock w3 = now + AutoConnect.pollInterval).
        { unfold w3. cbn [clock]. rewrite Hclock2. reflexivity. }
        rewrite Hclock3 in Hrest. unfold AutoConnect.pollInterval in *. lia.
Qed.

(** [waitForNewPairingRequest] polls a bounded number of times. A wait
    of 2000 ms follows every poll that finds nothing new, and the clock
    that [Date.now] reads never runs behind the waits; so the number [n]
    of listings is 0 when the timeout is not positive, and otherwise
    [2000 * (n - 1)] is below the timeout. Within the 60 seconds of
    [autoConnect], that is at most 30 listings. *)
Theorem waitForNewPairingRequest_polls_are_bounded B timeout w :
  exists evs,
    log (snd (AutoConnect.waitForNewPairingRequest env userInfo B timeout w)) = log w ++ evs /\
    Forall (pollingEvent userInfo) evs /\
    (listings userInfo evs = 0 \/ 2000 * (listings userInfo evs - 1) < timeout).
Proof.
  pose proof (waitForNewPairingRequest_spec env userInfo B timeout w) as Hspec.
  unfold post in Hspec. destruct Hspec as (_ & evs & Hlog & Hpoll & _).
  exists evs. split; [exact Hlog|]. split; [exact Hpoll|].
  revert Hlog. unfold AutoConnect.waitForNewPairingRequest, bind, Date_now.
  set (w1 := mkWorld _ _ _ _).
  pose proof (waitLoop_polls B (clock w1) timeout (AutoConnect.rounds timeout) w1) as Hloop.
  unfold post in Hloop.
  destruct (AutoConnect.waitLoop env _ userInfo B _ timeout w1) as [[found | e | c] w2];
    cbn [fst snd ret] in *; destruct Hloop as (evs' & Hlog' & Hbound); intros Hlog;
    (assert (evs = evs') as -> by (apply (app_inv_head (log w)); rewrite <- Hlog; exact Hlog'));
    unfold AutoConnect.pollInterval in Hbound; lia.
Qed.

End AutoConnectMore.
(** ** Host preparation (lib/docker-setup.ts, lib/user-setup.ts) *)

Lemma takeWhile_all p s : forallb p (list_ascii_of_string (takeWhile p s)) = true.
Proof.
  induction s as [|c s IH]; cbn [takeWhile]; [reflexivity|].
  destruct (p c) eqn:Hc; [|reflexivity].
  cbn [list_ascii_of_string forallb]. now rewrite Hc, IH.
Qed.

(** What the group of a match is made of. *)
Lemma matchAfter_group lit p s group :
  matchAfter lit p s = Some group ->
  group <> "" /\ forallb p (list_ascii_of_string group) = true.
Proof.
  induction s as [|c s IH]; cbn [matchAfter]; unfold groupAt.
  - destruct (String.prefix lit ""); [|discriminate].
    pose proof (takeWhile_all p (dropChars (String.length lit) "")) as Hall.
    destruct (takeWhile p _); [discriminate|]. intros [= <-]. now split.
  - destruct (String.prefix lit (String c s)); [|exact IH].
    pose proof (takeWhile_all p (dropChars (String.length lit) (String c s))) as Hall.
    destruct (takeWhile p _); [exact IH|]. intros [= <-]. now split.
Qed.

Lemma readDigits_seen s : forall acc, 0 <= acc ->
  exists n, readDigits s acc true = Some n /\ 0 <= n.
Proof.
  induction s as [|c s IH]; intros acc Hacc; cbn [readDigits]; [eauto|].
  unfold digitValue. destruct (_ && _) eqn:Hd; [|eauto].
  apply IH. apply andb_true_iff in Hd as [Hlo _]. apply Nat.leb_le in Hlo. lia.
Qed.

(** [parseInt] of a run of decimal digits is a number that is not
    negative. *)
Lemma parseInt_digits group :
  group <> "" -> forallb isDigit (list_ascii_of_string group) = true ->
  exists n, parseInt group = Some n /\ 0 <= n.
Proof.
  destruct group as [|c rest]; [congruence|]. intros _ Hall.
  cbn [list_ascii_of_string forallb] in Hall. apply andb_true_iff in Hall as [Hc _].
  unfold isDigit in Hc. destruct (digitValue c) as [d|] eqn:Hd; [|discriminate].
  assert (Hrange : (48 <= nat_of_ascii c <= 57)%nat).
  { unfold digitValue in Hd. destruct (_ && _) eqn:Hb; [|discriminate].
    apply andb_true_iff in Hb as [Hlo Hhi]. apply Nat.leb_le in Hlo, Hhi. lia. }
  assert (Hwhite : isWhite c = false).
  { unfold isWhite. apply orb_false_iff. split.
    - apply Nat.eqb_neq. lia.
    - apply andb_false_iff. right. apply Nat.leb_gt. lia. }
  assert (Hminus : c <> "-"%char).
  { intros ->. change (nat_of_ascii "-") with 45%nat in Hrange. lia. }
  assert (Hplus : c <> "+"%char).
  { intros ->. change (nat_of_ascii "+") with 43%nat in Hrange. lia. }
  assert (Hparse : parseInt (String c rest) = readDigits (String c rest) 0 false).
  { unfold parseInt. cbn [trimStart]. rewrite Hwhite.
    destruct c as [[] [] [] [] [] [] [] []]; try reflexivity; congruence. }
  rewrite Hparse. cbn [readDigits]. rewrite Hd.
  assert (H0 : 0 <= 10 * 0 + d).
  { unfold digitValue in Hd. destruct (_ && _); [|discriminate]. injection Hd as <-. lia. }
  apply (readDigits_seen rest _ H0).
Qed.

Lemma numberOf_digits group :
  group <> "" -> forallb isDigit (list_ascii_of_string group) = true ->
  0 <= UserSetup.numberOf group.
Proof.
  intros Hne Hall. destruct (parseInt_digits group Hne Hall) as (n & Hn & Hpos).
  unfold UserSetup.numberOf. now rewrite Hn.
Qed.

Section SetupFacts.

Variable env : Env.

Lemma getUserInfo_result name w :
  post (UserSetup.getUserInfo env name) w
       (fun out _ =>
          forall u, out = Returned u ->
            username u = name /\ 0 <= uid u /\ 0 <= gid u /\
            exists dir, home u = "/home/" +:+ dir /\ dir <> "" /\
                        forallb isWord (list_ascii_of_string dir) = true).
Proof.
  unfold UserSetup.getUserInfo. apply post_bind, post_ssh_exec.
  - intros _. cbn [andThen]. discriminate.
  - intros _ e _. cbn [andThen]. discriminate.
  - intros _ r _. cbn [andThen].
    set (result := fst (host_exec _ r w)).
    destruct (negb _); [apply post_throw; discriminate|].
    destruct (matchAfter "uid=" isDigit (stdout result)) as [uidText|] eqn:Huid;
      [|apply post_throw; discriminate].
    destruct (matchAfter "gid=" isDigit (stdout result)) as [gidText|] eqn:Hgid;
      [|apply post_throw; discriminate].
    destruct (matchAfter "/home/" isWord (stdout result)) as [dir|] eqn:Hhome;
      [|apply post_throw; discriminate].
    apply post_ret. intros u [= <-]. cbn [username uid gid home].
    apply matchAfter_group in Huid as [Hu1 Hu2], Hgid as [Hg1 Hg2], Hhome as [Hh1 Hh2].
    split; [reflexivity|]. split; [now apply numberOf_digits|].
    split; [now apply numberOf_digits|]. now exists dir.
Qed.

Lemma createDeploymentUser_result w :
  post (UserSetup.createDeploymentUser env) w
       (fun out _ => forall u, out = Returned u ->
          username u = "roboclaw" /\ inDockerGroup u = true /\ 0 <= uid u /\ 0 <= gid u /\
          exists dir, home u = "/home/" +:+ dir /\ dir <> "" /\
                      forallb isWord (list_ascii_of_string dir) = true).
Proof.
  assert (Hinfo : forall w1 (k : UserInfo -> M UserInfo),
            (forall v w2, post (k v) w2 (fun out _ => forall u, out = Returned u ->
                            u = v \/ u = UserSetup.inGroup v) /\
                          (inDockerGroup v = false ->
                           post (k v) w2 (fun out _ => forall u, out = Returned u ->
                                            u = UserSetup.inGroup v))) ->
            post (bind (UserSetup.getUserInfo env "roboclaw") k) w1
                 (fun out _ => forall u, out = Returned u ->
                    username u = "roboclaw" /\ inDockerGroup u = true /\
                    0 <= uid u /\ 0 <= gid u /\
                    exists dir, home u = "/home/" +:+ dir /\ dir <> "" /\
                                forallb isWord (list_ascii_of_string dir) = true)).
  { intros w1 k Hk. apply post_bind.
    eapply post_conseq; [apply getUserInfo_result|].
    intros [v | e | c] w2 Hv; cbn [andThen]; try discriminate.
    destruct (Hv v eq_refl) as (Hname & Huid & Hgid & Hhome).
    destruct (Hk v w2) as [Hany Hadded].
    destruct (inDockerGroup v) eqn:Hin.
    - eapply post_conseq; [exact Hany|]. intros out w3 Hout u Hu.
      destruct (Hout u Hu) as [-> | ->]; cbn [UserSetup.inGroup username inDockerGroup uid gid home];
        auto.
    - eapply post_conseq; [exact (Hadded eq_refl)|]. intros out w3 Hout u Hu.
      rewrite (Hout u Hu). cbn [UserSetup.inGroup username inDockerGroup uid gid home]. auto. }
  unfold UserSetup.createDeploymentUser. apply post_bind, post_ssh_exec.
  - intros _. cbn [andThen]. discriminate.
  - intros _ e _. cbn [andThen]. discriminate.
  - intros _ r _. cbn [andThen]. destruct (bool_decide _).
    + apply Hinfo. intros v w2. split.
      * destruct (negb (inDockerGroup v)).
        -- apply post_bind, post_ssh_exec; intros; cbn [andThen]; try discriminate.
           apply post_ret. intros u [= <-]. now right.
        -- apply post_ret. intros u [= <-]. now left.
      * intros ->. cbn [negb].
        apply post_bind, post_ssh_exec; intros; cbn [andThen]; try discriminate.
        apply post_ret. now intros u [= <-].
    + apply post_bind, post_ssh_exec.
      * intros _. cbn [andThen]. discriminate.
      * intros _ e _. cbn [andThen]. discriminate.
      * intros _ r' _. cbn [andThen]. destruct (negb _); [apply post_throw; discriminate|].
        apply Hinfo. intros v w2.
        assert (Hk : post (ssh_exec env (UserSetup.usermodCmd "roboclaw");;;
                           ret (UserSetup.inGroup v)) w2
                          (fun out _ => forall u, out = Returned u -> u = UserSetup.inGroup v)).
        { apply post_bind, post_ssh_exec; intros; cbn [andThen]; try discriminate.
          apply post_ret. now intros u [= <-]. }
        split; [|intros _; exact Hk].
        eapply post_conseq; [exact Hk|]. intros out w3 Hout u Hu. right. now apply Hout.
Qed.

(** The user that [createDeploymentUser] returns is named roboclaw and
    is flagged as a member of the docker group; its uid and gid are not
    negative, and its home is /home/ followed by one or more letters,
    digits or underscores, so that it can be put in a command line as it
    is. *)
Theorem createDeploymentUser_returns_plain_identity w u :
  fst (UserSetup.createDeploymentUser env w) = Returned u ->
  username u = "roboclaw" /\ inDockerGroup u = true /\ 0 <= uid u /\ 0 <= gid u /\
  exists dir, home u = "/home/" +:+ dir /\ dir <> "" /\
              forallb isWord (list_ascii_of_string dir) = true.
Proof.
  intros Hrun. pose proof (createDeploymentUser_result w) as Hpost.
  unfold post in Hpost. exact (Hpost u Hrun).
Qed.

(** What a fresh phase 4 that returned [u] has left in the state file:
    a state whose metadata are made of [u]; phase 4 is complete in it
    when the host answers the reads of the state file. *)
Lemma phase4_fresh_state config w :
  post (Deploy.phase4 env Json.stringify Json.parse config None) w
       (fun out w1 =>
          forall u, out = Returned u ->
            exists st,
              stateFile w1 = Some (Json.stringify st) /\
              metadata st = mkMetadata (username u) (uid u) (gid u) (home u)
                                       "roboclaw/openclaw:local" (cfg_branch config) /\
              ((forall events, exists r, exec_reply env events CAT_STATE = Resolved r) ->
               State.isPhaseComplete st 4 = true)).
Proof.
  unfold Deploy.phase4. cbn [Deploy.mustRun Deploy.isSome negb].
  apply post_bind, post_call, post_await; [|intros e _ u Hu; discriminate Hu].
  intros created _. cbn [andThen].
  set (w1 := record _ _).
  apply post_bind, post_createState.
  set (st0 := mkState _ _ _ _ _ _).
  apply post_ssh_uploadContent;
    [intros _ u Hu; discriminate Hu | intros _ e _ u Hu; discriminate Hu |].
  intros Hon _. cbn [andThen].
  set (w2 := host_upload (Json.stringify st0) STATE_FILE w1).
  assert (Hfile2 : stateFile w2 = Some (Json.stringify st0)).
  { unfold w2, host_upload. cbn [stateFile]. now rewrite bool_decide_eq_true_2. }
  assert (Hon2 : connected w2 = true) by exact Hon.
  apply post_bind. eapply post_conseq; [apply updateState_spec|].
  intros out w3 (_ & _ & Hcase). cbv zeta in Hcase.
  assert (Hloaded : loaded env Json.parse w2 = Some st0 \/
                    (loaded env Json.parse w2 = None /\
                     exists e, exec_reply env (log w2) CAT_STATE = Rejected e)).
  { unfold loaded. rewrite Hon2.
    destruct (exec_reply env (log w2) CAT_STATE) as [r | e]; [left | right; eauto].
    rewrite Hfile2. cbn [mbind option_bind]. apply Json_parse_stringify. }
  destruct Hloaded as [Hl | [Hl [e He]]]; rewrite Hl in Hcase.
  - destruct (uploadContent_reply env _ _ STATE_FILE);
      destruct Hcase as [-> Hfile3]; cbn [andThen]; [|intros u Hu; discriminate Hu].
    apply post_ret. intros u [= <-].
    exists (State.setPhase st0 4 complete).
    split; [exact Hfile3|]. split; [reflexivity|]. intros _.
    unfold State.isPhaseComplete, State.setPhase. cbn [phases].
    apply bool_decide_eq_true_2, lookup_insert_eq.
  - destruct Hcase as [-> Hfile3]. cbn [andThen]. apply post_ret. intros u [= <-].
    exists st0. split; [congruence|]. split; [reflexivity|]. intros Hall.
    destruct (Hall (log w2)) as [r Hr]. congruence.
Qed.

(** The identity survives the state file. Let [u] be a user that
    [createDeploymentUser] returns and that phase 4 of a fresh run got
    and returned. Then phase 4 has left in the state file a state [st],
    written by [createState] and [updateState] with the JSON codec,
    which a later process that is connected and whose read is answered
    loads back with [loadState], and from whose metadata [u] is rebuilt,
    the membership of the docker group included. With phase 4 complete
    in [st], as it is when the host answers the reads of the state file,
    phase 4 of a run that resumes from [st] returns [u] without
    touching the host. *)
Theorem resumed_identity_is_created_identity config w0 w u :
  fst (UserSetup.createDeploymentUser env w0) = Returned u ->
  fst (Deploy.phase4 env Json.stringify Json.parse config None w) = Returned u ->
  exists st,
    stateFile (snd (Deploy.phase4 env Json.stringify Json.parse config None w)) =
    Some (Json.stringify st) /\
    Deploy.userOfMetadata (metadata st) = u /\
    ((forall events, exists r, exec_reply env events CAT_STATE = Resolved r) ->
     State.isPhaseComplete st 4 = true) /\
    (forall env' w2 r,
       connected w2 = true -> stateFile w2 = Some (Json.stringify st) ->
       exec_reply env' (log w2) CAT_STATE = Resolved r ->
       fst (State.loadState env' Json.parse w2) = Returned (Some st)) /\
    (State.isPhaseComplete st 4 = true ->
     forall env' config' w2,
       Deploy.phase4 env' Json.stringify Json.parse config' (Some st) w2 = (Returned u, w2)).
Proof.
  intros Hcreated Hrun.
  pose proof (createDeploymentUser_result w0) as Hpost.
  unfold post in Hpost. destruct (Hpost u Hcreated) as (_ & Hgroup & _).
  pose proof (phase4_fresh_state config w) as Hfresh. unfold post in Hfresh.
  destruct (Hfresh u Hrun) as (st & Hfile & Hmeta & Hdone).
  assert (Hid : Deploy.userOfMetadata (metadata st) = u).
  { rewrite Hmeta. destruct u as [name uid gid home member].
    cbn [inDockerGroup] in Hgroup. subst member. reflexivity. }
  exists st. split; [exact Hfile|]. split; [exact Hid|]. split; [exact Hdone|]. split.
  - intros env' w2 r Hon Hf Hr.
    pose proof (loadState_spec env' Json.parse w2) as Hload. unfold post in Hload.
    destruct Hload as (-> & _). f_equal.
    rewrite (loaded_on env' Json.parse w2 r Hon Hr), Hf. cbn [mbind option_bind].
    apply Json_parse_stringify.
  - intros Hcomplete env' config' w2.
    unfold Deploy.phase4. cbn [Deploy.mustRun]. rewrite Hcomplete. cbn [negb].
    now rewrite Hid.
Qed.

Lemma checkPackagesCmd_plain : plain DockerSetup.checkPackagesCmd.
Proof. plain_cmd. Qed.

(** [installBasePackages] returns in two ways only: its check found the
    packages, and then it has run nothing else; or the check failed and
    the installation, run once, exited with 0. *)
Theorem installBasePackages_installs_only_when_missing w :
  fst (DockerSetup.installBasePackages env w) = Returned tt ->
  exists evs r,
    log (snd (DockerSetup.installBasePackages env w)) = log w ++ evs /\
    ((exitCode r = 0 /\ evs = [EvExec DockerSetup.checkPackagesCmd (Resolved r)]) \/
     (exitCode r <> 0 /\
      evs = [EvExec DockerSetup.checkPackagesCmd (Resolved r);
             EvExecStream (trim DockerSetup.installPackagesCmd) (Resolved 0)])).
Proof.
  pattern (fst (DockerSetup.installBasePackages env w)),
          (snd (DockerSetup.installBasePackages env w)).
  change (post (DockerSetup.installBasePackages env) w
            (fun out w' => out = Returned tt ->
               exists evs r,
                 log w' = log w ++ evs /\
                 ((exitCode r = 0 /\
                   evs = [EvExec DockerSetup.checkPackagesCmd (Resolved r)]) \/
                  (exitCode r <> 0 /\
                   evs = [EvExec DockerSetup.checkPackagesCmd (Resolved r);
                          EvExecStream (trim DockerSetup.installPackagesCmd) (Resolved 0)])))).
  unfold DockerSetup.installBasePackages.
  apply post_bind, post_ssh_exec_plain; [apply checkPackagesCmd_plain | | |];
    [intros _; cbn [andThen]; discriminate | intros _ e _; cbn [andThen]; discriminate |].
  intros _ r _. cbn [andThen].
  destruct (bool_decide (exitCode r = 0)) eqn:Hcheck.
  { apply bool_decide_eq_true in Hcheck. apply post_ret. intros _.
    exists [EvExec DockerSetup.checkPackagesCmd (Resolved r)], r.
    split; [reflexivity | now left]. }
  apply bool_decide_eq_false in Hcheck.
  apply post_bind, post_ssh_execStream;
    [intros _; cbn [andThen]; discriminate | intros _ e _; cbn [andThen]; discriminate |].
  intros _ c _. cbn [andThen].
  destruct (bool_decide (c = 0)) eqn:Hc; cbn [negb]; [|apply post_throw; discriminate].
  apply bool_decide_eq_true in Hc. subst c. apply post_ret. intros _.
  eexists _, r. split; [cbn [log record]; rewrite <- !app_assoc; reflexivity|].
  right. now split.
Qed.

Lemma checkDockerCmd_plain : plain DockerSetup.checkDockerCmd.
Proof. plain_cmd. Qed.

(** [installDocker] returns only what a check that exited with 0
    printed. Either that is its first check, and then it has run nothing
    else: an engine that is there is not installed again. Or the first
    check failed, the installation script ran once and exited with 0,
    and the check that followed passed. *)
Theorem installDocker_installs_only_when_missing w info :
  fst (DockerSetup.installDocker env w) = Returned info ->
  exists evs r,
    log (snd (DockerSetup.installDocker env w)) = log w ++ evs /\
    exitCode r = 0 /\ info = parseDockerVersion (stdout r) /\
    (evs = [EvExec DockerSetup.checkDockerCmd (Resolved r)] \/
     exists r0,
       exitCode r0 <> 0 /\
       evs = [EvExec DockerSetup.checkDockerCmd (Resolved r0);
              EvExecStream (trim DockerSetup.installDockerCmd) (Resolved 0);
              EvExec DockerSetup.checkDockerCmd (Resolved r)]).
Proof.
  pattern (fst (DockerSetup.installDocker env w)), (snd (DockerSetup.installDocker env w)).
  generalize info. clear info.
  change (post (DockerSetup.installDocker env) w
            (fun out w' => forall info, out = Returned info ->
               exists evs r,
                 log w' = log w ++ evs /\
                 exitCode r = 0 /\ info = parseDockerVersion (stdout r) /\
                 (evs = [EvExec DockerSetup.checkDockerCmd (Resolved r)] \/
                  exists r0,
                    exitCode r0 <> 0 /\
                    evs = [EvExec DockerSetup.checkDockerCmd (Resolved r0);
                           EvExecStream (trim DockerSetup.installDockerCmd) (Resolved 0);
                           EvExec DockerSetup.checkDockerCmd (Resolved r)]))).
  unfold DockerSetup.installDocker.
  apply post_bind, post_ssh_exec_plain; [apply checkDockerCmd_plain | | |];
    [intros _; cbn [andThen]; discriminate | intros _ e _; cbn [andThen]; discriminate |].
  intros _ r0 _. cbn [andThen].
  destruct (bool_decide (exitCode r0 = 0)) eqn:Hcheck.
  { apply bool_decide_eq_true in Hcheck. apply post_ret. intros info [= <-].
    exists [EvExec DockerSetup.checkDockerCmd (Resolved r0)], r0.
    split; [reflexivity|]. split; [exact Hcheck|]. split; [reflexivity | now left]. }
  apply bool_decide_eq_false in Hcheck.
  apply post_bind, post_ssh_execStream;
    [intros _; cbn [andThen]; discriminate | intros _ e _; cbn [andThen]; discriminate |].
  intros _ c _. cbn [andThen].
  destruct (bool_decide (c = 0)) eqn:Hc; cbn [negb]; [|apply post_throw; discriminate].
  apply bool_decide_eq_true in Hc. subst c.
  apply post_bind, post_ssh_exec_plain; [apply checkDockerCmd_plain | | |];
    [intros _; cbn [andThen]; discriminate | intros _ e _; cbn [andThen]; discriminate |].
  intros _ r _. cbn [andThen].
  destruct (bool_decide (exitCode r = 0)) eqn:Hverify; cbn [negb];
    [|apply post_throw; discriminate].
  apply bool_decide_eq_true in Hverify. apply post_ret. intros info [= <-].
  eexists _, r. split; [cbn [log record]; rewrite <- !app_assoc; reflexivity|].
  split; [exact Hverify|]. split; [reflexivity|]. right. now exists r0.
Qed.

End SetupFacts.
(** ** Validation of the address (lib/config.ts) *)

Section AddressFacts.

#[local] Arguments String.append : simpl nomatch.

Lemma string_app_nil_r (s : string) : s +:+ "" = s.
Proof. induction s as [|c s IH]; cbn [append]; [reflexivity | now rewrite IH]. Qed.

Lemma rev_app_spec s1 : forall s2, String.rev_app s1 s2 = String.rev s1 +:+ s2.
Proof.
  induction s1 as [|c s1 IH]; intros s2; [reflexivity|].
  unfold String.rev. cbn [String.rev_app]. rewrite (IH (String c s2)), (IH (String c "")).
  now rewrite string_app_assoc.
Qed.

Lemma rev_cons c s : String.rev (String c s) = String.rev s +:+ String c "".
Proof. unfold String.rev at 1. cbn [String.rev_app]. apply rev_app_spec. Qed.

Lemma digit_not_dot c : isDigit c = true -> c <> "."%char.
Proof.
  unfold isDigit, digitValue. intros Hc ->.
  change (nat_of_ascii ".") with 46%nat in Hc. cbn in Hc. discriminate Hc.
Qed.

Lemma prefix_dot c s : String.prefix "." (String c s) = bool_decide (c = "."%char).
Proof.
  cbn [String.prefix]. destruct (ascii_dec "." c) as [<- | Hne].
  - rewrite bool_decide_eq_true_2 by reflexivity. now destruct s.
  - rewrite bool_decide_eq_false_2 by congruence. reflexivity.
Qed.

Lemma splitGo_nonempty s : forall cur, splitGo "." 0 cur s <> [].
Proof.
  induction s as [|c s IH]; intros cur; cbn [splitGo]; [discriminate|].
  rewrite prefix_dot. destruct (bool_decide _); [discriminate | apply IH].
Qed.

(** The pieces of a split, joined again, are the text that was split. *)
Lemma splitGo_join s : forall cur, joinDots (splitGo "." 0 cur s) = String.rev cur +:+ s.
Proof.
  induction s as [|c s IH]; intros cur; cbn [splitGo].
  - cbn [joinDots]. now rewrite string_app_nil_r.
  - rewrite prefix_dot. destruct (bool_decide (c = "."%char)) eqn:Hc.
    + apply bool_decide_eq_true in Hc. subst c. cbn [String.length Nat.sub].
      specialize (IH ""). pose proof (splitGo_nonempty s "") as Hne.
      destruct (splitGo "." 0 "" s) as [|part rest] eqn:Hsplit; [congruence|].
      change (joinDots (String.rev cur :: part :: rest))
        with (String.rev cur +:+ "." +:+ joinDots (part :: rest)).
      rewrite IH. reflexivity.
    + rewrite IH, rev_cons, string_app_assoc. reflexivity.
Qed.

Lemma split_join s : joinDots (split "." s) = s.
Proof. unfold split. now rewrite splitGo_join. Qed.

(** A run of digits before a dot is one piece of the split. *)
Lemma splitGo_digits a : forall cur rest,
  forallb isDigit (list_ascii_of_string a) = true ->
  splitGo "." 0 cur (a +:+ "." +:+ rest) = (String.rev cur +:+ a) :: splitGo "." 0 "" rest.
Proof.
  induction a as [|c a IH]; intros cur rest Hall.
  - cbn [append]. cbn [splitGo]. rewrite prefix_dot, bool_decide_eq_true_2 by reflexivity.
    now rewrite string_app_nil_r.
  - cbn [list_ascii_of_string forallb] in Hall. apply andb_true_iff in Hall as [Hc Hall].
    change (String c a +:+ "." +:+ rest) with (String c (a +:+ "." +:+ rest)).
    cbn [splitGo].
    rewrite prefix_dot, bool_decide_eq_false_2 by now apply digit_not_dot.
    rewrite (IH _ _ Hall), rev_cons, string_app_assoc. reflexivity.
Qed.

Lemma splitGo_last a : forall cur,
  forallb isDigit (list_ascii_of_string a) = true ->
  splitGo "." 0 cur a = [String.rev cur +:+ a].
Proof.
  induction a as [|c a IH]; intros cur Hall.
  - cbn [splitGo]. now rewrite string_app_nil_r.
  - cbn [list_ascii_of_string forallb] in Hall. apply andb_true_iff in Hall as [Hc Hall].
    cbn [splitGo]. rewrite prefix_dot, bool_decide_eq_false_2 by now apply digit_not_dot.
    rewrite (IH _ Hall), rev_cons, string_app_assoc. reflexivity.
Qed.

Lemma split_dotted a b c d :
  forallb isDigit (list_ascii_of_string a) = true ->
  forallb isDigit (list_ascii_of_string b) = true ->
  forallb isDigit (list_ascii_of_string c) = true ->
  forallb isDigit (list_ascii_of_string d) = true ->
  split "." (dotted a b c d) = [a; b; c; d].
Proof.
  intros Ha Hb Hc Hd. unfold split, dotted.
  rewrite (splitGo_digits a _ _ Ha), (splitGo_digits b _ _ Hb), (splitGo_digits c _ _ Hc),
    (splitGo_last d _ Hd).
  reflexivity.
Qed.

Lemma octetText_checks s :
  octetText s <-> isOctetText s = true /\ octetInRange s = true.
Proof.
  unfold octetText, isOctetText, octetInRange. split.
  - intros ((Hlo & Hhi) & Hall & n & Hn & Hrange). rewrite Hn, Hall. split.
    + apply andb_true_iff. split; [|reflexivity]. apply andb_true_iff.
      split; apply Nat.leb_le; lia.
    + apply negb_true_iff, orb_false_iff. split; apply Z.ltb_ge; lia.
  - intros [Htext Hin]. apply andb_true_iff in Htext as [Hlen Hall].
    apply andb_true_iff in Hlen as [Hlo Hhi]. apply Nat.leb_le in Hlo, Hhi.
    split; [lia|]. split; [exact Hall|].
    assert (Hne : s <> "") by (intros ->; cbn in Hlo; lia).
    destruct (parseInt_digits s Hne Hall) as (n & Hn & Hpos). exists n.
    split; [exact Hn|]. rewrite Hn in Hin.
    apply negb_true_iff, orb_false_iff in Hin as [_ Hhi255]. apply Z.ltb_ge in Hhi255. lia.
Qed.

Lemma validateIP_dotted a b c d :
  octetText a -> octetText b -> octetText c -> octetText d ->
  validateIP (dotted a b c d) = true.
Proof.
  intros Ha Hb Hc Hd. unfold validateIP.
  rewrite split_dotted by (first [apply Ha | apply Hb | apply Hc | apply Hd]).
  apply octetText_checks in Ha as [Ha1 Ha2], Hb as [Hb1 Hb2], Hc as [Hc1 Hc2], Hd as [Hd1 Hd2].
  cbn [forallb]. now rewrite Ha1, Ha2, Hb1, Hb2, Hc1, Hc2, Hd1, Hd2.
Qed.

(** [validateIP] accepts exactly the texts [a.b.c.d] in which each of
    the four groups is one to three decimal digits that read as a number
    of at most 255: nothing before, between or after them. *)
Theorem validateIP_accepts_exactly_dotted_octets ip :
  validateIP ip = true <->
  exists a b c d,
    ip = dotted a b c d /\ octetText a /\ octetText b /\ octetText c /\ octetText d.
Proof.
  split.
  - unfold validateIP. pose proof (split_join ip) as Hjoin.
    destruct (split "." ip) as [|a [|b [|c [|d [|extra rest]]]]]; try discriminate.
    intros Hok. apply andb_true_iff in Hok as [Htext Hrange].
    cbn [forallb] in Htext, Hrange.
    repeat match goal with H : _ && _ = true |- _ => apply andb_true_iff in H as [? H] end.
    exists a, b, c, d. split; [symmetry; exact Hjoin|].
    repeat split; apply octetText_checks; auto.
  - intros (a & b & c & d & -> & Ha & Hb & Hc & Hd). now apply validateIP_dotted.
Qed.

Lemma octets_pretty n : 0 <= n <= 255 -> octetText (pretty n).
Proof.
  intros Hn. apply octetText_checks.
  assert (Hall : forallb octetOK (map Z.of_nat (seq 0 256)) = true) by (vm_compute; reflexivity).
  rewrite forallb_forall in Hall. specialize (Hall n).
  apply andb_true_iff. apply Hall, in_map_iff. exists (Z.to_nat n).
  split; [lia|]. apply in_seq. lia.
Qed.

(** Every address written as four decimal numbers from 0 to 255 with
    dots between them is accepted by [validateIP]. *)
Theorem validateIP_accepts_every_address a b c d :
  0 <= a <= 255 -> 0 <= b <= 255 -> 0 <= c <= 255 -> 0 <= d <= 255 ->
  validateIP (dotted (pretty a) (pretty b) (pretty c) (pretty d)) = true.
Proof. intros Ha Hb Hc Hd. apply validateIP_dotted; now apply octets_pretty. Qed.

End AddressFacts.
(** ** The age of a state (lib/state.ts) *)

Section AgeFacts.

Variable Date_parse : string -> option Z.
Variable now : Z.

Lemma hours_over_24 age :
  negb (QArith_base.Qle_bool (hoursOf age) (QArith_base.inject_Z 24)) = true <->
  24 * (1000 * 60 * 60) < age.
Proof.
  unfold hoursOf, QArith_base.Qle_bool, QArith_base.Qdiv, QArith_base.Qmult,
    QArith_base.Qinv, QArith_base.inject_Z.
  change (1000 * 60 * 60) with 3600000.
  cbn [QArith_base.Qnum QArith_base.Qden].
  rewrite negb_true_iff, Z.leb_gt. lia.
Qed.

(** A state that [isStateStale] calls stale, older than 24 hours, is
    shown by [formatStateAge] in days, one at least: the warning and the
    age displayed with it agree. A state whose start date cannot be read
    is never stale. *)
Theorem stale_state_is_shown_in_days state :
  isStateStale Date_parse now state = true ->
  exists age days,
    Date_parse (startedAt state) = Some (now - age) /\
    1 <= days /\ days = age / (1000 * 60 * 60 * 24) /\
    formatStateAge Date_parse now state = pretty days +:+ " day" +:+ plural days +:+ " ago".
Proof.
  unfold isStateStale, formatStateAge, ageMs.
  destruct (Date_parse (startedAt state)) as [started|]; cbn [fmap option_fmap option_map];
    [|discriminate].
  intros Hstale. apply hours_over_24 in Hstale.
  set (age := now - started) in *.
  exists age, (age / (1000 * 60 * 60 * 24)).
  assert (Hdays : age / (1000 * 60) / 60 / 24 = age / (1000 * 60 * 60 * 24)).
  { rewrite !Z.div_div by lia. reflexivity. }
  assert (Hone : 1 <= age / (1000 * 60 * 60 * 24)).
  { apply Z.div_le_lower_bound; lia. }
  split; [f_equal; unfold age; lia|]. split; [exact Hone|]. split; [reflexivity|].
  cbv zeta. rewrite Hdays. rewrite bool_decide_eq_true_2 by lia. reflexivity.
Qed.

End AgeFacts.
(** ** Runs of the rest of the modules *)

Section MoreRuns.

Import Scenario.

(** The state left by the run that failed in phase 5: phase 1 is next,
    and phase 2 once phase 1 is marked. *)
Lemma getNextPhase_advances_witness :
  State.getNextPhase interrupted <
  State.getNextPhase (State.setPhase interrupted (State.getNextPhase interrupted) complete).
Proof.
  apply (getNextPhase_advances interrupted). vm_compute. discriminate.
Defined.

Lemma getProgressSummary_counts_add_up_witness :
  completeCount (getProgressSummary interrupted) + failedCount (getProgressSummary interrupted) +
  pendingCount (getProgressSummary interrupted) = totalCount (getProgressSummary interrupted) /\
  totalCount (getProgressSummary interrupted) = 10.
Proof.
  apply (getProgressSummary_counts_add_up interrupted).
  apply (written_update
           (mkState "instance-192-168-1-100" "0b1f6c1e-5f0a-4a51-9a56-1f3f1f6f2a10"
                    "2026-01-01T00:00:00.000Z" 0 State.initialPhases
                    (mkMetadata "roboclaw" 1000 1000 "/home/roboclaw"
                                "roboclaw/openclaw:local" "main")) 4 complete).
  - apply written_create.
  - lia.
Defined.

(** The gateway of the healthy host is found listening at the first look. *)
Lemma startGateway_checks_at_most_15_times_witness :
  (exists e, fst (Gateway.startGateway (envOf healthy) principal online) = Thrown e /\
     log (snd (Gateway.startGateway (envOf healthy) principal online)) =
     log online ++ [EvExecStream (Gateway.startCmd principal) (Rejected e)]) \/
  (exists c, c <> 0 /\
     fst (Gateway.startGateway (envOf healthy) principal online) =
     Thrown "Failed to start gateway" /\
     log (snd (Gateway.startGateway (envOf healthy) principal online)) =
     log online ++ [EvExecStream (Gateway.startCmd principal) (Resolved c)]) \/
  (exists replies,
     log (snd (Gateway.startGateway (envOf healthy) principal online)) =
     log online ++ EvExecStream (Gateway.startCmd principal) (Resolved 0)
                :: pollRounds principal replies /\
     (length replies <= 15)%nat /\
     ((exists earlier r,
         replies = earlier ++ [Resolved r] /\ Forall exitedNonZero earlier /\
         exitCode r = 0 /\
         fst (Gateway.startGateway (envOf healthy) principal online) = Returned tt) \/
      (Forall exitedNonZero replies /\ length replies = 15%nat /\
       fst (Gateway.startGateway (envOf healthy) principal online) =
       Thrown "Gateway failed to start within 30 seconds") \/
      (exists earlier e,
         replies = earlier ++ [Rejected e] /\ Forall exitedNonZero earlier /\
         fst (Gateway.startGateway (envOf healthy) principal online) = Thrown e))).
Proof.
  apply (startGateway_checks_at_most_15_times (envOf healthy) principal online
           (fst (Gateway.startGateway (envOf healthy) principal online))
           (snd (Gateway.startGateway (envOf healthy) principal online))).
  - reflexivity.
  - vm_compute. reflexivity.
Defined.

(** The host that refuses the connection: three attempts, with waits of
    one and two seconds between them. *)
Lemma connect_retries_with_backoff_witness :
  (3 <= 0 /\ fst (ssh_connect (envOf unreachable) 3 start) = Returned tt /\
   snd (ssh_connect (envOf unreachable) 3 start) = start) \/
  (1 <= 3 /\
   stateFile (snd (ssh_connect (envOf unreachable) 3 start)) = stateFile start /\
   ((exists errors,
       Z.of_nat (length errors) < 3 /\
       fst (ssh_connect (envOf unreachable) 3 start) = Returned tt /\
       connected (snd (ssh_connect (envOf unreachable) 3 start)) = true /\
       log (snd (ssh_connect (envOf unreachable) 3 start)) =
       log start ++ failedAttempts errors 1 ++
       [EvConnectAttempt (1 + Z.of_nat (length errors)) (Resolved tt)]) \/
    (exists errors e,
       Z.of_nat (length errors) = 3 - 1 /\
       fst (ssh_connect (envOf unreachable) 3 start) =
       Thrown ("SSH connection failed after " +:+ pretty 3 +:+ " attempts: " +:+ e) /\
       connected (snd (ssh_connect (envOf unreachable) 3 start)) = false /\
       log (snd (ssh_connect (envOf unreachable) 3 start)) =
       log start ++ failedAttempts errors 1 ++ [EvConnectAttempt 3 (Rejected e)]))).
Proof.
  apply (connect_retries_with_backoff (envOf unreachable) 3 start
           (fst (ssh_connect (envOf unreachable) 3 start))
           (snd (ssh_connect (envOf unreachable) 3 start))).
  - reflexivity.
  - vm_compute. reflexivity.
Defined.

(** No state file on the host: the update is dropped. *)
Lemma updateState_without_state_writes_nothing_witness :
  fst (State.updateState (envOf healthy) Json.stringify Json.parse 5 complete online) =
  Returned tt /\
  stateFile (snd (State.updateState (envOf healthy) Json.stringify Json.parse 5 complete online))
  = stateFile online /\
  exists evs,
    log (snd (State.updateState (envOf healthy) Json.stringify Json.parse 5 complete online)) =
    log online ++ evs /\
    Forall notUpload evs.
Proof.
  apply (updateState_without_state_writes_nothing
           (envOf healthy) Json.stringify Json.parse 5 complete online).
  right. right. left. reflexivity.
Defined.

(** The state left by the run that failed in phase 5 is reported. *)
Lemma detectPartialDeployment_agrees_with_getNextPhase_witness :
  fst (State.detectPartialDeployment (envOf healthy) Json.parse resumed) =
  Returned (if bool_decide (State.getNextPhase interrupted <= 10)
            then Some interrupted else None).
Proof.
  apply (detectPartialDeployment_agrees_with_getNextPhase
           (envOf healthy) Json.parse resumed interrupted).
  - apply (written_update
             (mkState "instance-192-168-1-100" "0b1f6c1e-5f0a-4a51-9a56-1f3f1f6f2a10"
                      "2026-01-01T00:00:00.000Z" 0 State.initialPhases
                      (mkMetadata "roboclaw" 1000 1000 "/home/roboclaw"
                                  "roboclaw/openclaw:local" "main")) 4 complete).
    + apply written_create.
    + lia.
  - vm_compute. reflexivity.
Defined.

Lemma createState_then_detectPartialDeployment_witness :
  exists st,
    fst (State.detectPartialDeployment (envOf healthy) Json.parse
           (snd (State.createState (envOf healthy) Json.stringify "instance-192-168-1-100"
                   (metadata interrupted) online))) = Returned (Some st) /\
    instanceName st = "instance-192-168-1-100" /\ metadata st = metadata interrupted /\
    lastPhase st = 0 /\ phases st = State.initialPhases /\ State.getNextPhase st = 1.
Proof.
  apply (createState_then_detectPartialDeployment
           (envOf healthy) "instance-192-168-1-100" (metadata interrupted) online).
  - reflexivity.
  - eexists. vm_compute. reflexivity.
Defined.

(** The principal exists already and is in the docker group. *)
Lemma createDeploymentUser_returns_plain_identity_witness :
  username principal = "roboclaw" /\ inDockerGroup principal = true /\
  0 <= uid principal /\ 0 <= gid principal /\
  exists dir, home principal = "/home/" +:+ dir /\ dir <> "" /\
              forallb isWord (list_ascii_of_string dir) = true.
Proof.
  apply (createDeploymentUser_returns_plain_identity (answering idOutput) online principal).
  vm_compute. reflexivity.
Defined.

(** Phase 4 of a fresh run on a host that answers [id] for the
    principal. *)
Lemma resumed_identity_is_created_identity_witness :
  exists st,
    stateFile (snd (Deploy.phase4 (answering idOutput) Json.stringify Json.parse config None
                                  online)) = Some (Json.stringify st) /\
    Deploy.userOfMetadata (metadata st) = principal /\
    ((forall events, exists r,
         exec_reply (answering idOutput) events CAT_STATE = Resolved r) ->
     State.isPhaseComplete st 4 = true) /\
    (forall env' w2 r,
       connected w2 = true -> stateFile w2 = Some (Json.stringify st) ->
       exec_reply env' (log w2) CAT_STATE = Resolved r ->
       fst (State.loadState env' Json.parse w2) = Returned (Some st)) /\
    (State.isPhaseComplete st 4 = true ->
     forall env' config' w2,
       Deploy.phase4 env' Json.stringify Json.parse config' (Some st) w2 =
       (Returned principal, w2)).
Proof.
  apply (resumed_identity_is_created_identity (answering idOutput) config online online
                                              principal).
  - vm_compute. reflexivity.
  - vm_compute. reflexivity.
Defined.

(** The packages are there already: nothing is installed. *)
Lemma installBasePackages_installs_only_when_missing_witness :
  exists evs r,
    log (snd (DockerSetup.installBasePackages (answering "/usr/bin/git") online)) =
    log online ++ evs /\
    ((exitCode r = 0 /\ evs = [EvExec DockerSetup.checkPackagesCmd (Resolved r)]) \/
     (exitCode r <> 0 /\
      evs = [EvExec DockerSetup.checkPackagesCmd (Resolved r);
             EvExecStream (trim DockerSetup.installPackagesCmd) (Resolved 0)])).
Proof.
  apply (installBasePackages_installs_only_when_missing (answering "/usr/bin/git") online).
  reflexivity.
Defined.

(** The engine is there already: nothing is installed. *)
Lemma installDocker_installs_only_when_missing_witness :
  exists evs r,
    log (snd (DockerSetup.installDocker (answering dockerOutput) online)) = log online ++ evs /\
    exitCode r = 0 /\ mkDockerInfo "24.0.7" "2.21.0" = parseDockerVersion (stdout r) /\
    (evs = [EvExec DockerSetup.checkDockerCmd (Resolved r)] \/
     exists r0,
       exitCode r0 <> 0 /\
       evs = [EvExec DockerSetup.checkDockerCmd (Resolved r0);
              EvExecStream (trim DockerSetup.installDockerCmd) (Resolved 0);
              EvExec DockerSetup.checkDockerCmd (Resolved r)]).
Proof.
  apply (installDocker_installs_only_when_missing (answering dockerOutput) online
           (mkDockerInfo "24.0.7" "2.21.0")).
  vm_compute. reflexivity.
Defined.

Lemma validateIP_accepts_every_address_witness :
  validateIP (dotted (pretty 192) (pretty 168) (pretty 1) (pretty 100)) = true.
Proof. apply (validateIP_accepts_every_address 192 168 1 100); lia. Defined.

(** A state that is 25 hours old. *)
Lemma stale_state_is_shown_in_days_witness :
  exists age days,
    epoch (startedAt interrupted) = Some (90000000 - age) /\
    1 <= days /\ days = age / (1000 * 60 * 60 * 24) /\
    formatStateAge epoch 90000000 interrupted =
    pretty days +:+ " day" +:+ plural days +:+ " ago".
Proof.
  apply (stale_state_is_shown_in_days epoch 90000000 interrupted).
  vm_compute. reflexivity.
Defined.

(** The SSH user of the host is not root. *)
Lemma deployCommand_exits_2_only_for_non_root_witness :
  exists before r,
    log (snd (Deploy.deployCommand (envOf unprivileged) Json.stringify Json.parse flags start)) =
    log start ++ before ++ [EvDone Connect true; EvExec "id -u" (Resolved r)] /\
    Forall prelude before /\
    (exitCode r <> 0 \/ trim (stdout r) <> "0").
Proof.
  apply (deployCommand_exits_2_only_for_non_root
           (envOf unprivileged) Json.stringify Json.parse flags start).
  vm_compute. reflexivity.
Defined.

(** The run that resumes from [interrupted] on the healthy host. *)
Lemma runPhases_persists_before_next_phase_witness :
  exists evs,
    log (snd (phasesRun healthy (Some interrupted) resumed)) =
    log (resuming healthy resumed) ++ evs /\
    persistedBefore Json.parse (recordable (Some interrupted)) evs.
Proof.
  apply (runPhases_persists_before_next_phase
           (envOf healthy) Json.stringify Json.parse (host_reads healthy)
           Json_parse_stringify (Some interrupted) config resumed (resuming healthy resumed)
           (fst (phasesRun healthy (Some interrupted) resumed))).
  - reflexivity.
  - vm_compute. reflexivity.
  - vm_compute. reflexivity.
Defined.

(** The run that resumes from [advanced], past phase 5. *)
Lemma runPhases_runs_incomplete_phases_witness :
  exists evs,
    log (snd (phasesRun healthy (Some advanced) halfway)) =
    log (resuming healthy halfway) ++ evs /\
    (forall n, called n evs ->
       2 <= n <= 9 /\ (n <= 8 -> State.isPhaseComplete advanced n = false)) /\
    (forall n, 2 <= n <= 9 -> (n <= 8 -> State.isPhaseComplete advanced n = false) ->
       (exists x, fst (phasesRun healthy (Some advanced) halfway) = Returned x) \/
       (exists m, n < m /\ called m evs) ->
       called n evs).
Proof.
  apply (runPhases_runs_incomplete_phases
           (envOf healthy) Json.stringify Json.parse config advanced
           (resuming healthy halfway)).
  vm_compute. reflexivity.
Defined.

(** The run on a host where the directories cannot be created. *)
Lemma runPhases_failure_stops_run_witness :
  exists evs,
    log (snd (phasesRun (failingIn 5) None online)) =
    log (resuming (failingIn 5) online) ++ evs /\
    forall b n, In (EvDone b false) evs -> phaseOf b = Some n ->
      (exists e, fst (phasesRun (failingIn 5) None online) = Thrown e) /\
      (forall a snap k, In (EvCall a snap) evs -> phaseOf a = Some k -> k <= n) /\
      (forall a snap, In (EvCall a snap) evs -> phaseOf a = Some n ->
         stateFile (snd (phasesRun (failingIn 5) None online)) = snap).
Proof.
  apply (runPhases_failure_stops_run
           (envOf (failingIn 5)) Json.stringify Json.parse None config
           (resuming (failingIn 5) online)).
  vm_compute. reflexivity.
Defined.

(** The run on the healthy host: its configuration asks for no
    auto-connect, and it returns with the client disconnected. *)
Lemma deployCommand_returns_or_exits_1_or_2_witness :
  (fst (deploy healthy flags start) = Returned tt /\
   connected (snd (deploy healthy flags start)) = false) \/
  fst (deploy healthy flags start) = Exited 1 \/
  fst (deploy healthy flags start) = Exited 2.
Proof.
  apply (deployCommand_returns_or_exits_1_or_2
           (envOf healthy) Json.stringify Json.parse flags start).
  vm_compute. reflexivity.
Defined.

End MoreRuns.
